(** * Litecord (patchcord): embedding of the REST/gateway helpers and of the
      dispatch contract they call into.

    Source modules embedded here:
      - litecord/embed/sanitizer.py   (sanitize_embed, path_exists)
      - litecord/images.py            (to_raw, parse_data_uri)
      - litecord/gateway/schemas.py   (validate, IDENTIFY_SCHEMA)
      - litecord/blueprints/users.py  (_try_reroll, _try_username_patch,
                                       patch_me, leave_guild,
                                       patch_current_settings)
    The dispatcher object (app.dispatcher) is not part of these files; its
    contract is taken from the design document. *)

From Stdlib Require Import ZArith Ascii String List Lia Bool.
From stdpp Require Import base option list gmap strings pretty sorting.

Set Warnings "-register-all,-clear-no-such-hyp".

Local Open Scope string_scope.
Local Open Scope Z_scope.

(** ** Python values, exceptions and the result of a call *)

Module Py.

(** The exceptions that the embedded functions raise or catch. *)
Inductive exn : Type :=
| KeyError (key : string)
| TypeError (msg : string)
| ValueError (msg : string)
| BinasciiError (msg : string)
| ImageError (msg : string)
| DecodeError (msg : string)
| BadRequest (msg : string) (fields : list (string * string))
| GuildNotFound
| UniqueViolationError
| RecursionError.

(** [isinstance(e, ValueError)]: binascii.Error derives from ValueError. *)
Definition is_ValueError (e : exn) : bool :=
  match e with
  | ValueError _ | BinasciiError _ => true
  | _ => false
  end.

Definition is_KeyError (e : exn) : bool :=
  match e with KeyError _ => true | _ => false end.

Definition is_TypeError (e : exn) : bool :=
  match e with TypeError _ => true | _ => false end.

Definition is_ImageError (e : exn) : bool :=
  match e with ImageError _ => true | _ => false end.

(** A call either returns a value or raises. *)
Inductive result (A : Type) : Type :=
| Return (a : A)
| Raise (e : exn).
Arguments Return {A} a.
Arguments Raise {A} e.

Global Instance result_ret : MRet result := fun A a => Return a.
Global Instance result_bind : MBind result := fun A B k r =>
  match r with
  | Return a => k a
  | Raise e => Raise e
  end.

(** [try: body  except <handled>: handler] *)
Definition try_except {A} (body : result A) (handled : exn -> bool)
    (handler : exn -> result A) : result A :=
  match body with
  | Return a => Return a
  | Raise e => if handled e then handler e else Raise e
  end.

Definition returns {A} (r : result A) : bool :=
  match r with Return _ => true | Raise _ => false end.

(** JSON-shaped Python values: what request bodies, embeds and event
    payloads are made of.  A float is kept as its IEEE-754 bit pattern;
    only its type and its truthiness are ever looked at. *)
Inductive value : Type :=
| VNone
| VBool (b : bool)
| VInt (z : Z)
| VFloat (bits : Z)
| VStr (s : string)
| VList (l : list value)
| VDict (d : gmap string value).

(** Python truthiness ([if v:]). *)
Definition truthy (v : value) : bool :=
  match v with
  | VNone => false
  | VBool b => b
  | VInt z => negb (z =? 0)
  | VFloat bits => negb ((bits =? 0) || (bits =? 2 ^ 63))
  | VStr s => negb (String.eqb s "")
  | VList l => match l with [] => false | _ => true end
  | VDict d => negb (bool_decide (d = ∅))
  end.

(** [v[key]] for a string key: dictionaries raise KeyError on a missing
    key; lists and strings only take integer indices; None, booleans and
    integers are not subscriptable. *)
Definition getitem (v : value) (key : string) : result value :=
  match v with
  | VDict d =>
      match d !! key with
      | Some x => Return x
      | None => Raise (KeyError key)
      end
  | VList _ => Raise (TypeError "list indices must be integers or slices, not str")
  | VStr _ => Raise (TypeError "string indices must be integers")
  | VNone => Raise (TypeError "'NoneType' object is not subscriptable")
  | VBool _ => Raise (TypeError "'bool' object is not subscriptable")
  | VInt _ => Raise (TypeError "'int' object is not subscriptable")
  | VFloat _ => Raise (TypeError "'float' object is not subscriptable")
  end.

(** [s.split(sep)] for a one-character separator: always at least one
    piece, empty pieces are kept. *)
Fixpoint split (sep : ascii) (s : string) : list string :=
  match s with
  | EmptyString => [EmptyString]
  | String c rest =>
      if Ascii.eqb c sep then EmptyString :: split sep rest
      else match split sep rest with
           | [] => [String c EmptyString]
           | piece :: pieces => String c piece :: pieces
           end
  end.

(** [x == y] on values of the same JSON type is structural equality. *)
Global Instance value_eq_dec : EqDecision value.
Proof.
  refine (fix go (x y : value) {struct x} : Decision (x = y) :=
    let _ : EqDecision value := @go in
    match x, y with
    | VNone, VNone => left _
    | VBool a, VBool b => cast_if (decide (a = b))
    | VInt a, VInt b => cast_if (decide (a = b))
    | VFloat a, VFloat b => cast_if (decide (a = b))
    | VStr a, VStr b => cast_if (decide (a = b))
    | VList a, VList b => cast_if (decide (a = b))
    | VDict a, VDict b => cast_if (decide (a = b))
    | _, _ => right _
    end); try abstract congruence.
Defined.

(** [v[key] = x] *)
Definition setitem (v : value) (key : string) (x : value) : result value :=
  match v with
  | VDict d => Return (VDict (<[key := x]> d))
  | _ => Raise (TypeError "object does not support item assignment")
  end.

(** [v.pop(key)], keeping only the remaining object. *)
Definition pop (v : value) (key : string) : result value :=
  match v with
  | VDict d =>
      match d !! key with
      | Some _ => Return (VDict (delete key d))
      | None => Raise (KeyError key)
      end
  | _ => Raise (TypeError "object has no attribute 'pop'")
  end.

(** [str(v)] for the scalars that reach it; containers and floats never
    do and are rendered by a placeholder. *)
Definition str (v : value) : string :=
  match v with
  | VNone => "None"
  | VBool true => "True"
  | VBool false => "False"
  | VInt z => pretty z
  | VStr s => s
  | VFloat _ | VList _ | VDict _ => "<object>"
  end.

(** Tuple unpacking [a, b = pieces]: ValueError unless there are exactly
    two pieces. *)
Definition unpack2 {A} (pieces : list A) : result (A * A) :=
  match pieces with
  | [a; b] => Return (a, b)
  | [] | [_] => Raise (ValueError "not enough values to unpack (expected 2)")
  | _ => Raise (ValueError "too many values to unpack (expected 2)")
  end.

End Py.

(** ** litecord/embed/sanitizer.py *)

Module Sanitizer.
Import Py.

(** [Embed = Dict[str, Any]] *)
Abbreviation Embed := (gmap string value).

(** [return {**embed, **{"type": "rich"}}] *)
Definition sanitize_embed (embed : Embed) : Embed :=
  <["type" := VStr "rich"]> embed.

(** The recursion of [path_exists] on an already split component list:
    [path_exists(embed[current], components[1:])] under
    [except (KeyError, TypeError, ValueError): return False].
    [frames] is the number of nested calls that the interpreter still
    allows ([sys.getrecursionlimit()] less the depth of the caller): each
    call of path_exists takes one, and a call when none is left raises
    RecursionError, which the except clause does not catch. *)
Fixpoint path_exists_list (frames : nat) (embed : value)
    (components : list string) : result bool :=
  match frames with
  | O => Raise RecursionError
  | S frames' =>
      match components with
      | [] => Return true
      | current :: rest =>
          try_except
            (sub ← getitem embed current; path_exists_list frames' sub rest)
            (fun e => is_KeyError e || is_TypeError e || is_ValueError e)
            (fun _ => Return false)
      end
  end.

(** [components_in: Union[List[str], str]] *)
Inductive components_in : Type :=
| CompStr (s : string)
| CompList (l : list string).

Definition components_of (c : components_in) : list string :=
  match c with
  | CompStr s => split "." s
  | CompList l => l
  end.

Definition path_exists (frames : nat) (embed : value) (c : components_in)
    : result bool :=
  path_exists_list frames embed (components_of c).

(** What the docstring describes: going one key deeper per component. *)
Definition index_step (acc : option value) (key : string) : option value :=
  match acc with
  | Some v => match getitem v key with Return x => Some x | Raise _ => None end
  | None => None
  end.

Definition index_path (v : value) (components : list string) : option value :=
  fold_left index_step components (Some v).

(** A chain of [n] dictionaries, each under the key "a" of the one
    before. *)
Definition deep_embed (n : nat) : value :=
  Nat.iter n (fun v => VDict {[ "a" := v ]}) VNone.

End Sanitizer.

(** ** litecord/images.py *)

Module Images.
Import Py.

Abbreviation bytes := (list Byte.byte).

(** *** base64.b64decode, as to_raw calls it (validate=False) *)

(** Position of a character in the standard base64 alphabet. *)
Definition b64_index (c : ascii) : option N :=
  let n := N_of_ascii c in
  if ((65 <=? n) && (n <=? 90))%N then Some (n - 65)%N
  else if ((97 <=? n) && (n <=? 122))%N then Some (n - 71)%N
  else if ((48 <=? n) && (n <=? 57))%N then Some (n + 4)%N
  else if (n =? 43)%N then Some 62%N
  else if (n =? 47)%N then Some 63%N
  else None.

Definition byte_of_N (n : N) : Byte.byte :=
  byte_of_ascii (ascii_of_N (n mod 256)).

(** The decoding loop of binascii.a2b_base64 in its lenient mode:
    characters outside the alphabet are skipped, a pad sequence that
    completes a quad ends the input, and leftover characters of an
    unfinished quad are an error.  [out] is the output so far, last byte
    first. *)
Fixpoint a2b_base64_loop (data : string) (quad_pos : nat) (leftchar : N)
    (pads : nat) (out : bytes) : result bytes :=
  match data with
  | EmptyString =>
      match quad_pos with
      | O => Return (rev out)
      | S O => Raise (BinasciiError
          "Invalid base64-encoded string: number of data characters cannot be 1 more than a multiple of 4")
      | _ => Raise (BinasciiError "Incorrect padding")
      end
  | String c rest =>
      if Ascii.eqb c "="%char then
        if (2 <=? quad_pos)%nat then
          if (4 <=? quad_pos + S pads)%nat then Return (rev out)
          else a2b_base64_loop rest quad_pos leftchar (S pads) out
        else a2b_base64_loop rest quad_pos leftchar pads out
      else
        match b64_index c with
        | None => a2b_base64_loop rest quad_pos leftchar pads out
        | Some this_ch =>
            match quad_pos with
            | O => a2b_base64_loop rest 1 this_ch 0 out
            | S O =>
                a2b_base64_loop rest 2 (N.land this_ch 15) 0
                  (byte_of_N (N.lor (N.shiftl leftchar 2) (N.shiftr this_ch 4)) :: out)
            | S (S O) =>
                a2b_base64_loop rest 3 (N.land this_ch 3) 0
                  (byte_of_N (N.lor (N.shiftl leftchar 4) (N.shiftr this_ch 2)) :: out)
            | _ =>
                a2b_base64_loop rest 0 0%N 0
                  (byte_of_N (N.lor (N.shiftl leftchar 6) this_ch) :: out)
            end
        end
  end.

Definition is_ascii_str (s : string) : bool :=
  forallb (fun c => (N_of_ascii c <? 128)%N) (list_ascii_of_string s).

(** [base64.b64decode(data)] on a str argument. *)
Definition b64decode (data : string) : result bytes :=
  if is_ascii_str data then a2b_base64_loop data 0 0%N 0 []
  else Raise (ValueError "string argument should contain only ASCII characters").

(** *** The functions of the module *)

Definition to_raw (data_type data : string) : result (option bytes) :=
  if String.eqb data_type "base64" then
    raw ← b64decode data; Return (Some raw)
  else Return None.

Definition parse_data_uri (uri : string) : result (string * bytes) :=
  try_except
    ('(header, headered_data) ← unpack2 (split ";" uri);
     '(_, given_mime) ← unpack2 (split ":" header);
     '(data_type, data) ← unpack2 (split "," headered_data);
     raw_data ← to_raw data_type data;
     match raw_data with
     | None => Raise (ImageError "Unknown data header")
     | Some raw => Return (given_mime, raw)
     end)
    is_ValueError
    (fun _ => Raise (ImageError "data URI invalid syntax")).

(** A data URI that parse_data_uri accepts: one ';', one ':' before it,
    one ',' after it, the word base64 in between and decodable data. *)
Definition well_formed (uri mime : string) (raw : bytes) : Prop :=
  exists header headered_data scheme data,
    split ";" uri = [header; headered_data]
    /\ split ":" header = [scheme; mime]
    /\ split "," headered_data = ["base64"; data]
    /\ b64decode data = Return raw.

End Images.

(** ** litecord/gateway/schemas.py *)

Module GatewaySchemas.
Import Py.

(** The schema language: the rules that the schemas of this module use
    for the identify payload ("type", "required", "schema"). *)
Inductive type_name : Type :=
| TNumber | TString | TBoolean | TList | TDict.

Inductive rules : Type :=
| Rules (type : type_name) (required : bool)
        (schema : option (list (string * rules))).

Abbreviation Schema := (list (string * rules)).

Definition rules_required (r : rules) : bool :=
  match r with Rules _ req _ => req end.

Definition BASE : Schema :=
  [ ("op", Rules TNumber true None);
    ("s", Rules TNumber false None) ].

Definition IDENTIFY_SCHEMA : Schema :=
  BASE ++
  [ ("d", Rules TDict false (Some
      [ ("token", Rules TString true None);
        ("compress", Rules TBoolean false None);
        ("large_threshold", Rules TNumber false None);
        ("shard", Rules TList false None);
        ("presence", Rules TDict false None) ])) ].

(** LitecordValidator (litecord/schemas.py) is a cerberus Validator and is
    not among the files of this development.  The three rules above get
    their Cerberus meaning; whether keys outside the schema are tolerated
    ([allow_unknown]) is left as a parameter of the validator. *)

(** The "type" rule.  A bool is not a number; a str is not a list. *)
Definition has_type (t : type_name) (v : value) : bool :=
  match t, v with
  | TNumber, (VInt _ | VFloat _) => true
  | TString, VStr _ => true
  | TBoolean, VBool _ => true
  | TList, VList _ => true
  | TDict, VDict _ => true
  | _, _ => false
  end.

Definition is_None (v : value) : bool :=
  match v with VNone => true | _ => false end.

Definition known_key (schema : Schema) (k : string) : bool :=
  existsb (String.eqb k) (map fst schema).

(** Validation of one field value against its rules: a null value is not
    allowed (no rule here says "nullable"), the type must match, and a
    dict with a "schema" rule is validated as a document of its own. *)
Fixpoint validate_rules (allow_unknown : bool) (r : rules) (v : value)
    {struct r} : bool :=
  match r with
  | Rules t _ sub =>
      negb (is_None v) && has_type t v &&
      match sub, v with
      | Some schema, VDict d =>
          (fix fields (sch : Schema) : bool :=
             match sch with
             | [] => true
             | (k, r') :: sch' =>
                 match d !! k with
                 | Some x => validate_rules allow_unknown r' x
                 | None => negb (rules_required r')
                 end && fields sch'
             end) schema
          && (allow_unknown
              || forallb (known_key schema) (map fst (map_to_list d)))
      | _, _ => true
      end
  end.

(** [Validator(schema).validate(document)] on a mapping. *)
Definition validate_mapping (allow_unknown : bool) (schema : Schema)
    (d : gmap string value) : bool :=
  validate_rules allow_unknown (Rules TDict false (Some schema)) (VDict d).

(** [validator.validate(reqjson)]: cerberus raises DocumentError when the
    document is not a mapping. *)
Definition validator_validate (allow_unknown : bool) (schema : Schema)
    (reqjson : value) : result bool :=
  match reqjson with
  | VDict d => Return (validate_mapping allow_unknown schema d)
  | _ => Raise (TypeError "DocumentError: document is not a mapping")
  end.

(** [validate(reqjson, schema)].  No rule of these schemas normalizes
    (no default, coerce or rename), so [validator.document] is the
    document that was handed in. *)
Definition validate (allow_unknown : bool) (reqjson : value)
    (schema : Schema) : result value :=
  valid ← try_except (validator_validate allow_unknown schema reqjson)
            (fun _ => true)
            (fun _ => Raise (DecodeError "Error while validating"));
  if negb valid then Raise (DecodeError "Error validating message")
  else Return reqjson.

(** The entry [field] of the data field "d" of a gateway payload. *)
Definition payload_field (reqjson : value) (field : string) : option value :=
  match reqjson with
  | VDict d =>
      match d !! "d" with
      | Some (VDict data) => data !! field
      | _ => None
      end
  | _ => None
  end.

(** An identify payload that names a token and no shard. *)
Definition identify_without_shard : value :=
  VDict {[ "op" := VInt 2; "d" := VDict {[ "token" := VStr "abc" ]} ]}.

(** An identify payload that names both. *)
Definition identify_with_shard : value :=
  VDict {[ "op" := VInt 2;
           "d" := VDict {[ "token" := VStr "abc";
                           "shard" := VList [VInt 0; VInt 1] ]} ]}.

End GatewaySchemas.

(** ** The dispatcher (app.dispatcher) *)

Module Dispatcher.
Import Py.

(** The dispatcher object behind [app.dispatcher] (litecord/dispatcher.py
    and the back ends that litecord/pubsub re-exports) and the gateway
    session that holds the sequence counter are not among the files.  The
    registry, the counter and the publish family of this module follow the
    design document's data model (section 3) and public contract
    (section 4.1). *)

(** Modelled from the spec: the dispatcher's topic kinds, a closed
    enumerated tag. *)
Inductive topic_kind : Type :=
| Guild | Channel | User | Friend | LazyGuildRange.

Global Instance topic_kind_eq_dec : EqDecision topic_kind.
Proof. solve_decision. Defined.

Global Instance topic_kind_countable : Countable topic_kind.
Proof.
  refine (inj_countable'
    (fun k => match k with
              | Guild => 0 | Channel => 1 | User => 2
              | Friend => 3 | LazyGuildRange => 4
              end)%nat
    (fun n => match n with
              | 0 => Guild | 1 => Channel | 2 => User
              | 3 => Friend | _ => LazyGuildRange
              end)%nat _).
  by intros [].
Defined.

(** The strings under which the callers name a topic kind. *)
Definition kind_of_string (s : string) : option topic_kind :=
  if String.eqb s "guild" then Some Guild
  else if String.eqb s "channel" then Some Channel
  else if String.eqb s "user" then Some User
  else if String.eqb s "friend" then Some Friend
  else if String.eqb s "lazy_guild" then Some LazyGuildRange
  else None.

(** Modelled from the spec: the dispatcher's event, as a session holds
    it: name, payload and the session's sequence number at delivery. *)
Record event : Type := Event {
  event_name : string;
  event_payload : value;
  event_seq : N
}.

(** Modelled from the spec: the gateway session; owning user, sequence
    counter (starts at 0, incremented once per delivered event) and the
    events enqueued for it, oldest first. *)
Record session : Type := Session {
  session_user : Z;
  session_seq : N;
  session_queue : list event
}.

(** Modelled from the spec: the dispatcher's two registries, sessions by
    session id and subscriber sets by topic. *)
Record engine : Type := Engine {
  sessions : gmap nat session;
  topics : gmap (topic_kind * Z) (gset nat)
}.

Definition empty_engine : engine := Engine ∅ ∅.

Definition subscribers (kind : topic_kind) (id : Z) (eng : engine) : gset nat :=
  default ∅ (topics eng !! (kind, id)).

(** Modelled from the spec: the dispatcher's subscribe; idempotent, adds
    the session to the topic's subscriber set. *)
Definition subscribe (kind : topic_kind) (id : Z) (sid : nat) (eng : engine)
    : engine :=
  Engine (sessions eng)
         (<[(kind, id) := {[sid]} ∪ subscribers kind id eng]> (topics eng)).

(** Modelled from the spec: the dispatcher's unsubscribe; the topic entry
    is dropped when its subscriber set becomes empty. *)
Definition unsubscribe (kind : topic_kind) (id : Z) (sid : nat) (eng : engine)
    : engine :=
  let rest := subscribers kind id eng ∖ {[sid]} in
  Engine (sessions eng)
         (if decide (rest = ∅) then delete (kind, id) (topics eng)
          else <[(kind, id) := rest]> (topics eng)).

(** Modelled from the spec: the gateway's identify; a session with a
    fresh id enters the registry with its counter at 0. *)
Definition connect (sid : nat) (user : Z) (eng : engine) : engine :=
  match sessions eng !! sid with
  | Some _ => eng
  | None => Engine (<[sid := Session user 0 []]> (sessions eng)) (topics eng)
  end.

(** Modelled from the spec: the gateway's terminal disconnect; the
    session is destroyed and all its subscriptions are released. *)
Definition disconnect (sid : nat) (eng : engine) : engine :=
  Engine (delete sid (sessions eng))
         (filter (fun kv => kv.2 ≠ ∅) ((fun subs => subs ∖ {[sid]}) <$> topics eng)).

(** Modelled from the spec: the dispatcher's stamping of an event with
    the session's sequence number, which then moves on by one. *)
Definition stamp (name : string) (payload : value) (s : session) : session :=
  Session (session_user s) (session_seq s + 1)
          (session_queue s ++ [Event name payload (session_seq s)]).

(** Modelled from the spec: the dispatcher's enqueue on one session; a
    session that is gone receives nothing. *)
Definition enqueue (name : string) (payload : value) (sid : nat)
    (eng : engine) : engine :=
  match sessions eng !! sid with
  | Some s => Engine (<[sid := stamp name payload s]> (sessions eng)) (topics eng)
  | None => eng
  end.

Definition deliver_all (name : string) (payload : value) (sids : list nat)
    (eng : engine) : engine :=
  fold_left (fun e sid => enqueue name payload sid e) sids eng.

(** Modelled from the spec: the dispatcher's publish; a snapshot of the
    subscriber set, one enqueue per subscriber. *)
Definition publish (kind : topic_kind) (id : Z) (name : string)
    (payload : value) (eng : engine) : engine :=
  deliver_all name payload (elements (subscribers kind id eng)) eng.

(** Modelled from the spec: the dispatcher's publishMany; the
    subscribers of all the given ids, each of them once. *)
Definition publishMany (kind : topic_kind) (ids : list Z) (name : string)
    (payload : value) (eng : engine) : engine :=
  deliver_all name payload
    (elements (⋃ ((fun id => subscribers kind id eng) <$> ids))) eng.

(** The sequential publishes that publishMany is compared with. *)
Definition publish_each (kind : topic_kind) (ids : list Z) (name : string)
    (payload : value) (eng : engine) : engine :=
  fold_left (fun e id => publish kind id name payload e) ids eng.

Definition user_sessions (user : Z) (eng : engine) : gset nat :=
  dom (filter (fun kv => session_user kv.2 = user) (sessions eng)).

(** Modelled from the spec: the dispatcher's publishToUser; every
    session owned by the user, whatever its topics. *)
Definition publishToUser (user : Z) (name : string) (payload : value)
    (eng : engine) : engine :=
  deliver_all name payload (elements (user_sessions user eng)) eng.

(** The operations of the engine, for talking about sequences of them. *)
Inductive op : Type :=
| OpConnect (sid : nat) (user : Z)
| OpDisconnect (sid : nat)
| OpSubscribe (kind : topic_kind) (id : Z) (sid : nat)
| OpUnsubscribe (kind : topic_kind) (id : Z) (sid : nat)
| OpPublish (kind : topic_kind) (id : Z) (name : string) (payload : value)
| OpPublishMany (kind : topic_kind) (ids : list Z) (name : string) (payload : value)
| OpPublishToUser (user : Z) (name : string) (payload : value).

Definition step (eng : engine) (o : op) : engine :=
  match o with
  | OpConnect sid user => connect sid user eng
  | OpDisconnect sid => disconnect sid eng
  | OpSubscribe kind id sid => subscribe kind id sid eng
  | OpUnsubscribe kind id sid => unsubscribe kind id sid eng
  | OpPublish kind id name payload => publish kind id name payload eng
  | OpPublishMany kind ids name payload => publishMany kind ids name payload eng
  | OpPublishToUser user name payload => publishToUser user name payload eng
  end.

Definition run (ops : list op) (eng : engine) : engine :=
  fold_left step ops eng.

(** Modelled from the spec: the dispatcher's publishOrdered(steps); the
    steps, strictly in the given order. *)
Definition publishOrdered (steps : list op) (eng : engine) : engine :=
  run steps eng.

Definition stamps (s : session) : list N := event_seq <$> session_queue s.

(** The events of a session are numbered 0, 1, 2, ... in queue order and
    the counter is the number of events delivered so far. *)
Definition gapless (s : session) : Prop :=
  session_seq s = N.of_nat (length (session_queue s))
  /\ forall i e, session_queue s !! i = Some e -> event_seq e = N.of_nat i.

Definition all_gapless (eng : engine) : Prop :=
  forall sid s, sessions eng !! sid = Some s -> gapless s.

(** How many of the given topic ids the session is subscribed to. *)
Definition hits (kind : topic_kind) (ids : list Z) (sid : nat) (eng : engine)
    : nat :=
  length (filter (fun id => sid ∈ subscribers kind id eng) ids).

(** *** The methods that litecord/blueprints/users.py calls *)

Inductive method : Type :=
| dispatch_user | dispatch_many | dispatch_user_guild | dispatch_guild | unsub.

(** A call site: the method and its positional arguments as written. *)
Record call : Type := Call { call_method : method; call_args : list value }.

Definition ids_of (v : value) : list Z :=
  match v with
  | VList l => omap (fun x => match x with VInt z => Some z | _ => None end) l
  | _ => []
  end.

(** Modelled from the spec: the dispatcher's
    [dispatch_user_guild(user_id, guild_id, ...)], which reaches the
    leaving user's own sessions on the guild: the user's sessions that are
    subscribed to it. *)
Definition publishToUserGuild (user guild : Z) (name : string)
    (payload : value) (eng : engine) : engine :=
  deliver_all name payload
    (elements (user_sessions user eng ∩ subscribers Guild guild eng)) eng.

(** Modelled from the spec: the dispatcher's [unsub(kind, id, user_id)];
    users.py names the subscriber by the user id, so every session of that
    user leaves the topic. *)
Definition unsub_user (kind : topic_kind) (id user : Z) (eng : engine) : engine :=
  fold_left (fun e sid => unsubscribe kind id sid e)
            (elements (user_sessions user eng)) eng.

(** Modelled from the spec: the dispatcher's method signatures, by their
    number of positional parameters:
    publishToUser(userId, eventName, payload),
    publishMany(topicKind, topicIds, eventName, payload),
    dispatch_user_guild(userId, guildId, eventName, payload),
    publish on the guild kind (topicId, eventName, payload),
    unsubscribe(topicKind, topicId, subscriber). *)
Definition arity (m : method) : nat :=
  match m with
  | dispatch_user => 3
  | dispatch_many => 4
  | dispatch_user_guild => 4
  | dispatch_guild => 3
  | unsub => 3
  end.

(** Modelled from the spec: the dispatcher's methods as users.py calls
    them.  A Python call binds the positional arguments to the parameters
    and raises TypeError when their number is wrong; ids of the wrong type
    match no session and no topic. *)
Definition dispatcher_call (c : call) (eng : engine) : result engine :=
  if negb (length (call_args c) =? arity (call_method c))%nat then
    Raise (TypeError "missing required positional argument")
  else
    match call_method c, call_args c with
    | dispatch_user, [VInt user; VStr name; payload] =>
        Return (publishToUser user name payload eng)
    | dispatch_many, [VStr kind; ids; VStr name; payload] =>
        match kind_of_string kind with
        | Some k => Return (publishMany k (ids_of ids) name payload eng)
        | None => Raise (KeyError kind)
        end
    | dispatch_user_guild, [VInt user; VInt guild; VStr name; payload] =>
        Return (publishToUserGuild user guild name payload eng)
    | dispatch_guild, [VInt guild; VStr name; payload] =>
        Return (publish Guild guild name payload eng)
    | unsub, [VStr kind; VInt id; VInt user] =>
        match kind_of_string kind with
        | Some k => Return (unsub_user k id user eng)
        | None => Raise (KeyError kind)
        end
    | _, _ => Return eng
    end.

End Dispatcher.

(** ** litecord/blueprints/users.py *)

Module Users.
Import Py Dispatcher.

(** The SQL statements that the handlers hand to [app.db.execute], with
    their positional parameters. *)
Inductive statement : Type :=
| UpdateDiscriminator (discriminator : value) (user_id : Z)
    (* UPDATE users SET discriminator = $1 WHERE users.id = $2 *)
| UpdateUsername (username : value) (user_id : Z)
    (* UPDATE users SET username = $1 WHERE users.id = $2 *)
| UpdateUsernameDiscriminator (username discriminator : value) (user_id : Z)
    (* UPDATE users SET username = $1, discriminator = $2 WHERE users.id = $3 *)
| UpdateEmail (email : value) (user_id : Z)
    (* UPDATE users SET email = $1 WHERE id = $2 *)
| UpdatePasswordHash (password_hash : value) (user_id : Z)
    (* UPDATE users SET password_hash = $1 WHERE id = $2 *)
| DeleteMember (user_id guild_id : Z)
    (* DELETE FROM members WHERE user_id = $1 AND guild_id = $2 *)
| UpdateUserSettings (key : string) (v : value).
    (* UPDATE user_settings SET {key}=$1 *)

(** What the handlers use of the application object, besides the
    dispatcher: the database connection, the storage accessors, the
    helpers imported from other blueprints, and the random module.
    [execute] answers [None] when the statement violates a uniqueness
    constraint (asyncpg's UniqueViolationError). *)
Class App (db : Type) : Type := {
  execute : statement -> db -> option db;
  (* SELECT user_id FROM users
     WHERE preferred_username = $1 AND discriminator = $2   (fetchrow) *)
  fetchrow_existing_uid : value -> value -> db -> value;
  (* SELECT discriminator FROM users WHERE users.id = $1    (fetchval) *)
  fetchval_discriminator : Z -> db -> value;
  (* SELECT password_hash FROM users WHERE id = $1          (fetchval) *)
  fetchval_password_hash : Z -> db -> value;
  storage_get_user : Z -> bool -> db -> value;
  storage_get_user_guilds : Z -> db -> list Z;
  storage_get_friend_ids : Z -> db -> list Z;
  storage_get_user_settings : Z -> db -> value;
  check_username_usage : value -> db -> result unit;
  check_password : value -> value -> bool;
  hash_data : value -> value;
  guild_check : Z -> Z -> db -> result unit;
  random_source : nat -> N
}.

Section Handlers.
Context {db : Type} `{App db}.

(** Everything a handler can read or change. [w_draws] counts the
    numbers drawn from the random module, [w_calls] lists the
    dispatcher calls made so far, oldest first. *)
Record world : Type := World {
  w_db : db;
  w_draws : nat;
  w_dispatcher : engine;
  w_calls : list call
}.

(** A handler step: runs in a world, returns or raises, and leaves a
    world behind (nothing is rolled back when it raises). *)
Definition M (A : Type) : Type := world -> result A * world.

Definition ret {A} (a : A) : M A := fun w => (Return a, w).

Definition raise {A} (e : exn) : M A := fun w => (Raise e, w).

Definition bind {A B} (m : M A) (k : A -> M B) : M B :=
  fun w =>
    match m w with
    | (Return a, w') => k a w'
    | (Raise e, w') => (Raise e, w')
    end.

Definition lift {A} (r : result A) : M A := fun w => (r, w).

(** [try: body  except <handled>: handler] *)
Definition try_ {A} (body : M A) (handled : exn -> bool)
    (handler : exn -> M A) : M A :=
  fun w =>
    match body w with
    | (Return a, w') => (Return a, w')
    | (Raise e, w') => if handled e then handler e w' else (Raise e, w')
    end.

Definition is_UniqueViolationError (e : exn) : bool :=
  match e with UniqueViolationError => true | _ => false end.

(** [await app.db.execute(...)] *)
Definition db_execute (st : statement) : M unit :=
  fun w =>
    match execute st (w_db w) with
    | Some d => (Return tt, World d (w_draws w) (w_dispatcher w) (w_calls w))
    | None => (Raise UniqueViolationError, w)
    end.

(** [await app.db.fetchval(...)], [await app.storage.get_...(...)] *)
Definition db_read {A} (q : db -> A) : M A :=
  fun w => (Return (q (w_db w)), w).

Definition db_check (q : db -> result unit) : M unit :=
  fun w => (q (w_db w), w).

(** [random.randint(lo, hi)] *)
Definition randint (lo hi : Z) : M Z :=
  fun w =>
    (Return (lo + Z.of_N (random_source (w_draws w)) mod (hi - lo + 1)),
     World (w_db w) (S (w_draws w)) (w_dispatcher w) (w_calls w)).

(** [await app.dispatcher.method(args...)] *)
Definition dispatcher (m : method) (args : list value) : M unit :=
  fun w =>
    let c := Call m args in
    match dispatcher_call c (w_dispatcher w) with
    | Return eng => (Return tt, World (w_db w) (w_draws w) eng (w_calls w ++ [c]))
    | Raise e => (Raise e, World (w_db w) (w_draws w) (w_dispatcher w) (w_calls w ++ [c]))
    end.

Global Instance M_ret : MRet M := @ret.
Global Instance M_bind : MBind M := fun A B k m => bind m k.

(** [for x in xs: body(x)] *)
Fixpoint for_each {A} (xs : list A) (body : A -> M unit) : M unit :=
  match xs with
  | [] => ret tt
  | x :: xs' => body x;; for_each xs' body
  end.

(** In what follows a handler takes as arguments what [token_check()]
    and the request validation ([validate(..., USER_UPDATE)] and the
    like, from litecord/schemas.py) have returned: the authenticated
    user id and the validated body. *)

(** [for _ in range(10): ...] with [attempts] rounds left; falling out
    of the loop is the bare [return]. *)
Fixpoint _try_reroll_loop (attempts : nat) (user_id : Z)
    (preferred_username : value) : M value :=
  match attempts with
  | O => ret VNone
  | S attempts' =>
      r ← randint 1 9999;
      let reroll := VStr (str (VInt r)) in
      if truthy preferred_username then
        existing_uid ← db_read (fetchrow_existing_uid preferred_username reroll);
        if negb (truthy existing_uid) then ret reroll
        else _try_reroll_loop attempts' user_id preferred_username
      else
        updated ← try_ (A := bool)
                    (db_execute (UpdateDiscriminator reroll user_id);; ret true)
                    is_UniqueViolationError
                    (fun _ => ret false);
        if updated : bool then ret reroll
        else _try_reroll_loop attempts' user_id preferred_username
  end.

Definition _try_reroll (user_id : Z) (preferred_username : value) : M value :=
  _try_reroll_loop 10 user_id preferred_username.

Definition unable_to_change_username : exn :=
  BadRequest "Unable to change username"
    [("username", "Too many people are with this username.")].

Definition _try_username_patch (user_id : Z) (new_username : value)
    : M value :=
  db_check (check_username_usage new_username);;
  try_
    (db_execute (UpdateUsername new_username user_id);;
     db_read (fetchval_discriminator user_id))
    is_UniqueViolationError
    (fun _ =>
       discrim ← _try_reroll user_id new_username;
       if negb (truthy discrim) then raise unable_to_change_username
       else
         db_execute (UpdateUsernameDiscriminator new_username discrim user_id);;
         ret discrim).

Definition _try_discrim_patch (user_id : Z) (new_discrim : value) : M unit :=
  try_
    (db_execute (UpdateDiscriminator new_discrim user_id))
    is_UniqueViolationError
    (fun _ =>
       raise (BadRequest "Invalid discriminator"
                [("discriminator", "Someone already used this discriminator.")])).

(** [field in j and j[field] and j[field] != user[field]] *)
Definition to_update (j : gmap string value) (user : value)
    (field : string) : result bool :=
  match j !! field with
  | None => Return false
  | Some x =>
      if truthy x then
        y ← getitem user field; Return (bool_decide (x ≠ y))
      else Return false
  end.

Definition _check_pass (j : gmap string value) (user : value) : M unit :=
  password ← lift (getitem (VDict j) "password");
  if negb (truthy password) then
    raise (BadRequest "password required" [("password", "password required")])
  else
    phash ← lift (getitem user "password_hash");
    if negb (check_password phash password) then
      raise (BadRequest "password incorrect"
               [("password", "password does not match.")])
    else ret tt.

Definition patch_me (user_id : Z) (j : gmap string value) : M value :=
  user ← db_read (storage_get_user user_id true);
  phash ← db_read (fetchval_password_hash user_id);
  user ← lift (setitem user "password_hash" phash);
  upd ← lift (to_update j user "username");
  user ← (if upd : bool then
            new_username ← lift (getitem (VDict j) "username");
            discrim ← _try_username_patch user_id new_username;
            user ← lift (setitem user "username" new_username);
            lift (setitem user "discriminator" discrim)
          else ret user);
  upd ← lift (to_update j user "discriminator");
  user ← (if upd : bool then
            d ← lift (getitem (VDict j) "discriminator");
            let new_discrim := VStr (str d) in
            _try_discrim_patch user_id new_discrim;;
            lift (setitem user "discriminator" new_discrim)
          else ret user);
  upd ← lift (to_update j user "email");
  user ← (if upd : bool then
            _check_pass j user;;
            email ← lift (getitem (VDict j) "email");
            db_execute (UpdateEmail email user_id);;
            lift (setitem user "email" email)
          else ret user);
  (* if 'avatar' in j: pass *)
  match j !! "new_password" with
  | Some new_password =>
      if truthy new_password then
        _check_pass j user;;
        db_execute (UpdatePasswordHash (hash_data new_password) user_id)
      else ret tt
  | None => ret tt
  end;;
  user ← lift (pop user "password_hash");
  dispatcher dispatch_user [VInt user_id; VStr "USER_UPDATE"; user];;
  public_user ← db_read (storage_get_user user_id false);
  guild_ids ← db_read (storage_get_user_guilds user_id);
  friend_ids ← db_read (storage_get_friend_ids user_id);
  dispatcher dispatch_many
    [VStr "guild"; VList (VInt <$> guild_ids); VStr "USER_UPDATE"; public_user];;
  dispatcher dispatch_many
    [VStr "friend"; VList (VInt <$> friend_ids); VStr "USER_UPDATE"; public_user];;
  ret user.

Definition guild_delete_payload (guild_id : Z) : value :=
  VDict {[ "id" := VStr (str (VInt guild_id)); "unavailable" := VBool false ]}.

Definition member_remove_payload (guild_id : Z) (user : value) : value :=
  VDict {[ "guild_id" := VStr (str (VInt guild_id)); "user" := user ]}.

(** The handler answers [('', 204)]. *)
Definition leave_guild (user_id guild_id : Z) : M (string * Z) :=
  db_check (guild_check user_id guild_id);;
  db_execute (DeleteMember user_id guild_id);;
  dispatcher dispatch_user_guild
    [VInt user_id; VInt guild_id; VStr "GUILD_DELETE";
     guild_delete_payload guild_id];;
  dispatcher unsub [VStr "guild"; VInt guild_id; VInt user_id];;
  user ← db_read (storage_get_user user_id false);
  dispatcher dispatch_guild
    [VStr "GUILD_MEMBER_REMOVE"; member_remove_payload guild_id user];;
  ret ("", 204).

Definition patch_current_settings (user_id : Z) (j : gmap string value)
    : M value :=
  for_each (map_to_list j)
    (fun kv => db_execute (UpdateUserSettings kv.1 kv.2));;
  settings ← db_read (storage_get_user_settings user_id);
  dispatcher dispatch_user [VInt user_id; VStr "USER_SETTINGS_UPDATE"; settings];;
  ret settings.

(** A step is quiet when it leaves the dispatcher and the list of
    dispatcher calls as they were. *)
Definition quiet {A} (m : M A) : Prop :=
  forall w, w_calls (m w).2 = w_calls w
            /\ w_dispatcher (m w).2 = w_dispatcher w.

End Handlers.

Arguments world db : clear implicits.
Arguments M db A : clear implicits.

End Users.

(** ** A small in-memory database to run the handlers on *)

Module TableDB.
Import Py Dispatcher Users.

Record user_row : Type := UserRow {
  row_id : Z;
  row_username : string;
  row_discriminator : string;
  row_email : string;
  row_password_hash : string
}.

Record tables : Type := Tables {
  users : list user_row;
  members : list (Z * Z);                    (* user_id, guild_id *)
  friends : list (Z * Z);                    (* user_id, friend id *)
  user_settings : list (Z * gmap string value)
}.

Definition find_user (uid : Z) (t : tables) : option user_row :=
  find (fun r => row_id r =? uid) (users t).

(** The uniqueness constraint on (username, discriminator): some other
    row already has the pair. *)
Definition taken (uid : Z) (username discriminator : string) (t : tables)
    : bool :=
  existsb (fun r => negb (row_id r =? uid)
                    && String.eqb (row_username r) username
                    && String.eqb (row_discriminator r) discriminator)
          (users t).

Definition update_user (uid : Z) (f : user_row -> user_row) (t : tables)
    : tables :=
  Tables (map (fun r => if row_id r =? uid then f r else r) (users t))
         (members t) (friends t) (user_settings t).

Definition table_execute (st : statement) (t : tables) : option tables :=
  match st with
  | UpdateDiscriminator d uid =>
      match find_user uid t with
      | None => Some t
      | Some r =>
          if taken uid (row_username r) (str d) t then None
          else Some (update_user uid
            (fun r => UserRow (row_id r) (row_username r) (str d)
                              (row_email r) (row_password_hash r)) t)
      end
  | UpdateUsername n uid =>
      match find_user uid t with
      | None => Some t
      | Some r =>
          if taken uid (str n) (row_discriminator r) t then None
          else Some (update_user uid
            (fun r => UserRow (row_id r) (str n) (row_discriminator r)
                              (row_email r) (row_password_hash r)) t)
      end
  | UpdateUsernameDiscriminator n d uid =>
      match find_user uid t with
      | None => Some t
      | Some r =>
          if taken uid (str n) (str d) t then None
          else Some (update_user uid
            (fun r => UserRow (row_id r) (str n) (str d)
                              (row_email r) (row_password_hash r)) t)
      end
  | UpdateEmail e uid =>
      Some (update_user uid
        (fun r => UserRow (row_id r) (row_username r) (row_discriminator r)
                          (str e) (row_password_hash r)) t)
  | UpdatePasswordHash h uid =>
      Some (update_user uid
        (fun r => UserRow (row_id r) (row_username r) (row_discriminator r)
                          (row_email r) (str h)) t)
  | DeleteMember uid gid =>
      Some (Tables (users t)
              (filter (fun m => negb ((m.1 =? uid) && (m.2 =? gid))) (members t))
              (friends t) (user_settings t))
  | UpdateUserSettings key v =>
      Some (Tables (users t) (members t) (friends t)
              (map (fun row => (row.1, <[key := v]> row.2)) (user_settings t)))
  end.

Definition table_existing_uid (username discriminator : value) (t : tables)
    : value :=
  match find (fun r => String.eqb (row_username r) (str username)
                       && String.eqb (row_discriminator r) (str discriminator))
             (users t) with
  | Some r => VDict {[ "user_id" := VInt (row_id r) ]}
  | None => VNone
  end.

Definition table_get_user (uid : Z) (secure : bool) (t : tables) : value :=
  match find_user uid t with
  | Some r =>
      let public : gmap string value :=
        {[ "id" := VStr (str (VInt uid));
           "username" := VStr (row_username r);
           "discriminator" := VStr (row_discriminator r) ]} in
      VDict (if secure then <["email" := VStr (row_email r)]> public else public)
  | None => VNone
  end.

Definition table_hash (v : value) : value := VStr ("sha:" ++ str v).

Global Instance table_app : App tables := {|
  execute := table_execute;
  fetchrow_existing_uid := table_existing_uid;
  fetchval_discriminator uid t :=
    match find_user uid t with
    | Some r => VStr (row_discriminator r)
    | None => VNone
    end;
  fetchval_password_hash uid t :=
    match find_user uid t with
    | Some r => VStr (row_password_hash r)
    | None => VNone
    end;
  storage_get_user := table_get_user;
  storage_get_user_guilds uid t :=
    snd <$> filter (fun m => bool_decide (m.1 = uid)) (members t);
  storage_get_friend_ids uid t :=
    snd <$> filter (fun m => bool_decide (m.1 = uid)) (friends t);
  storage_get_user_settings uid t :=
    match find (fun row => row.1 =? uid) (user_settings t) with
    | Some row => VDict row.2
    | None => VNone
    end;
  check_username_usage _ _ := Return tt;
  check_password phash password := bool_decide (phash = table_hash password);
  hash_data := table_hash;
  guild_check uid gid t :=
    if existsb (fun m => (m.1 =? uid) && (m.2 =? gid)) (members t)
    then Return tt else Raise GuildNotFound;
  random_source n := (4241 + 7 * N.of_nat n)%N
|}.

(** Two users with the same name; user 1 is in guild 10 together with
    user 2, and each has one live session subscribed to it. *)
Definition alice : user_row := UserRow 1 "alice" "0001" "alice@example.org" "sha:pw".
Definition bob : user_row := UserRow 2 "bob" "0001" "bob@example.org" "sha:pw2".

Definition tables0 : tables :=
  Tables [alice; bob] [(1, 10); (2, 10)] [(1, 2); (2, 1)]
         [(1, {[ "theme" := VStr "dark" ]}); (2, {[ "theme" := VStr "light" ]})].

Definition engine0 : engine :=
  subscribe Friend 1 21
    (subscribe Guild 10 21
      (subscribe Guild 10 11
        (connect 21 2 (connect 11 1 empty_engine)))).

Definition world0 : world tables := World tables0 0 engine0 [].

(** The same, with every discriminator that the next ten draws produce
    already taken by somebody called bob. *)
Definition tables_crowded : tables :=
  Tables (users tables0
          ++ map (fun n => UserRow (100 + Z.of_nat n) "bob"
                             (str (VInt (4242 + 7 * Z.of_nat n))) "" "")
                 (seq 0 10))
         (members tables0) (friends tables0) (user_settings tables0).

Definition world_crowded : world tables := World tables_crowded 0 engine0 [].

(** The queue of a session, by event name and sequence number. *)
Definition inbox (sid : nat) (eng : engine) : list (string * N) :=
  match sessions eng !! sid with
  | Some s => (fun e => (event_name e, event_seq e)) <$> session_queue s
  | None => []
  end.

End TableDB.

(** ** The in-memory database, with the column preferred_username *)

Module TableDBPreferred.
Import Py Dispatcher Users TableDB.

(** The tables with a column preferred_username that is NULL in every
    row: the SELECT of _try_reroll, which tests that column and not
    username, finds nobody, while the statements and the uniqueness
    constraint on (username, discriminator) are those of [table_app]. *)
Definition preferred_app : App tables := {|
  execute := table_execute;
  fetchrow_existing_uid _ _ _ := VNone;
  fetchval_discriminator := @fetchval_discriminator tables table_app;
  fetchval_password_hash := @fetchval_password_hash tables table_app;
  storage_get_user := table_get_user;
  storage_get_user_guilds := @storage_get_user_guilds tables table_app;
  storage_get_friend_ids := @storage_get_friend_ids tables table_app;
  storage_get_user_settings := @storage_get_user_settings tables table_app;
  check_username_usage := @check_username_usage tables table_app;
  check_password := @check_password tables table_app;
  hash_data := table_hash;
  guild_check := @guild_check tables table_app;
  random_source := @random_source tables table_app
|}.

End TableDBPreferred.

(** ** More of Python's str *)

Module PyStr.
Import Py.

(** [sep.join(pieces)] *)
Fixpoint join (sep : string) (pieces : list string) : string :=
  match pieces with
  | [] => ""
  | [piece] => piece
  | piece :: rest => piece ++ sep ++ join sep rest
  end.

(** [c in s] for a character. *)
Definition has_char (c : ascii) (s : string) : bool :=
  existsb (Ascii.eqb c) (list_ascii_of_string s).

End PyStr.

(** ** The shape of a data URI *)

Module DataUri.
Import Py PyStr.

(** A string of the form scheme:mime;type,data, each part free of the
    separators that would split it. *)
Definition uri_parts (uri scheme mime data_type data : string) : Prop :=
  uri = scheme ++ ":" ++ mime ++ ";" ++ data_type ++ "," ++ data
  /\ has_char ":" scheme = false /\ has_char ";" scheme = false
  /\ has_char ":" mime = false /\ has_char ";" mime = false
  /\ has_char "," data_type = false /\ has_char ";" data_type = false
  /\ has_char "," data = false /\ has_char ";" data = false.

End DataUri.

(** ** Base64, the encoding side *)

Module Base64.
Import Py Images.

(** Output bytes still owed to the characters read in the current quad,
    in quarters of a byte. *)
Definition quad_credit (quad_pos : nat) : nat :=
  match quad_pos with
  | O => 0
  | S O => 3
  | S (S O) => 2
  | _ => 1
  end%nat.

Definition N_of_byte (b : Byte.byte) : N := N_of_ascii (ascii_of_byte b).

(** The character of the standard alphabet at a position below 64. *)
Definition b64_char (n : N) : ascii :=
  if (n <? 26)%N then ascii_of_N (n + 65)
  else if (n <? 52)%N then ascii_of_N (n + 71)
  else if (n <? 62)%N then ascii_of_N (n - 4)
  else if (n =? 62)%N then "+"%char
  else "/"%char.

(** The four positions that three bytes are spread over. *)
Definition sextet1 (x : N) : N := N.shiftr x 2.
Definition sextet2 (x y : N) : N := N.lor (N.shiftl (N.land x 3) 4) (N.shiftr y 4).
Definition sextet3 (y z : N) : N := N.lor (N.shiftl (N.land y 15) 2) (N.shiftr z 6).
Definition sextet4 (z : N) : N := N.land z 63.

(** Standard base64 with padding (RFC 4648), what [base64.b64encode] and
    a browser's data URI writer produce. *)
Fixpoint b64encode (data : bytes) : string :=
  match data with
  | [] => ""
  | [x] =>
      let x := N_of_byte x in
      String (b64_char (sextet1 x)) (String (b64_char (sextet2 x 0)) "==")
  | [x; y] =>
      let x := N_of_byte x in
      let y := N_of_byte y in
      String (b64_char (sextet1 x))
        (String (b64_char (sextet2 x y))
           (String (b64_char (sextet3 y 0)) "="))
  | x :: y :: z :: rest =>
      let x := N_of_byte x in
      let y := N_of_byte y in
      let z := N_of_byte z in
      String (b64_char (sextet1 x))
        (String (b64_char (sextet2 x y))
           (String (b64_char (sextet3 y z))
              (String (b64_char (sextet4 z)) (b64encode rest))))
  end.

(** The characters that the decoder does not skip. *)
Definition significant (c : ascii) : bool :=
  Ascii.eqb c "="%char || bool_decide (is_Some (b64_index c)).

(** The string without the characters that the decoder skips. *)
Fixpoint strip (s : string) : string :=
  match s with
  | EmptyString => EmptyString
  | String c rest => if significant c then String c (strip rest) else strip rest
  end.

(** A character that is plain ASCII and is neither ';' nor ','. *)
Definition plain (c : ascii) : bool :=
  (N_of_ascii c <? 128)%N && negb (Ascii.eqb ";" c) && negb (Ascii.eqb "," c).

(** The numbers below 256, for checks by enumeration. *)
Definition octets : list N := map N.of_nat (seq 0 256).
Definition sextets : list N := map N.of_nat (seq 0 64).

End Base64.

(** ** The reroll, said without the loop *)

Module Reroll.
Import Py Dispatcher Users.

Section Candidates.
Context {db : Type} `{App db}.

(** The discriminator that the draw number [i] of the random source
    gives: [str(random.randint(1, 9999))]. *)
Definition candidate (i : nat) : value :=
  VStr (str (VInt (1 + Z.of_N (random_source i) mod (9999 - 1 + 1)))).

(** Whether the database takes a candidate, and the database afterwards:
    with a preferred username the candidate must not be found by the
    SELECT (and nothing is written); without one the UPDATE must go
    through. *)
Definition accepts (user_id : Z) (preferred_username : value) (d : db)
    (i : nat) : option db :=
  if truthy preferred_username then
    if truthy (fetchrow_existing_uid preferred_username (candidate i) d)
    then None else Some d
  else execute (UpdateDiscriminator (candidate i) user_id) d.

(** The first of the draws [start], [start + 1], ..., [count] of them,
    that is accepted. *)
Fixpoint first_accepted (accept : nat -> option db) (start count : nat)
    : option (nat * db) :=
  match count with
  | O => None
  | S count' =>
      match accept start with
      | Some d => Some (start, d)
      | None => first_accepted accept (S start) count'
      end
  end.

End Candidates.

End Reroll.

(** ** Words for request bodies *)

Module Body.
Import Py.

(** The field is missing from the body or holds a falsy value. *)
Definition falsy_or_absent (o : option value) : bool :=
  match o with
  | Some v => negb (truthy v)
  | None => true
  end.

(** The values whose [str] is modelled exactly: None, booleans, integers
    and strings. *)
Definition is_scalar (v : value) : bool :=
  match v with
  | VNone | VBool _ | VInt _ | VStr _ => true
  | VFloat _ | VList _ | VDict _ => false
  end.

End Body.

(** ** More of the in-memory database *)

Module TableDBMore.
Import Py Dispatcher Users TableDB.

(** What storage.get_user(1, secure=True) answers on [tables0]. *)
Definition alice_user : gmap string value :=
  <["email" := VStr "alice@example.org"]>
    {[ "id" := VStr "1"; "username" := VStr "alice";
       "discriminator" := VStr "0001" ]}.

End TableDBMore.

(** ** litecord/blueprints/users.py: the profile routes *)

Module UsersRead.
Import Py Dispatcher Users.

(** What get_profile and get_mutual_friends read besides storage.get_user:
    their SQL queries, storage.get_relationships, the value of
    RelationshipType.FRIEND and the builtin [int]. *)
Class ProfileQueries (db : Type) : Type := {
  (* SELECT premium_since FROM users WHERE id = $1                (fetchval) *)
  fetchval_premium_since : Z -> db -> value;
  (* SELECT guild_id FROM members WHERE user_id = $1
     INTERSECT SELECT guild_id FROM members WHERE user_id = $2    (fetch),
     the guild_id of each row *)
  fetch_mutual_guilds : Z -> Z -> db -> list Z;
  (* SELECT nickname FROM members WHERE guild_id = $1 AND user_id = $2 *)
  fetchval_nickname : Z -> Z -> db -> value;
  storage_get_relationships : Z -> db -> list value;
  friend_type : value;
  int : value -> result Z
}.

Section Routes.
Context {db : Type} `{App db} `{ProfileQueries db}.

(** A route answers a body and a status; [jsonify(v)] answers 200. *)
Definition response : Type := value * Z.

Definition jsonify (v : value) : response := (v, 200).

Definition mutual_guild_entry (peer_id : Z) (d : db) (guild_id : Z) : value :=
  VDict {[ "id" := VStr (str (VInt guild_id));
           "nick" := fetchval_nickname guild_id peer_id d ]}.

(** [sorted(mutual_guilds)] on integers: ascending order. *)
Definition sorted (l : list Z) : list Z := merge_sort Z.le l.

(** Both routes only read, so they are functions of the database. *)
Definition get_profile (user_id peer_id : Z) (d : db) : response :=
  let peer := storage_get_user peer_id false d in
  if negb (truthy peer) then (VStr "", 404)
  else
    let peer_premium := fetchval_premium_since peer_id d in
    let mutual_guilds := fetch_mutual_guilds user_id peer_id d in
    let mutual_res := mutual_guild_entry peer_id d <$> sorted mutual_guilds in
    jsonify (VDict {[ "user" := peer;
                      "connected_accounts" := VList [];
                      "premium_since" := peer_premium;
                      "mutual_guilds" := VList mutual_res ]}).

(** None, integers and strings: among them [==] is structural equality
    and all of them can be put in a set.  (A boolean or a float can equal
    an integer, and a list or a dictionary cannot be hashed.) *)
Definition simple_key (v : value) : bool :=
  match v with
  | VNone | VInt _ | VStr _ => true
  | VBool _ | VFloat _ | VList _ | VDict _ => false
  end.

(** A relationship whose type and user id, where it has them, are simple
    keys. *)
Definition simple_relationship (rel : value) : bool :=
  match getitem rel "type" with
  | Return type => simple_key type
  | Raise _ => true
  end
  && match getitem rel "user" ≫= (fun user => getitem user "id") with
     | Return id => simple_key id
     | Raise _ => true
     end.

(** A Python set of simple keys, as the list of its distinct elements;
    the order in which a set is iterated is not specified, and nothing
    below depends on it. *)
Definition set_add (x : value) (s : list value) : list value :=
  if bool_decide (x ∈ s) then s else s ++ [x].

Definition set_union (s t : list value) : list value :=
  fold_left (fun acc x => set_add x acc) t s.

(** [{rel['user']['id'] for rel in rels if rel['type'] == _friend}] *)
Fixpoint friend_ids (rels : list value) (acc : list value)
    : result (list value) :=
  match rels with
  | [] => Return acc
  | rel :: rels' =>
      type ← getitem rel "type";
      if bool_decide (type = friend_type) then
        user ← getitem rel "user";
        id ← getitem user "id";
        friend_ids rels' (set_add id acc)
      else friend_ids rels' acc
  end.

(** [for friend_id in mutual_ids: mutual_friends.append(
       await app.storage.get_user(int(friend_id)))] *)
Fixpoint fetch_users (ids : list value) (d : db) : result (list value) :=
  match ids with
  | [] => Return []
  | friend_id :: ids' =>
      n ← int friend_id;
      users ← fetch_users ids' d;
      Return (storage_get_user n false d :: users)
  end.

Definition get_mutual_friends (user_id peer_id : Z) (d : db)
    : result response :=
  let peer := storage_get_user peer_id false d in
  if negb (truthy peer) then Return (VStr "", 204)
  else
    let user_rels := storage_get_relationships user_id d in
    let peer_rels := storage_get_relationships peer_id d in
    user_friends ← friend_ids user_rels [];
    peer_friends ← friend_ids peer_rels [];
    let mutual_ids := set_union user_friends peer_friends in
    mutual_friends ← fetch_users mutual_ids d;
    Return (jsonify (VList mutual_friends)).

(** The id is the user id of some relationship of type FRIEND in the
    list. *)
Definition is_friend_id (id : value) (rels : list value) : Prop :=
  exists rel user,
    rel ∈ rels
    /\ getitem rel "type" = Return friend_type
    /\ getitem rel "user" = Return user
    /\ getitem user "id" = Return id.

End Routes.

End UsersRead.

(** ** litecord/blueprints/users.py: notes *)

Module UsersNotes.
Import Py Dispatcher Users.

(** The two statements of put_note. *)
Inductive note_statement : Type :=
| InsertNote (user_id target_id : Z) (note : value)
    (* INSERT INTO notes (user_id, target_id, note) VALUES ($1, $2, $3) *)
| UpdateNote (user_id target_id : Z) (note : value).
    (* UPDATE notes SET note = $3 WHERE user_id = $1 AND target_id = $2 *)

(** [execute_note] answers [None] when the statement violates a
    uniqueness constraint. *)
Class NotesDB (db : Type) : Type := {
  execute_note : note_statement -> db -> option db
}.

Section Notes.
Context {db : Type} `{App db} `{NotesDB db}.

Definition db_execute_note (st : note_statement) : M db unit :=
  fun w =>
    match execute_note st (w_db w) with
    | Some d => (Return tt, World d (w_draws w) (w_dispatcher w) (w_calls w))
    | None => (Raise UniqueViolationError, w)
    end.

Definition note_update_payload (target_id : Z) (note : value) : value :=
  VDict {[ "id" := VStr (str (VInt target_id)); "note" := note ]}.

(** [j] is the request body as parsed, without validation. *)
Definition put_note (user_id target_id : Z) (j : value) : M db (string * Z) :=
  raw ← lift (getitem j "note");
  let note := VStr (str raw) in
  try_
    (db_execute_note (InsertNote user_id target_id note))
    is_UniqueViolationError
    (fun _ => db_execute_note (UpdateNote user_id target_id note));;
  dispatcher dispatch_user
    [VInt user_id; VStr "USER_NOTE_UPDATE"; note_update_payload target_id note];;
  ret ("", 204).

End Notes.

End UsersNotes.

(** ** The in-memory database, with relationships *)

Module TableDBRead.
Import Py Dispatcher Users UsersRead TableDB.

Definition digit_value (c : ascii) : option Z :=
  let n := Z.of_N (N_of_ascii c) in
  if (48 <=? n) && (n <=? 57) then Some (n - 48) else None.

(** A decimal numeral, digits only. *)
Fixpoint parse_decimal (s : string) (acc : Z) : option Z :=
  match s with
  | EmptyString => Some acc
  | String c rest =>
      match digit_value c with
      | Some v => parse_decimal rest (10 * acc + v)
      | None => None
      end
  end.

Definition table_int (v : value) : result Z :=
  match v with
  | VInt z => Return z
  | VStr (String c rest) =>
      match parse_decimal (String c rest) 0 with
      | Some z => Return z
      | None => Raise (ValueError "invalid literal for int() with base 10")
      end
  | VStr EmptyString => Raise (ValueError "invalid literal for int() with base 10")
  | _ => Raise (TypeError "int() argument must be a string or a number")
  end.

Definition table_relationship (friend : Z) : value :=
  VDict {[ "type" := VInt 1;
           "user" := VDict {[ "id" := VStr (str (VInt friend)) ]} ]}.

Global Instance table_profiles : ProfileQueries tables := {|
  fetchval_premium_since _ _ := VNone;
  fetch_mutual_guilds uid peer t :=
    filter (fun g => bool_decide ((peer, g) ∈ members t))
           (snd <$> filter (fun m => bool_decide (m.1 = uid)) (members t));
  fetchval_nickname _ _ _ := VNone;
  storage_get_relationships uid t :=
    table_relationship <$>
      (snd <$> filter (fun m => bool_decide (m.1 = uid)) (friends t));
  friend_type := VInt 1;
  int := table_int
|}.

Definition carol : user_row := UserRow 3 "carol" "0001" "carol@example.org" "sha:pw3".

(** Alice is friends with bob and carol, bob with alice only; alice and
    bob share the guilds 30 and 10. *)
Definition tables_friends : tables :=
  Tables [alice; bob; carol]
         [(1, 30); (1, 10); (2, 10); (2, 30); (3, 30)]
         [(1, 2); (1, 3); (2, 1)]
         [].

End TableDBRead.

(** ** The in-memory database, with notes *)

Module TableDBNotes.
Import Py Dispatcher Users UsersNotes TableDB.

(** The tables together with the notes table, whose primary key is the
    pair (user_id, target_id). *)
Record noted : Type := Noted {
  noted_tables : tables;
  noted_notes : gmap (Z * Z) value
}.

Global Instance noted_app : App noted := {|
  execute st n :=
    t ← execute st (noted_tables n); Some (Noted t (noted_notes n));
  fetchrow_existing_uid name discrim n :=
    fetchrow_existing_uid name discrim (noted_tables n);
  fetchval_discriminator uid n := fetchval_discriminator uid (noted_tables n);
  fetchval_password_hash uid n := fetchval_password_hash uid (noted_tables n);
  storage_get_user uid secure n := storage_get_user uid secure (noted_tables n);
  storage_get_user_guilds uid n := storage_get_user_guilds uid (noted_tables n);
  storage_get_friend_ids uid n := storage_get_friend_ids uid (noted_tables n);
  storage_get_user_settings uid n :=
    storage_get_user_settings uid (noted_tables n);
  check_username_usage name n := check_username_usage name (noted_tables n);
  check_password := check_password (db := tables);
  hash_data := hash_data (db := tables);
  guild_check uid gid n := guild_check uid gid (noted_tables n);
  random_source := random_source (db := tables)
|}.

Definition noted_execute (st : note_statement) (n : noted) : option noted :=
  match st with
  | InsertNote user_id target_id note =>
      match noted_notes n !! (user_id, target_id) with
      | Some _ => None
      | None =>
          Some (Noted (noted_tables n)
                      (<[(user_id, target_id) := note]> (noted_notes n)))
      end
  | UpdateNote user_id target_id note =>
      Some (Noted (noted_tables n)
                  (match noted_notes n !! (user_id, target_id) with
                   | Some _ => <[(user_id, target_id) := note]> (noted_notes n)
                   | None => noted_notes n
                   end))
  end.

Global Instance noted_notes_db : NotesDB noted := {|
  execute_note := noted_execute
|}.

(** Alice already has a note on bob. *)
Definition world_noted : world noted :=
  World (Noted tables0 {[ (1, 2) := VStr "old" ]}) 0 engine0 [].

End TableDBNotes.

(** ** litecord/embed/sanitizer.py: proxied URLs and filling an embed *)

Module EmbedStore.
Import Py PyStr Sanitizer Images.

(** fill_embed assigns into dictionaries that its caller still holds, so
    here a dictionary is an object in a store and a value refers to it by
    its location. *)
Abbreviation loc := positive.

(** Besides the exceptions of [Py]: AttributeError, for an attribute or a
    method that an object does not have. *)
Inductive raised : Type :=
| Python (e : exn)
| AttributeError (msg : string).

Inductive outcome (A : Type) : Type :=
| Ok (a : A)
| Fail (e : raised).
Arguments Ok {A} a.
Arguments Fail {A} e.

Global Instance outcome_ret : MRet outcome := fun A a => Ok a.
Global Instance outcome_bind : MBind outcome := fun A B k r =>
  match r with
  | Ok a => k a
  | Fail e => Fail e
  end.
Global Instance outcome_fmap : FMap outcome := fun A B f r =>
  match r with
  | Ok a => Ok (f a)
  | Fail e => Fail e
  end.

Definition of_result {A} (r : result A) : outcome A :=
  match r with
  | Return a => Ok a
  | Raise e => Fail (Python e)
  end.

(** What an embed holds.  [embed_url] is the type of the instances of
    EmbedURL.  Lists are never assigned into by this module and are kept
    as values. *)
Inductive hval (embed_url : Type) : Type :=
| HNone
| HBool (b : bool)
| HInt (z : Z)
| HFloat (bits : Z)
| HStr (s : string)
| HUrl (u : embed_url)
| HList (l : list (hval embed_url))
| HRef (l : loc).
Arguments HNone {embed_url}.
Arguments HBool {embed_url} b.
Arguments HInt {embed_url} z.
Arguments HFloat {embed_url} bits.
Arguments HStr {embed_url} s.
Arguments HUrl {embed_url} u.
Arguments HList {embed_url} l.
Arguments HRef {embed_url} l.

Abbreviation object embed_url := (gmap string (hval embed_url)).

Abbreviation heap embed_url := (gmap loc (object embed_url)).

(** A step of a function that works on the store: it returns or raises,
    and what it has assigned so far stays assigned. *)
Definition H (embed_url : Type) (A : Type) : Type :=
  heap embed_url -> outcome A * heap embed_url.

(** What this module uses and does not define: the class EmbedURL of
    litecord/embed/schemas.py (its constructor and its attributes [url]
    and [to_md_path]), the configuration and the HTTP session of the
    application, and the responses of that session. *)
Class MediaProxy (embed_url : Type) : Type := {
  EmbedURL : hval embed_url -> outcome embed_url;
  url : embed_url -> string;
  to_md_path : embed_url -> string;
  app_config : gmap string value;
  session : Type;
  app_session : session;
  response : Type;
  (* session.get(request_url) *)
  session_get : session -> hval embed_url -> outcome response;
  (* resp.status *)
  status : response -> Z;
  (* await resp.json(): the parsed body, a new object *)
  resp_json : response -> H embed_url (hval embed_url);
  (* await resp.read() *)
  resp_read : response -> outcome bytes;
  (* await resp.text() *)
  resp_text : response -> outcome string
}.

Section Store.
Context {embed_url : Type} `{MediaProxy embed_url}.

Local Abbreviation hval := (hval embed_url).
Local Abbreviation object := (object embed_url).
Local Abbreviation heap := (heap embed_url).
Local Abbreviation H := (H embed_url).

Definition type_name (v : hval) : string :=
  match v with
  | HNone => "NoneType"
  | HBool _ => "bool"
  | HInt _ => "int"
  | HFloat _ => "float"
  | HStr _ => "str"
  | HUrl _ => "EmbedURL"
  | HList _ => "list"
  | HRef _ => "dict"
  end.

(** The dictionary at a location.  The functions below are given
    locations that hold one; a location that holds none reads as the empty
    dictionary. *)
Definition deref (h : heap) (l : loc) : object := h !!! l.

(** [v[key]] for a string key. *)
Definition getitem (h : heap) (v : hval) (key : string) : outcome hval :=
  match v with
  | HRef l =>
      match deref h l !! key with
      | Some x => Ok x
      | None => Fail (Python (KeyError key))
      end
  | HList _ =>
      Fail (Python (TypeError "list indices must be integers or slices, not str"))
  | HStr _ => Fail (Python (TypeError "string indices must be integers"))
  | _ => Fail (Python (TypeError ("'" ++ type_name v ++ "' object is not subscriptable")))
  end.

(** Python truthiness; an instance of EmbedURL is true, like every object
    of a class without [__bool__] and [__len__]. *)
Definition truthy (h : heap) (v : hval) : bool :=
  match v with
  | HNone => false
  | HBool b => b
  | HInt z => negb (z =? 0)
  | HFloat bits => negb ((bits =? 0) || (bits =? 2 ^ 63))
  | HStr s => negb (String.eqb s "")
  | HUrl _ => true
  | HList l => match l with [] => false | _ => true end
  | HRef l => negb (bool_decide (dom (deref h l) = ∅))
  end.

Definition ret {A} (a : A) : H A := fun h => (Ok a, h).

Definition bind {A B} (m : H A) (k : A -> H B) : H B :=
  fun h =>
    match m h with
    | (Ok a, h') => k a h'
    | (Fail e, h') => (Fail e, h')
    end.

Global Instance H_ret : MRet H := @ret.
Global Instance H_bind : MBind H := fun A B k m => bind m k.

(** A step that leaves the store alone. *)
Definition lift {A} (r : outcome A) : H A := fun h => (r, h).

(** A step that reads the store. *)
Definition read {A} (f : heap -> outcome A) : H A := fun h => (f h, h).

(** [target[key] = v] *)
Definition setitem (target : hval) (key : string) (v : hval) : H unit :=
  fun h =>
    match target with
    | HRef l => (Ok tt, <[l := <[key := v]> (deref h l)]> h)
    | HList _ =>
        (Fail (Python (TypeError "list indices must be integers or slices, not str")),
         h)
    | _ =>
        (Fail (Python (TypeError
           ("'" ++ type_name target ++ "' object does not support item assignment"))),
         h)
    end.

(** [return {**embed, **{"type": "rich"}}]: a new dictionary with the
    entries of [embed], which it shares with [embed]. *)
Definition sanitize_embed (embed : loc) : H loc :=
  fun h =>
    let new := fresh (dom h) in
    (Ok new, <[new := <["type" := HStr "rich"]> (deref h embed)]> h).

Definition caught (e : raised) : bool :=
  match e with
  | Python e => is_KeyError e || is_TypeError e || is_ValueError e
  | AttributeError _ => false
  end.

(** path_exists, on the store:
    [try: return path_exists(embed[current], components[1:])
     except (KeyError, TypeError, ValueError): return False].
    fill_embed asks for paths of two keys, three calls deep; the limit of
    the interpreter's stack is left out of the store. *)
Fixpoint path_exists_list (h : heap) (embed : hval) (components : list string)
    : outcome bool :=
  match components with
  | [] => Ok true
  | current :: rest =>
      match sub ← getitem h embed current; path_exists_list h sub rest with
      | Ok b => Ok b
      | Fail e => if caught e then Ok false else Fail e
      end
  end.

Definition path_exists (h : heap) (embed : hval) (c : components_in)
    : outcome bool :=
  path_exists_list h embed (components_of c).

(** [False], or a session. *)
Inductive session_value : Type :=
| Session (s : session)
| SFalse.

(** [_mk_cfg_sess(config, session)] *)
Definition _mk_cfg_sess (config : option (gmap string value))
    (sess : option session_value) : gmap string value * session_value :=
  (match config with None => app_config | Some c => c end,
   match sess with None => Session app_session | Some s => s end).

(** [_md_base(config)]: the protocol and the base url, or None. *)
Definition _md_base (config : gmap string value)
    : outcome (option (string * value)) :=
  md_base_url ← of_result (Py.getitem (VDict config) "MEDIA_PROXY");
  match md_base_url with
  | VNone => Ok None
  | _ =>
      is_ssl ← of_result (Py.getitem (VDict config) "IS_SSL");
      let proto := if Py.truthy is_ssl then "https" else "http" in
      Ok (Some (proto, md_base_url))
  end.

(** [url.to_md_path] *)
Definition attr_to_md_path (u : hval) : outcome string :=
  match u with
  | HUrl e => Ok (to_md_path e)
  | _ => Fail (AttributeError
           ("'" ++ type_name u ++ "' object has no attribute 'to_md_path'"))
  end.

(** [make_md_req_url(config, scope, url)]; the base url is formatted
    with [str]. *)
Definition make_md_req_url (config : gmap string value) (scope : string)
    (u : hval) : outcome hval :=
  base ← _md_base config;
  match base with
  | None => Ok (match u with HUrl e => HStr (url e) | _ => u end)
  | Some (proto, base_url) =>
      path ← attr_to_md_path u;
      Ok (HStr (proto ++ "://" ++ str base_url ++ "/" ++ scope ++ "/" ++ path))
  end.

(** [proxify(url, *, config=None)] *)
Definition proxify (u : hval) (config : option (gmap string value))
    : outcome hval :=
  let '(config, _sess) := _mk_cfg_sess config (Some SFalse) in
  u ← match u with
      | HStr _ => HUrl <$> EmbedURL u
      | _ => Ok u
      end;
  make_md_req_url config "img" u.

(** [session.get(request_url)] *)
Definition get (sess : session_value) (request_url : hval) : outcome response :=
  match sess with
  | Session s => session_get s request_url
  | SFalse => Fail (AttributeError "'bool' object has no attribute 'get'")
  end.

(** [_md_client_req(config, session, scope, url, *, ret_resp=False)]:
    the parsed body or None, or the response with its bytes. *)
Definition _md_client_req (config : option (gmap string value))
    (sess : option session_value) (scope : string) (u : hval)
    (ret_resp : bool) : H (hval + response * bytes) :=
  let '(config, sess) := _mk_cfg_sess config sess in
  u ← lift (match u with
            | HUrl _ => Ok u
            | _ => HUrl <$> EmbedURL u
            end);
  request_url ← lift (make_md_req_url config scope u);
  resp ← lift (get sess request_url);
  if status resp =? 200 then
    if ret_resp then
      data ← lift (resp_read resp);
      ret (inr (resp, data))
    else
      body ← resp_json resp;
      ret (inl body)
  else
    body ← lift (resp_text resp);
    ret (inl HNone).

(** [fetch_metadata(url, *, config=None, session=None)] *)
Definition fetch_metadata (u : hval) (config : option (gmap string value))
    (sess : option session_value) : H (hval + response * bytes) :=
  _md_client_req config sess "meta" u false.

(** [fetch_raw_img(url, *, config=None, session=None)] *)
Definition fetch_raw_img (u : hval) (config : option (gmap string value))
    (sess : option session_value) : H (hval + response * bytes) :=
  tup ← _md_client_req config sess "img" u true;
  t ← read (fun h => Ok (match tup with inl v => truthy h v | inr _ => true end));
  if negb t then ret (inl HNone) else ret tup.

(** [fetch_embed(url, *, config=None, session=None)] *)
Definition fetch_embed (u : hval) (config : option (gmap string value))
    (sess : option session_value) : H (hval + response * bytes) :=
  _md_client_req config sess "embed" u false.

(** Truthiness and indexing of what _md_client_req has returned; the
    pair of a response and its bytes is a tuple. *)
Definition answer_truthy (h : heap) (meta : hval + response * bytes) : bool :=
  match meta with
  | inl v => truthy h v
  | inr _ => true
  end.

Definition answer_getitem (h : heap) (meta : hval + response * bytes)
    (key : string) : outcome hval :=
  match meta with
  | inl v => getitem h v key
  | inr _ =>
      Fail (Python (TypeError "tuple indices must be integers or slices, not str"))
  end.

(** [fill_embed(embed)].  In an assignment the right-hand side is
    evaluated before the target. *)
Definition fill_embed (embed : option loc) : H (option loc) :=
  match embed with
  | None => ret None
  | Some embed =>
      new ← sanitize_embed embed;
      let embed := HRef new in
      has_footer_icon ← read (fun h => path_exists h embed (CompStr "footer.icon_url"));
      (if has_footer_icon : bool then
         icon_url ← read (fun h => footer ← getitem h embed "footer";
                                   getitem h footer "icon_url");
         proxied ← lift (proxify icon_url None);
         footer ← read (fun h => getitem h embed "footer");
         setitem footer "proxy_icon_url" proxied
       else ret tt);;
      has_author_icon ← read (fun h => path_exists h embed (CompStr "author.icon_url"));
      (if has_author_icon : bool then
         icon_url ← read (fun h => author ← getitem h embed "author";
                                   getitem h author "icon_url");
         proxied ← lift (proxify icon_url None);
         author ← read (fun h => getitem h embed "author");
         setitem author "proxy_icon_url" proxied
       else ret tt);;
      has_image_url ← read (fun h => path_exists h embed (CompStr "image.url"));
      (if has_image_url : bool then
         image_url ← read (fun h => image ← getitem h embed "image";
                                    getitem h image "url");
         meta ← fetch_metadata image_url None None;
         proxied ← lift (proxify image_url None);
         image ← read (fun h => getitem h embed "image");
         setitem image "proxy_url" proxied;;
         has_size ← read (fun h =>
                       if answer_truthy h meta then
                         is_image ← answer_getitem h meta "image";
                         Ok (truthy h is_image)
                       else Ok false);
         if has_size : bool then
           width ← read (fun h => answer_getitem h meta "width");
           image ← read (fun h => getitem h embed "image");
           setitem image "width" width;;
           height ← read (fun h => answer_getitem h meta "height");
           image ← read (fun h => getitem h embed "image");
           setitem image "height" height
         else ret tt
       else ret tt);;
      ret (Some new)
  end.

(** The first-level dictionaries that fill_embed assigns into, and the
    keys that it assigns. *)
Definition fields : list string := ["footer"; "author"; "image"].

Definition written : list string :=
  ["proxy_icon_url"; "proxy_url"; "width"; "height"].

(** [l] is the dictionary under footer, author or image of the embed. *)
Definition first_level (h : heap) (embed l : loc) : Prop :=
  exists field, field ∈ fields /\ deref h embed !! field = Some (HRef l).

(** [h'] has every object of [h], unchanged. *)
Definition extends (h h' : heap) : Prop :=
  forall l, l ∈ dom h -> h' !! l = h !! l.

(** Parsing a body makes new objects and leaves the existing ones as
    they are. *)
Definition json_allocates : Prop :=
  forall (resp : response) (h h' : heap) (r : outcome hval),
    resp_json resp h = (r, h') -> extends h h'.

End Store.

End EmbedStore.

(** ** Reasoning about steps on the store *)

Module EmbedStoreLogic.
Import Py Sanitizer EmbedStore.

Section Logic.
Context {embed_url : Type} `{MediaProxy embed_url}.

Local Abbreviation hval := (hval embed_url).
Local Abbreviation heap := (heap embed_url).
Local Abbreviation H := (H embed_url).

(** A step started in a store with [P] ends in a store with [Q] when it
    returns and in a store with [E] when it raises. *)
Definition triple {A} (P : heap -> Prop) (m : H A)
    (Q : A -> heap -> Prop) (E : heap -> Prop) : Prop :=
  forall h, P h ->
    match m h with
    | (Ok a, h') => Q a h'
    | (Fail _, h') => E h'
    end.

(** A step that keeps [P] whatever its outcome. *)
Definition keeps {A} (P : heap -> Prop) (m : H A) : Prop :=
  triple P m (fun _ => P) P.

(** A property of the store that allocation cannot undo. *)
Definition stable (P : heap -> Prop) : Prop :=
  forall h h', P h -> extends h h' -> P h'.

(** What holds of the store while fill_embed runs on [embed] in [h0]:
    the new dictionary is there, the objects of [h0] are there, those
    that are not first-level dictionaries of the embed are unchanged, and
    the new dictionary has the sanitized entries except at the assigned
    keys. *)
Definition footprint (h0 : heap) (embed : loc) (h : heap) : Prop :=
  let new := fresh (dom h0) in
  new ∈ dom h
  /\ (forall l, l ∈ dom h0 -> l ∈ dom h)
  /\ (forall l, l ∈ dom h0 -> ~ first_level h0 embed l -> h !! l = h0 !! l)
  /\ (forall key, key ∉ written ->
        deref h new !! key = <["type" := HStr "rich"]> (deref h0 embed) !! key).

(** The footer [f] of [embed] has its icon url and the proxied one. *)
Definition shown (embed f : loc) (icon p : hval) (h : heap) : Prop :=
  embed ∈ dom h /\ f ∈ dom h
  /\ deref h embed !! "footer" = Some (HRef f)
  /\ deref h f !! "icon_url" = Some icon
  /\ deref h f !! "proxy_icon_url" = Some p.

(** The same before the assignment, with the footer of the new
    dictionary. *)
Definition footer_known (embed f : loc) (icon : hval) (new : loc) (h : heap)
    : Prop :=
  embed ∈ dom h /\ f ∈ dom h
  /\ deref h embed !! "footer" = Some (HRef f)
  /\ deref h f !! "icon_url" = Some icon
  /\ deref h new !! "footer" = Some (HRef f).

(** The assignment of a proxied icon url, as fill_embed makes it for the
    footer and for the author. *)
Definition assign_proxy_icon (new : loc) (field : string) : H unit :=
  icon_url ← read (fun h => sub ← getitem h (HRef new) field;
                            getitem h sub "icon_url");
  proxied ← lift (proxify icon_url None);
  sub ← read (fun h => getitem h (HRef new) field);
  setitem sub "proxy_icon_url" proxied.

End Logic.

End EmbedStoreLogic.

(** ** A small media proxy and two stores *)

Module EmbedStoreSample.
Import Py EmbedStore.

(** Web addresses only. *)
Definition sample_EmbedURL (v : hval string) : outcome string :=
  match v with
  | HStr s =>
      if String.prefix "http" s then Ok s
      else Fail (Python (ValueError "Invalid URL scheme"))
  | _ => Fail (Python (TypeError "expected a string"))
  end.

(** A proxy at media.example over TLS, whose every answer is 200 with
    the metadata of a 64 by 48 image. *)
Global Instance sample_proxy : MediaProxy string := {|
  EmbedURL := sample_EmbedURL;
  url u := u;
  to_md_path u := u;
  app_config := {[ "MEDIA_PROXY" := VStr "media.example"; "IS_SSL" := VBool true ]};
  session := unit;
  app_session := tt;
  response := Z;
  session_get _ _ := Ok 200;
  status resp := resp;
  resp_json _ h :=
    (Ok (HRef (fresh (dom h))),
     <[fresh (dom h) := {[ "image" := HBool true; "width" := HInt 64;
                           "height" := HInt 48 ]}]> h);
  resp_read _ := Ok [];
  resp_text _ := Ok ""
|}.

(** An embed with a footer, an author whose icon is not a web address,
    and no image. *)
Definition store0 : heap string :=
  {[ 1%positive := {[ "type" := HStr "video"; "footer" := HRef 2%positive;
                      "author" := HRef 3%positive ]};
     2%positive := {[ "icon_url" := HStr "http://a/b.png" ]};
     3%positive := {[ "icon_url" := HStr "ftp://a/c.png" ]} ]}.

(** An embed with an image. *)
Definition store1 : heap string :=
  {[ 1%positive := {[ "type" := HStr "video"; "image" := HRef 2%positive ]};
     2%positive := {[ "url" := HStr "http://a/b.png" ]} ]}.

End EmbedStoreSample.

(** ** litecord/blueprints/users.py: direct messages *)

Module UsersDM.
Import Py Dispatcher Users UsersRead.

(** The three INSERT statements of create_dm and try_dm_state. *)
Inductive dm_statement : Type :=
| InsertChannel (dm_id : Z) (channel_type : value)
    (* INSERT INTO channels (id, channel_type) VALUES ($1, $2) *)
| InsertDMChannel (dm_id user_id : Z) (recipient_id : value)
    (* INSERT INTO dm_channels (id, party1_id, party2_id) VALUES ($1, $2, $3) *)
| InsertDMState (user_id dm_id : Z).
    (* INSERT INTO dm_channel_state (user_id, dm_id) VALUES ($1, $2) *)

(** What create_dm uses besides its statements; [execute_dm] answers
    [None] when the statement violates a uniqueness constraint. *)
Class DMQueries (db : Type) : Type := {
  execute_dm : dm_statement -> db -> option db;
  (* ChannelType.DM.value *)
  channel_type_dm : value;
  (* SELECT id FROM dm_channels
     WHERE (party1_id = $1 OR party2_id = $1) AND
           (party2_id = $2 OR party2_id = $2)                    (fetchval) *)
  fetchval_dm_id : Z -> value -> db -> value;
  storage_get_dm : value -> Z -> db -> result value
}.

Section DMs.
Context {db : Type} `{App db} `{DMQueries db}.

Definition db_execute_dm (st : dm_statement) : M db unit :=
  fun w =>
    match execute_dm st (w_db w) with
    | Some d => (Return tt, World d (w_draws w) (w_dispatcher w) (w_calls w))
    | None => (Raise UniqueViolationError, w)
    end.

(** A storage call that may raise. *)
Definition db_call {A} (q : db -> result A) : M db A :=
  fun w => (q (w_db w), w).

Definition try_dm_state (user_id dm_id : Z) : M db unit :=
  try_ (db_execute_dm (InsertDMState user_id dm_id))
       is_UniqueViolationError
       (fun _ => ret tt).

(** [snowflake] is what [get_snowflake()] has returned. *)
Definition create_dm (snowflake user_id : Z) (recipient_id : value)
    : M db response :=
  dm_id ← try_
            (db_execute_dm (InsertChannel snowflake channel_type_dm);;
             db_execute_dm (InsertDMChannel snowflake user_id recipient_id);;
             try_dm_state user_id snowflake;;
             ret (VInt snowflake))
            is_UniqueViolationError
            (fun _ => db_read (fetchval_dm_id user_id recipient_id));
  dm ← db_call (storage_get_dm dm_id user_id);
  ret (jsonify dm).

End DMs.
End UsersDM.

(** * Properties *)

(** ** litecord/embed/sanitizer.py *)

Module SanitizerFacts.
Import Py Sanitizer.

Lemma getitem_raises (v : value) (key : string) (e : exn) :
  getitem v key = Raise e -> is_KeyError e || is_TypeError e = true.
Proof.
  destruct v; simpl; try (intros [= <-]; reflexivity).
  destruct (d !! key); [discriminate | intros [= <-]; reflexivity].
Qed.

Lemma index_gone (components : list string) :
  fold_left index_step components None = None.
Proof. induction components; simpl; auto. Qed.

Lemma index_path_cons (v : value) (key : string) (rest : list string) :
  index_path v (key :: rest) =
  match getitem v key with
  | Return x => index_path x rest
  | Raise _ => None
  end.
Proof.
  unfold index_path; simpl.
  destruct (getitem v key); [reflexivity | apply index_gone].
Qed.

(** The recursion raises nothing but RecursionError. *)
Lemma path_exists_list_raises (components : list string) :
  forall (frames : nat) (embed : value) (e : exn),
    path_exists_list frames embed components = Raise e -> e = RecursionError.
Proof.
  induction components as [|key rest IH]; intros [|frames] embed e; simpl;
    try congruence.
  destruct (getitem embed key) as [x|e0] eqn:Hget; simpl.
  - destruct (path_exists_list frames x rest) as [b|e1] eqn:Hrun; simpl;
      [discriminate|].
    apply IH in Hrun as ->. simpl. congruence.
  - apply getitem_raises in Hget.
    destruct (is_KeyError e0), (is_TypeError e0); simpl in *; discriminate.
Qed.

(** With a frame for every component and one more, the recursion answers
    True exactly when every lookup along the way succeeds. *)
Lemma path_exists_list_spec (components : list string) :
  forall (frames : nat) (embed : value),
    (length components < frames)%nat ->
    path_exists_list frames embed components
    = Return (bool_decide (is_Some (index_path embed components))).
Proof.
  induction components as [|key rest IH]; intros [|frames] embed Hlen;
    simpl in Hlen; try lia.
  - reflexivity.
  - rewrite index_path_cons. simpl.
    destruct (getitem embed key) as [x|e] eqn:Hget; simpl.
    + rewrite IH by lia. reflexivity.
    + apply getitem_raises in Hget.
      destruct (is_KeyError e), (is_TypeError e); simpl in *;
        try discriminate; reflexivity.
Qed.

(** A path that can be followed to the depth of the frames raises. *)
Lemma path_exists_list_deep (components : list string) :
  forall (frames : nat) (embed : value),
    is_Some (index_path embed components) ->
    (frames <= length components)%nat ->
    path_exists_list frames embed components = Raise RecursionError.
Proof.
  induction components as [|key rest IH]; intros [|frames] embed Hsome Hlen;
    simpl in Hlen; try lia; try reflexivity.
  rewrite index_path_cons in Hsome. simpl.
  destruct (getitem embed key) as [x|e]; [|by destruct Hsome].
  simpl. rewrite IH by (done || lia). reflexivity.
Qed.

Lemma path_exists_list_true (frames : nat) (v : value)
    (components : list string) :
  path_exists_list frames v components = Return true
  <-> is_Some (index_path v components) /\ (length components < frames)%nat.
Proof.
  split.
  - revert frames v.
    induction components as [|key rest IH]; intros [|frames] v; simpl;
      try discriminate.
    + intros _. split; [by eexists | lia].
    + rewrite index_path_cons.
      destruct (getitem v key) as [x|e] eqn:Hget; simpl.
      * destruct (path_exists_list frames x rest) as [b|e1] eqn:Hrun; simpl.
        -- intros [= ->]. apply IH in Hrun as [Hsome Hlen]. split; [done | lia].
        -- apply path_exists_list_raises in Hrun as ->. discriminate.
      * apply getitem_raises in Hget.
        destruct (is_KeyError e), (is_TypeError e); simpl in *; discriminate.
  - intros [Hsome Hlen]. rewrite path_exists_list_spec by done.
    f_equal. by apply bool_decide_eq_true.
Qed.

(** C8. sanitize_embed returns a dictionary whose "type" is "rich", that
    agrees with the input on every other key, and applying it twice is the
    same as applying it once. *)
Theorem sanitize_embed_frame :
  forall embed : gmap string value,
    sanitize_embed embed !! "type" = Some (VStr "rich")
    /\ (forall key, key <> "type" -> sanitize_embed embed !! key = embed !! key)
    /\ dom (sanitize_embed embed) = {["type"]} ∪ dom embed
    /\ sanitize_embed (sanitize_embed embed) = sanitize_embed embed.
Proof.
  intros embed. unfold sanitize_embed. repeat split.
  - apply lookup_insert_eq.
  - intros key Hne. by apply lookup_insert_ne.
  - apply dom_insert_L.
  - apply insert_insert_eq.
Qed.

(** C10. As long as the interpreter allows one nested call per component
    and one more, path_exists returns, and its answer is True exactly when
    indexing the value by each component in turn succeeds, for a list of
    keys and for a dotted string alike; for the empty list it is True.  A
    path that can be followed to the depth of the allowed calls makes it
    raise RecursionError, the only exception it raises. *)
Theorem path_exists_iff_indexable :
  forall (frames : nat) (embed : value),
    (forall keys : list string,
        (length keys < frames)%nat ->
        exists b : bool,
          path_exists frames embed (CompList keys) = Return b
          /\ (b = true <-> is_Some (index_path embed keys)))
    /\ (forall s : string,
          (length (split "." s) < frames)%nat ->
          exists b : bool,
            path_exists frames embed (CompStr s) = Return b
            /\ (b = true <-> is_Some (index_path embed (split "." s))))
    /\ ((0 < frames)%nat -> path_exists frames embed (CompList []) = Return true)
    /\ (forall keys : list string,
          is_Some (index_path embed keys) -> (frames <= length keys)%nat ->
          path_exists frames embed (CompList keys) = Raise RecursionError)
    /\ (forall (c : components_in) (e : exn),
          path_exists frames embed c = Raise e -> e = RecursionError).
Proof.
  intros frames embed. unfold path_exists. simpl. repeat split.
  - intros keys Hlen. rewrite path_exists_list_spec by done.
    eexists; split; [reflexivity|]. apply bool_decide_eq_true.
  - intros s Hlen. rewrite path_exists_list_spec by done.
    eexists; split; [reflexivity|]. apply bool_decide_eq_true.
  - intros Hpos. by destruct frames; [lia|].
  - intros keys. apply path_exists_list_deep.
  - intros c e. apply path_exists_list_raises.
Qed.

(** A chain of a thousand dictionaries can be indexed by a thousand keys,
    and path_exists raises on it even with a thousand calls allowed. *)
Lemma path_exists_deep_path_raises :
  index_path (deep_embed 1000) (replicate 1000 "a") = Some VNone
  /\ path_exists 1000 (deep_embed 1000) (CompList (replicate 1000 "a"))
     = Raise RecursionError.
Proof. split; vm_compute; reflexivity. Qed.

End SanitizerFacts.

(** ** litecord/images.py *)

Module ImagesFacts.
Import Py Images.

Lemma a2b_base64_loop_raises (data : string) :
  forall quad_pos leftchar pads out e,
    a2b_base64_loop data quad_pos leftchar pads out = Raise e ->
    is_ValueError e = true.
Proof.
  induction data as [|c rest IH]; intros quad_pos leftchar pads out e;
    cbn [a2b_base64_loop].
  - destruct quad_pos as [|[|?]]; intros [= <-]; reflexivity.
  - destruct (Ascii.eqb c "="%char).
    + destruct (2 <=? quad_pos)%nat; [|apply IH].
      destruct (4 <=? quad_pos + S pads)%nat; [discriminate | apply IH].
    + destruct (b64_index c); [|apply IH].
      destruct quad_pos as [|[|[|?]]]; apply IH.
Qed.

(** b64decode fails with binascii.Error or ValueError only. *)
Lemma b64decode_raises (data : string) (e : exn) :
  b64decode data = Raise e -> is_ValueError e = true.
Proof.
  unfold b64decode. destruct (is_ascii_str data).
  - apply a2b_base64_loop_raises.
  - intros [= <-]; reflexivity.
Qed.

Lemma unpack2_returns {A} (pieces : list A) (a b : A) :
  unpack2 pieces = Return (a, b) <-> pieces = [a; b].
Proof.
  destruct pieces as [|x [|y [|z ?]]]; simpl; split; intros Heq;
    try discriminate; congruence.
Qed.

Lemma unpack2_raises {A} (pieces : list A) (e : exn) :
  unpack2 pieces = Raise e -> is_ValueError e = true.
Proof.
  destruct pieces as [|x [|y [|z ?]]]; simpl; intros [= <-]; reflexivity.
Qed.


Example parse_data_uri_png :
  parse_data_uri "data:image/png;base64,aGk="
  = Return ("image/png", [Byte.x68; Byte.x69]).
Proof. reflexivity. Qed.

Example parse_data_uri_bad_padding :
  parse_data_uri "data:image/png;base64,aGk"
  = Raise (ImageError "data URI invalid syntax").
Proof. reflexivity. Qed.

Example parse_data_uri_unknown_header :
  parse_data_uri "data:image/png;hex,6869"
  = Raise (ImageError "Unknown data header").
Proof. reflexivity. Qed.

Example parse_data_uri_two_semicolons :
  parse_data_uri "data:image/png;charset=utf-8;base64,aGk="
  = Raise (ImageError "data URI invalid syntax").
Proof. reflexivity. Qed.

End ImagesFacts.

(** ** litecord/gateway/schemas.py *)

Module GatewaySchemasFacts.
Import Py GatewaySchemas.

Ltac split_andb :=
  repeat match goal with
         | H : _ && _ = true |- _ => apply andb_true_iff in H as [? ?]
         end.

(** validate either hands the document back or raises DecodeError. *)
Lemma validate_outcome (allow_unknown : bool) (reqjson : value) (schema : Schema) :
  validate allow_unknown reqjson schema = Return reqjson
  \/ exists msg, validate allow_unknown reqjson schema = Raise (DecodeError msg).
Proof.
  unfold validate, validator_validate.
  destruct reqjson; simpl; eauto.
  destruct (validate_mapping allow_unknown schema d); simpl; eauto.
Qed.

Lemma validate_accepts (allow_unknown : bool) (reqjson out : value) (schema : Schema) :
  validate allow_unknown reqjson schema = Return out ->
  exists d, reqjson = VDict d /\ validate_mapping allow_unknown schema d = true.
Proof.
  unfold validate, validator_validate.
  destruct reqjson; simpl; try discriminate.
  destruct (validate_mapping allow_unknown schema d) eqn:Hv; simpl;
    [eauto | discriminate].
Qed.

(** C7, as the code has it.  validate raises DecodeError on every
    document the schema rejects and returns the document otherwise; an
    accepted identify payload is a mapping with a numeric "op", and when
    it has a data field "d", that field is a mapping with a string
    "token"; "shard" is optional and must be a list when present. *)
Theorem identify_accepted_payload :
  forall (allow_unknown : bool) (reqjson : value),
    (validate allow_unknown reqjson IDENTIFY_SCHEMA = Return reqjson
     \/ exists msg,
          validate allow_unknown reqjson IDENTIFY_SCHEMA = Raise (DecodeError msg))
    /\ (validate allow_unknown reqjson IDENTIFY_SCHEMA = Return reqjson ->
        exists d, reqjson = VDict d
          /\ (exists op, d !! "op" = Some op /\ has_type TNumber op = true)
          /\ (forall data, d !! "d" = Some data ->
                (exists token, payload_field reqjson "token" = Some (VStr token))
                /\ (forall shard, payload_field reqjson "shard" = Some shard ->
                      exists l, shard = VList l))).
Proof.
  intros allow_unknown reqjson. split; [apply validate_outcome|].
  intros Hacc. apply validate_accepts in Hacc as (d & -> & Hv).
  exists d. split; [reflexivity|].
  unfold validate_mapping in Hv. cbn [validate_rules IDENTIFY_SCHEMA BASE app] in Hv.
  cbn [is_None negb andb rules_required] in Hv.
  split_andb. split.
  - destruct (d !! "op") as [op|]; [|done].
    exists op. split; [reflexivity|]. split_andb. assumption.
  - intros data Hd. unfold payload_field. rewrite Hd in *. split_andb.
    destruct data; try done. split_andb. split.
    + destruct (d0 !! "token") as [token|]; [|done].
      split_andb. destruct token; try done. eauto.
    + intros shard Hsh. rewrite Hsh in *. split_andb.
      destruct shard; try done. eauto.
Qed.

(** An accepted payload, and the token that the theorem finds in it. *)
Lemma identify_accepted_payload_witness :
  validate false identify_with_shard IDENTIFY_SCHEMA = Return identify_with_shard
  /\ (exists token, payload_field identify_with_shard "token" = Some (VStr token))
  /\ (forall shard, payload_field identify_with_shard "shard" = Some shard ->
        exists l, shard = VList l).
Proof.
  split; [vm_compute; reflexivity|].
  destruct (identify_accepted_payload false identify_with_shard) as [_ Hacc].
  destruct Hacc as (d & Hd & _ & Hdata); [vm_compute; reflexivity|].
  injection Hd as <-.
  apply (Hdata (VDict {[ "token" := VStr "abc";
                         "shard" := VList [VInt 0; VInt 1] ]})).
  vm_compute; reflexivity.
Defined.

(** C7 as stated fails: a payload with a token and no shard is accepted. *)
Lemma identify_without_shard_accepted :
  validate false identify_without_shard IDENTIFY_SCHEMA
    = Return identify_without_shard
  /\ payload_field identify_without_shard "token" = Some (VStr "abc")
  /\ payload_field identify_without_shard "shard" = None.
Proof. vm_compute. auto. Qed.

End GatewaySchemasFacts.

(** ** The dispatcher *)

Module DispatcherFacts.
Import Py Dispatcher.

(** *** Delivery touches sessions only *)

Lemma enqueue_topics name payload sid eng :
  topics (enqueue name payload sid eng) = topics eng.
Proof. unfold enqueue. by destruct (sessions eng !! sid). Qed.

Lemma deliver_all_cons name payload sid sids eng :
  deliver_all name payload (sid :: sids) eng
  = deliver_all name payload sids (enqueue name payload sid eng).
Proof. reflexivity. Qed.

Lemma publish_each_cons kind id ids name payload eng :
  publish_each kind (id :: ids) name payload eng
  = publish_each kind ids name payload (publish kind id name payload eng).
Proof. reflexivity. Qed.

Lemma deliver_all_topics name payload sids :
  forall eng, topics (deliver_all name payload sids eng) = topics eng.
Proof.
  induction sids as [|sid sids IH]; intros eng; [done|].
  rewrite deliver_all_cons, IH. apply enqueue_topics.
Qed.

Lemma publish_subscribers kind id name payload kind' id' eng :
  subscribers kind' id' (publish kind id name payload eng)
  = subscribers kind' id' eng.
Proof. unfold subscribers, publish. by rewrite deliver_all_topics. Qed.

(** *** What one delivery round does to one session *)

Lemma enqueue_lookup name payload sid sid' eng :
  sessions (enqueue name payload sid eng) !! sid'
  = if decide (sid = sid') then stamp name payload <$> sessions eng !! sid'
    else sessions eng !! sid'.
Proof.
  unfold enqueue. case_decide as Heq.
  - subst sid'. destruct (sessions eng !! sid) eqn:Hs; simpl.
    + by rewrite lookup_insert_eq.
    + by rewrite Hs.
  - destruct (sessions eng !! sid); simpl; [by rewrite lookup_insert_ne|done].
Qed.

Lemma deliver_all_skip name payload sids sid :
  sid ∉ sids ->
  forall eng,
    sessions (deliver_all name payload sids eng) !! sid = sessions eng !! sid.
Proof.
  induction sids as [|x sids IH]; intros Hnot eng; [done|].
  apply not_elem_of_cons in Hnot as [Hne Hnot].
  rewrite deliver_all_cons, IH by done.
  rewrite enqueue_lookup. by case_decide; [subst|].
Qed.

(** Each target listed once gets exactly one more event. *)
Lemma deliver_all_once name payload sids sid :
  NoDup sids ->
  forall eng,
    sessions (deliver_all name payload sids eng) !! sid
    = if decide (sid ∈ sids) then stamp name payload <$> sessions eng !! sid
      else sessions eng !! sid.
Proof.
  induction 1 as [|x sids Hx Hnd IH]; intros eng.
  - case_decide as Hin; [by apply elem_of_nil in Hin | done].
  - rewrite deliver_all_cons. destruct (decide (sid = x)) as [->|Hne].
    + rewrite decide_True by left.
      rewrite (deliver_all_skip name payload sids x Hx).
      rewrite enqueue_lookup. by rewrite decide_True.
    + rewrite IH.
      rewrite enqueue_lookup. rewrite (decide_False (P := x = sid)) by done.
      destruct (decide (sid ∈ sids)) as [Hin|Hnin].
      * rewrite decide_True by (by right). done.
      * rewrite decide_False; [done|].
        intros [?|?]%elem_of_cons; done.
Qed.

Lemma publish_lookup kind id name payload sid eng :
  sessions (publish kind id name payload eng) !! sid
  = if decide (sid ∈ subscribers kind id eng)
    then stamp name payload <$> sessions eng !! sid
    else sessions eng !! sid.
Proof.
  unfold publish. rewrite deliver_all_once by apply NoDup_elements.
  destruct (decide (sid ∈ subscribers kind id eng)) as [Hin|Hnin].
  - rewrite decide_True; [done|]. by apply elem_of_elements.
  - rewrite decide_False; [done|]. by rewrite elem_of_elements.
Qed.

Lemma hits_cons kind id ids sid eng :
  hits kind (id :: ids) sid eng
  = ((if decide (sid ∈ subscribers kind id eng) then 1 else 0)
     + hits kind ids sid eng)%nat.
Proof.
  unfold hits. rewrite filter_cons.
  destruct (decide (sid ∈ subscribers kind id eng)); done.
Qed.

Lemma hits_same_topics kind ids sid eng eng' :
  topics eng' = topics eng -> hits kind ids sid eng' = hits kind ids sid eng.
Proof.
  intros Htop. induction ids as [|id ids IH]; [done|].
  rewrite !hits_cons, IH. unfold subscribers. by rewrite Htop.
Qed.

Lemma hits_positive kind ids sid eng :
  sid ∈ ⋃ ((fun id => subscribers kind id eng) <$> ids)
  <-> hits kind ids sid eng <> 0%nat.
Proof.
  induction ids as [|id ids IH].
  - simpl. split; [set_solver | done].
  - rewrite hits_cons, fmap_cons, union_list_cons, elem_of_union, IH.
    destruct (decide (sid ∈ subscribers kind id eng)) as [Hin|Hnin].
    + split; [lia | by left].
    + split; [intros [?|?]; [done | tauto] | intros; right; tauto].
Qed.

(** Sequential publishes give the session one event per id it is
    subscribed to. *)
Lemma publish_each_lookup kind name payload sid ids :
  forall eng s,
    sessions eng !! sid = Some s ->
    sessions (publish_each kind ids name payload eng) !! sid
    = Some (Nat.iter (hits kind ids sid eng) (stamp name payload) s).
Proof.
  induction ids as [|id ids IH]; intros eng s Hs; [done|].
  rewrite publish_each_cons, hits_cons.
  destruct (decide (sid ∈ subscribers kind id eng)) as [Hin|Hnin].
  - rewrite (IH _ (stamp name payload s)).
    + rewrite (hits_same_topics kind ids sid eng)
        by apply deliver_all_topics.
      by rewrite <- Nat.iter_succ_r.
    + rewrite publish_lookup, decide_True by done. by rewrite Hs.
  - rewrite (IH _ s).
    + by rewrite (hits_same_topics kind ids sid eng)
        by apply deliver_all_topics.
    + rewrite publish_lookup, decide_False by done. done.
Qed.

(** C3. A session subscribed to [hits] of the given ids gets [hits]
    copies of the event from sequential publishes, and from publishMany
    exactly one copy when [hits] is at least one and none otherwise. *)
Theorem publishMany_delivers_once :
  forall (kind : topic_kind) (ids : list Z) (name : string) (payload : value)
         (eng : engine) (sid : nat) (s : session),
    sessions eng !! sid = Some s ->
    sessions (publish_each kind ids name payload eng) !! sid
      = Some (Nat.iter (hits kind ids sid eng) (stamp name payload) s)
    /\ sessions (publishMany kind ids name payload eng) !! sid
      = Some (if decide (hits kind ids sid eng = 0%nat) then s
              else stamp name payload s).
Proof.
  intros kind ids name payload eng sid s Hs. split.
  - by apply publish_each_lookup.
  - unfold publishMany. rewrite deliver_all_once by apply NoDup_elements.
    rewrite Hs. pose proof (hits_positive kind ids sid eng) as Hpos.
    rewrite <- elem_of_elements in Hpos.
    destruct (decide (hits kind ids sid eng = 0%nat)) as [Hz|Hnz].
    + rewrite decide_False; [done|]. rewrite Hpos. lia.
    + rewrite decide_True; [done|]. by apply Hpos.
Qed.

(** One session on two guild topics: two copies from the sequential
    publishes, one from publishMany. *)
Lemma publishMany_delivers_once_witness :
  let eng := subscribe Guild 20 1 (subscribe Guild 10 1 (connect 1 7 empty_engine)) in
  let s := Session 7 0 [] in
  sessions eng !! 1%nat = Some s
  /\ hits Guild [10; 20] 1 eng = 2%nat
  /\ sessions (publish_each Guild [10; 20] "USER_UPDATE" VNone eng) !! 1%nat
      = Some (Nat.iter (hits Guild [10; 20] 1 eng) (stamp "USER_UPDATE" VNone) s)
  /\ sessions (publishMany Guild [10; 20] "USER_UPDATE" VNone eng) !! 1%nat
      = Some (if decide (hits Guild [10; 20] 1 eng = 0%nat) then s
              else stamp "USER_UPDATE" VNone s).
Proof.
  intros eng s.
  split; [vm_compute; reflexivity|].
  split; [vm_compute; reflexivity|].
  apply (publishMany_delivers_once Guild [10; 20] "USER_UPDATE" VNone eng 1 s).
  vm_compute; reflexivity.
Defined.

(** *** Sequence numbers *)

Lemma stamp_gapless name payload s :
  gapless s -> gapless (stamp name payload s).
Proof.
  intros [Hseq Hq]. split; simpl.
  - rewrite length_app, Hseq. simpl. lia.
  - intros i e Hi. apply lookup_app_Some in Hi as [Hi|[Hlen Hi]].
    + by apply Hq.
    + apply list_lookup_singleton_Some in Hi as [Hi <-]. simpl.
      rewrite Hseq. f_equal. lia.
Qed.

Lemma enqueue_gapless name payload sid eng :
  all_gapless eng -> all_gapless (enqueue name payload sid eng).
Proof.
  intros Hinv sid' s'. rewrite enqueue_lookup.
  case_decide; [|by apply Hinv].
  destruct (sessions eng !! sid') as [s|] eqn:Hs; simpl; [|done].
  intros [= <-]. apply stamp_gapless. by eapply Hinv.
Qed.

Lemma deliver_all_gapless name payload sids :
  forall eng, all_gapless eng -> all_gapless (deliver_all name payload sids eng).
Proof.
  induction sids as [|sid sids IH]; intros eng Hinv; [done|].
  rewrite deliver_all_cons. by apply IH, enqueue_gapless.
Qed.

Lemma step_gapless eng o : all_gapless eng -> all_gapless (step eng o).
Proof.
  intros Hinv. destruct o; simpl.
  - unfold connect. destruct (sessions eng !! sid) eqn:Hs; [done|].
    intros sid' s'. simpl. rewrite lookup_insert.
    case_decide; [|by apply Hinv].
    intros [= <-]. split; [done|]. intros i e Hi. by destruct i.
  - intros sid' s'. simpl. rewrite lookup_delete.
    case_decide; [done | by apply Hinv].
  - done.
  - done.
  - by apply deliver_all_gapless.
  - by apply deliver_all_gapless.
  - by apply deliver_all_gapless.
Qed.

Lemma run_gapless ops :
  forall eng, all_gapless eng -> all_gapless (run ops eng).
Proof.
  induction ops as [|o ops IH]; intros eng Hinv; [done|].
  apply IH, step_gapless, Hinv.
Qed.

(** C4. Whatever publishes (and connects, subscriptions, disconnects)
    have run since the engine started, the events a session has been
    handed carry the numbers 0, 1, 2, ... in order: each is one more than
    the one before it, and the counter stands at the number of events. *)
Theorem delivered_sequence_gapless :
  forall (ops : list op) (sid : nat) (s : session),
    sessions (run ops empty_engine) !! sid = Some s ->
    stamps s = N.of_nat <$> seq 0 (length (session_queue s))
    /\ session_seq s = N.of_nat (length (session_queue s))
    /\ (forall i e e',
          session_queue s !! i = Some e ->
          session_queue s !! S i = Some e' ->
          event_seq e' = (event_seq e + 1)%N)
    /\ (forall i j e e',
          (i < j)%nat ->
          session_queue s !! i = Some e ->
          session_queue s !! j = Some e' ->
          (event_seq e < event_seq e')%N).
Proof.
  intros ops sid s Hs.
  assert (Hg : gapless s).
  { eapply (run_gapless ops empty_engine); [|exact Hs].
    intros sid' s'. simpl. by rewrite lookup_empty. }
  destruct Hg as [Hseq Hq]. repeat split.
  - apply list_eq. intros i. unfold stamps.
    rewrite !list_lookup_fmap.
    destruct (session_queue s !! i) as [e|] eqn:Hi; simpl.
    + rewrite (Hq _ _ Hi).
      apply lookup_lt_Some in Hi.
      by rewrite lookup_seq_lt.
    + apply lookup_ge_None in Hi.
      by rewrite lookup_seq_ge.
  - exact Hseq.
  - intros i e e' Hi Hi'. rewrite (Hq _ _ Hi), (Hq _ _ Hi'). lia.
  - intros i j e e' Hlt Hi Hj. rewrite (Hq _ _ Hi), (Hq _ _ Hj). lia.
Qed.

(** A session that receives three of five published events: they carry
    0, 1 and 2. *)
Lemma delivered_sequence_gapless_witness :
  let ops := [OpConnect 1 7; OpSubscribe Guild 10 1;
              OpPublish Guild 10 "MESSAGE_CREATE" VNone;
              OpPublishToUser 7 "USER_UPDATE" VNone;
              OpPublish Channel 3 "TYPING_START" VNone;
              OpPublishMany Guild [10; 11] "PRESENCE_UPDATE" VNone] in
  let s := Session 7 3 [Event "MESSAGE_CREATE" VNone 0;
                        Event "USER_UPDATE" VNone 1;
                        Event "PRESENCE_UPDATE" VNone 2] in
  sessions (run ops empty_engine) !! 1%nat = Some s
  /\ stamps s = [0; 1; 2]%N.
Proof.
  intros ops s.
  split; [vm_compute; reflexivity|].
  apply (delivered_sequence_gapless ops 1 s).
  vm_compute; reflexivity.
Defined.

(** *** Leaving a topic after a last event *)

Lemma unsubscribe_subscribers kind id sid kind' id' eng :
  subscribers kind' id' (unsubscribe kind id sid eng)
  = if decide ((kind, id) = (kind', id'))
    then subscribers kind id eng ∖ {[sid]}
    else subscribers kind' id' eng.
Proof.
  unfold unsubscribe, subscribers at 1. simpl.
  destruct (decide (subscribers kind id eng ∖ {[sid]} = ∅)) as [Hempty|Hne].
  - rewrite lookup_delete. case_decide; simpl; [by rewrite Hempty | done].
  - rewrite lookup_insert. case_decide; simpl; done.
Qed.

Lemma unsubscribe_all_sessions kind id sids :
  forall eng,
    sessions (fold_left (fun e sid => unsubscribe kind id sid e) sids eng)
    = sessions eng.
Proof. induction sids as [|sid sids IH]; intros eng; simpl; [done|]. by rewrite IH. Qed.

Lemma unsubscribe_all_subscribers kind id sids :
  forall eng,
    subscribers kind id (fold_left (fun e sid => unsubscribe kind id sid e) sids eng)
    = subscribers kind id eng ∖ list_to_set sids.
Proof.
  induction sids as [|sid sids IH]; intros eng; simpl.
  - set_solver.
  - rewrite IH, unsubscribe_subscribers, decide_True by done. set_solver.
Qed.

Lemma unsub_user_subscribers kind id user eng :
  subscribers kind id (unsub_user kind id user eng)
  = subscribers kind id eng ∖ user_sessions user eng.
Proof.
  unfold unsub_user. rewrite unsubscribe_all_subscribers.
  by rewrite list_to_set_elements_L.
Qed.

Lemma elem_of_user_sessions user sid eng :
  sid ∈ user_sessions user eng
  <-> exists s, sessions eng !! sid = Some s /\ session_user s = user.
Proof.
  unfold user_sessions. rewrite elem_of_dom. unfold is_Some.
  setoid_rewrite map_lookup_filter_Some. simpl. naive_solver.
Qed.

Lemma deliver_all_owner name payload sids sid :
  forall eng,
    session_user <$> sessions (deliver_all name payload sids eng) !! sid
    = session_user <$> sessions eng !! sid.
Proof.
  induction sids as [|x sids IH]; intros eng; [done|].
  rewrite deliver_all_cons, IH, enqueue_lookup.
  case_decide; [|done]. by destruct (sessions eng !! sid).
Qed.

Lemma deliver_all_user_sessions name payload sids user eng :
  user_sessions user (deliver_all name payload sids eng) = user_sessions user eng.
Proof.
  apply set_eq. intros sid. rewrite !elem_of_user_sessions.
  pose proof (deliver_all_owner name payload sids sid eng) as Hown.
  destruct (sessions (deliver_all name payload sids eng) !! sid) as [s'|],
           (sessions eng !! sid) as [s|]; simpl in Hown; simplify_eq;
    naive_solver.
Qed.

(** The first two steps of the leave flow, for a session of the leaving
    user that is subscribed to the guild: after the first it holds the
    event and is still subscribed, after the second it holds the event and
    is unsubscribed.  There is no state in which it is unsubscribed without
    the event. *)
Lemma leave_flow_first_steps user guild name payload eng sid s :
  sessions eng !! sid = Some s ->
  session_user s = user ->
  sid ∈ subscribers Guild guild eng ->
  let eng1 := publishToUserGuild user guild name payload eng in
  let eng2 := unsub_user Guild guild user eng1 in
  (sessions eng1 !! sid = Some (stamp name payload s)
   /\ sid ∈ subscribers Guild guild eng1)
  /\ (sessions eng2 !! sid = Some (stamp name payload s)
      /\ sid ∉ subscribers Guild guild eng2).
Proof.
  intros Hs Hu Hsub eng1 eng2.
  assert (Hmine : sid ∈ user_sessions user eng)
    by (apply elem_of_user_sessions; eauto).
  assert (H1 : sessions eng1 !! sid = Some (stamp name payload s)).
  { unfold eng1, publishToUserGuild.
    rewrite deliver_all_once by apply NoDup_elements.
    rewrite decide_True by (apply elem_of_elements; set_solver).
    by rewrite Hs. }
  split; [split; [exact H1|]|split].
  - unfold eng1, publishToUserGuild, subscribers.
    by rewrite deliver_all_topics.
  - unfold eng2, unsub_user. by rewrite unsubscribe_all_sessions.
  - unfold eng2. rewrite unsub_user_subscribers.
    unfold eng1, publishToUserGuild. rewrite deliver_all_user_sessions.
    set_solver.
Qed.

End DispatcherFacts.

(** ** litecord/blueprints/users.py *)

Module UsersFacts.
Import Py Dispatcher Users.
Local Open Scope list_scope.

(** *** Decimal rendering *)

Lemma pretty_N_go_grows (x : N) :
  forall s, (String.length s <= String.length (pretty_N_go x s))%nat.
Proof.
  induction (N.lt_wf_0 x) as [x _ IH]. intros s.
  destruct (decide (x = 0)%N) as [->|Hpos].
  - rewrite pretty_N_go_0. lia.
  - rewrite pretty_N_go_step by lia.
    specialize (IH (x `div` 10)%N).
    assert (Hlt : (x `div` 10 < x)%N) by (apply N.div_lt; lia).
    specialize (IH Hlt (String (pretty_N_char (x `mod` 10)) s)).
    simpl in IH. lia.
Qed.

Lemma pretty_N_nonempty (x : N) : pretty x <> "".
Proof.
  unfold pretty, pretty_N. case_decide as Hx; [done|].
  rewrite pretty_N_go_step by lia.
  intros Hempty.
  pose proof (pretty_N_go_grows (x `div` 10)
                (String (pretty_N_char (x `mod` 10)) "")) as Hlen.
  rewrite Hempty in Hlen. simpl in Hlen. lia.
Qed.

(** [str(n)] of an integer is never the empty string, so a rerolled
    discriminator is truthy. *)
Lemma str_int_truthy (n : Z) : truthy (VStr (str (VInt n))) = true.
Proof.
  simpl. apply negb_true_iff, String.eqb_neq.
  destruct n as [|p|p]; [done| |done].
  apply (pretty_N_nonempty (Npos p)).
Qed.

Section Facts.
Context {db : Type} `{App db}.

(** *** Running a sequence *)

Lemma bind_run {A B} (m : M db A) (k : A -> M db B) (w : world db) :
  (m ≫= k) w
  = match m w with
    | (Return a, w') => k a w'
    | (Raise e, w') => (Raise e, w')
    end.
Proof. reflexivity. Qed.

Lemma bind_returns {A B} (m : M db A) (k : A -> M db B) w b w' :
  (m ≫= k) w = (Return b, w') ->
  exists a w1, m w = (Return a, w1) /\ k a w1 = (Return b, w').
Proof.
  rewrite bind_run. destruct (m w) as [[a|e] w1]; [eauto | discriminate].
Qed.

(** *** Steps that do not talk to the dispatcher *)

Lemma quiet_ret {A} (a : A) : quiet (db := db) (ret a).
Proof. by intros w. Qed.

Lemma quiet_mret {A} (a : A) : quiet (db := db) (mret a).
Proof. by intros w. Qed.

Lemma quiet_raise {A} (e : exn) : quiet (db := db) (raise (A := A) e).
Proof. by intros w. Qed.

Lemma quiet_lift {A} (r : result A) : quiet (db := db) (lift r).
Proof. by intros w. Qed.

Lemma quiet_db_read {A} (q : db -> A) : quiet (db_read q).
Proof. by intros w. Qed.

Lemma quiet_db_check (q : db -> result unit) : quiet (db_check q).
Proof. by intros w. Qed.

Lemma quiet_db_execute (st : statement) : quiet (db_execute st).
Proof. intros w. unfold db_execute. by destruct (execute st (w_db w)). Qed.

Lemma quiet_randint (lo hi : Z) : quiet (randint lo hi).
Proof. by intros w. Qed.

Lemma quiet_bind {A B} (m : M db A) (k : A -> M db B) :
  quiet m -> (forall a, quiet (k a)) -> quiet (m ≫= k).
Proof.
  intros Hm Hk w. rewrite bind_run.
  specialize (Hm w). destruct (m w) as [[a|e] w1]; simpl in *; [|done].
  destruct (Hk a w1) as [-> ->]. done.
Qed.

Lemma quiet_try {A} (body : M db A) handled (handler : exn -> M db A) :
  quiet body -> (forall e, quiet (handler e)) -> quiet (try_ body handled handler).
Proof.
  intros Hb Hh w. unfold try_.
  specialize (Hb w). destruct (body w) as [[a|e] w1]; simpl in *; [done|].
  destruct (handled e); [|done].
  destruct (Hh e w1) as [-> ->]. done.
Qed.

Lemma quiet_if {A} (b : bool) (m1 m2 : M db A) :
  quiet m1 -> quiet m2 -> quiet (if b then m1 else m2).
Proof. by destruct b. Qed.

Lemma quiet_for_each {A} (xs : list A) (body : A -> M db unit) :
  (forall x, quiet (body x)) -> quiet (for_each xs body).
Proof.
  intros Hbody. induction xs as [|x xs IH]; simpl.
  - apply quiet_ret.
  - apply quiet_bind; auto.
Qed.

Create HintDb quiet.
Hint Resolve quiet_ret quiet_mret quiet_raise quiet_lift quiet_db_read
  quiet_db_check quiet_db_execute quiet_randint quiet_bind quiet_try
  quiet_if quiet_for_each : quiet.

Lemma quiet_try_reroll_loop attempts user_id preferred_username :
  quiet (_try_reroll_loop attempts user_id preferred_username).
Proof.
  induction attempts as [|n IH]; cbn [_try_reroll_loop];
    [auto with quiet|].
  apply quiet_bind; [auto with quiet|]. intros r.
  apply quiet_if; apply quiet_bind; auto with quiet.
Qed.

Lemma quiet_try_reroll user_id preferred_username :
  quiet (_try_reroll user_id preferred_username).
Proof. apply quiet_try_reroll_loop. Qed.

Hint Resolve quiet_try_reroll : quiet.

Lemma quiet_try_username_patch user_id new_username :
  quiet (_try_username_patch user_id new_username).
Proof.
  unfold _try_username_patch.
  apply quiet_bind; [auto with quiet|]. intros _.
  apply quiet_try; [auto with quiet|]. intros _.
  apply quiet_bind; [auto with quiet|]. intros discrim.
  apply quiet_if; auto with quiet.
Qed.

Lemma quiet_try_discrim_patch user_id new_discrim :
  quiet (_try_discrim_patch user_id new_discrim).
Proof. unfold _try_discrim_patch. auto with quiet. Qed.

Lemma quiet_check_pass j user : quiet (_check_pass j user).
Proof.
  unfold _check_pass.
  apply quiet_bind; [auto with quiet|]. intros password.
  apply quiet_if; [auto with quiet|].
  apply quiet_bind; [auto with quiet|]. intros phash.
  apply quiet_if; auto with quiet.
Qed.

Hint Resolve quiet_try_username_patch quiet_try_discrim_patch
  quiet_check_pass : quiet.

(** *** The discriminator reroll *)

Lemma randint_bounds (n : N) : 1 <= 1 + Z.of_N n `mod` (9999 - 1 + 1) <= 9999.
Proof.
  pose proof (Z.mod_pos_bound (Z.of_N n) (9999 - 1 + 1)). lia.
Qed.

(** With [attempts] rounds left the loop returns after drawing at most
    [attempts] numbers; it answers None only when all rounds are used
    up, and otherwise the decimal string of the last number drawn. *)
Lemma try_reroll_loop_outcome attempts user_id preferred_username :
  forall w : world db,
  exists (outcome : value) (w' : world db),
    _try_reroll_loop attempts user_id preferred_username w
      = (Return outcome, w')
    /\ (w_draws w <= w_draws w' <= w_draws w + attempts)%nat
    /\ (outcome = VNone -> w_draws w' = (w_draws w + attempts)%nat)
    /\ (outcome = VNone
        \/ exists n, 1 <= n <= 9999 /\ outcome = VStr (str (VInt n))).
Proof.
  induction attempts as [|n IH]; intros w.
  - exists VNone, w. repeat split; auto; lia.
  - cbn [_try_reroll_loop]. unfold mbind, M_bind, bind, randint.
    pose proof (randint_bounds (random_source (w_draws w))) as Hr.
    set (r := 1 + Z.of_N (random_source (w_draws w)) `mod` (9999 - 1 + 1)) in *.
    set (w1 := World (w_db w) (S (w_draws w)) (w_dispatcher w) (w_calls w)).
    destruct (truthy preferred_username).
    + unfold db_read.
      destruct (negb (truthy _)).
      * exists (VStr (str (VInt r))), w1. unfold ret; simpl.
        repeat split; eauto; try lia; discriminate.
      * destruct (IH w1) as (o & w' & Hrun & Hd & Hnone & Ho).
        exists o, w'. simpl in *. rewrite Hrun.
        repeat split; auto; try lia. intros Hn. rewrite (Hnone Hn). lia.
    + unfold try_, db_execute. simpl.
      destruct (execute _ (w_db w)) as [d|]; simpl.
      * eexists (VStr (str (VInt r))), _. unfold ret; simpl.
        split; [reflexivity|]. simpl.
        repeat split; eauto; try lia; discriminate.
      * destruct (IH w1) as (o & w' & Hrun & Hd & Hnone & Ho).
        exists o, w'. simpl in *. fold w1. rewrite Hrun.
        repeat split; auto; try lia. intros Hn. rewrite (Hnone Hn). lia.
Qed.

(** C5. _try_reroll always returns: after at most 10 draws it answers
    either None (only once all 10 attempts are spent) or the decimal
    string of an integer between 1 and 9999. *)
Theorem try_reroll_bounded :
  forall (user_id : Z) (preferred_username : value) (w : world db),
  exists (outcome : value) (w' : world db),
    _try_reroll user_id preferred_username w = (Return outcome, w')
    /\ (w_draws w <= w_draws w' <= w_draws w + 10)%nat
    /\ (outcome = VNone -> w_draws w' = (w_draws w + 10)%nat)
    /\ (outcome = VNone
        \/ exists n, 1 <= n <= 9999 /\ outcome = VStr (str (VInt n))).
Proof. intros. apply try_reroll_loop_outcome. Qed.

(** *** The username patch *)


(** *** What the handlers tell the dispatcher *)

Lemma quiet_returns {A} (m : M db A) (w : world db) r w1 :
  quiet m -> m w = (r, w1) ->
  w_calls w1 = w_calls w /\ w_dispatcher w1 = w_dispatcher w.
Proof. intros Hq Hm. specialize (Hq w). by rewrite Hm in Hq. Qed.

Lemma ids_of_ints (ids : list Z) : ids_of (VList (VInt <$> ids)) = ids.
Proof.
  unfold ids_of. induction ids as [|id ids IH]; csimpl; [done|].
  by f_equal.
Qed.

Ltac solve_quiet :=
  repeat match goal with
         | |- quiet (if ?b then _ else _) => apply quiet_if
         | |- quiet (match ?x with Some _ => _ | None => _ end) => destruct x
         | |- quiet (_ ≫= _) => apply quiet_bind; [|intros ?]
         | |- quiet (try_ _ _ _) => apply quiet_try; [|intros ?]
         | |- quiet (for_each _ _) => apply quiet_for_each; intros ?
         end;
  auto with quiet.

Ltac quiet_step Hrun :=
  let a := fresh "a" in
  let w1 := fresh "w" in
  let Hm := fresh "Hm" in
  apply bind_returns in Hrun as (a & w1 & Hm & Hrun);
  apply quiet_returns in Hm as [? ?]; [|solve_quiet].

Lemma patch_current_settings_calls user_id j (w w' : world db) settings :
  patch_current_settings user_id j w = (Return settings, w') ->
  settings = storage_get_user_settings user_id (w_db w')
  /\ w_calls w'
      = w_calls w
        ++ [Call dispatch_user
              [VInt user_id; VStr "USER_SETTINGS_UPDATE"; settings]]
  /\ w_dispatcher w'
      = publishToUser user_id "USER_SETTINGS_UPDATE" settings (w_dispatcher w).
Proof.
  intros Hrun. unfold patch_current_settings in Hrun.
  quiet_step Hrun.
  apply bind_returns in Hrun as (st & w2 & Hread & Hrun).
  unfold db_read in Hread. injection Hread as <- <-.
  apply bind_returns in Hrun as ([] & w3 & Hdisp & Hrun).
  unfold dispatcher in Hdisp. simpl in Hdisp. injection Hdisp as <-.
  unfold ret in Hrun. injection Hrun as <- <-. simpl.
  repeat split; congruence.
Qed.

Lemma patch_me_calls user_id j (w w' : world db) user :
  patch_me user_id j w = (Return user, w') ->
  let public_user := storage_get_user user_id false (w_db w') in
  let guild_ids := storage_get_user_guilds user_id (w_db w') in
  let friend_ids := storage_get_friend_ids user_id (w_db w') in
  w_calls w'
  = w_calls w
    ++ [Call dispatch_user [VInt user_id; VStr "USER_UPDATE"; user];
        Call dispatch_many
          [VStr "guild"; VList (VInt <$> guild_ids); VStr "USER_UPDATE"; public_user];
        Call dispatch_many
          [VStr "friend"; VList (VInt <$> friend_ids); VStr "USER_UPDATE"; public_user]]
  /\ w_dispatcher w'
      = publishMany Friend friend_ids "USER_UPDATE" public_user
          (publishMany Guild guild_ids "USER_UPDATE" public_user
             (publishToUser user_id "USER_UPDATE" user (w_dispatcher w))).
Proof.
  intros Hrun. unfold patch_me in Hrun.
  do 11 quiet_step Hrun.
  apply bind_returns in Hrun as ([] & wd & Hdisp & Hrun).
  unfold dispatcher in Hdisp. simpl in Hdisp. injection Hdisp as <-.
  apply bind_returns in Hrun as (pu & ? & Hread & Hrun).
  unfold db_read in Hread. injection Hread as <- <-.
  apply bind_returns in Hrun as (gs & ? & Hread & Hrun).
  unfold db_read in Hread. injection Hread as <- <-.
  apply bind_returns in Hrun as (fs & ? & Hread & Hrun).
  unfold db_read in Hread. injection Hread as <- <-.
  apply bind_returns in Hrun as ([] & wg & Hdisp & Hrun).
  unfold dispatcher in Hdisp. cbn -[ids_of publishMany] in Hdisp.
  rewrite ids_of_ints in Hdisp. injection Hdisp as <-.
  apply bind_returns in Hrun as ([] & wf & Hdisp & Hrun).
  unfold dispatcher in Hdisp. cbn -[ids_of publishMany] in Hdisp.
  rewrite ids_of_ints in Hdisp. injection Hdisp as <-.
  unfold ret in Hrun. injection Hrun as <- <-. simpl.
  split.
  - rewrite <- !app_assoc. simpl. congruence.
  - congruence.
Qed.

(** C2, as the code has it.  A settings update that returns has made
    one dispatcher call, dispatch_user with USER_SETTINGS_UPDATE and the
    stored settings, and no dispatch_many.  The profile update is the
    handler that follows its dispatch_user (USER_UPDATE, the private
    user object) by dispatch_many to the user's guilds and then to the
    user's friends (USER_UPDATE, the public user object). *)
Theorem settings_and_profile_dispatch :
  forall (user_id : Z) (j : gmap string value) (w : world db),
    (forall settings w',
        patch_current_settings user_id j w = (Return settings, w') ->
        settings = storage_get_user_settings user_id (w_db w')
        /\ w_calls w'
            = w_calls w
              ++ [Call dispatch_user
                    [VInt user_id; VStr "USER_SETTINGS_UPDATE"; settings]]
        /\ w_dispatcher w'
            = publishToUser user_id "USER_SETTINGS_UPDATE" settings
                (w_dispatcher w))
    /\ (forall user w',
          patch_me user_id j w = (Return user, w') ->
          let public_user := storage_get_user user_id false (w_db w') in
          let guild_ids := storage_get_user_guilds user_id (w_db w') in
          let friend_ids := storage_get_friend_ids user_id (w_db w') in
          w_calls w'
          = w_calls w
            ++ [Call dispatch_user [VInt user_id; VStr "USER_UPDATE"; user];
                Call dispatch_many
                  [VStr "guild"; VList (VInt <$> guild_ids);
                   VStr "USER_UPDATE"; public_user];
                Call dispatch_many
                  [VStr "friend"; VList (VInt <$> friend_ids);
                   VStr "USER_UPDATE"; public_user]]
          /\ w_dispatcher w'
              = publishMany Friend friend_ids "USER_UPDATE" public_user
                  (publishMany Guild guild_ids "USER_UPDATE" public_user
                     (publishToUser user_id "USER_UPDATE" user
                        (w_dispatcher w)))).
Proof.
  intros user_id j w. split.
  - intros settings w'. apply patch_current_settings_calls.
  - intros user w'. apply patch_me_calls.
Qed.

End Facts.

(** *** The handlers on the in-memory database *)

Import TableDB.


(** The name "bob" is taken with alice's discriminator; the first draw
    is free, and the patch stores ("bob", "4242"). *)
Example try_username_patch_rerolls :
  let (r, w') := _try_username_patch 1 (VStr "bob") world0 in
  r = Return (VStr "4242")
  /\ w_draws w' = 1%nat
  /\ (fun u => (row_username u, row_discriminator u)) <$> find_user 1 (w_db w')
     = Some ("bob", "4242").
Proof. vm_compute. auto. Qed.


(** With all ten draws taken the patch gives up. *)
Example try_username_patch_gives_up :
  let (r, w') := _try_username_patch 1 (VStr "bob") world_crowded in
  r = Raise unable_to_change_username
  /\ w_draws w' = 10%nat
  /\ w_db w' = tables_crowded.
Proof. vm_compute. auto. Qed.

(** The profile update on the in-memory database returns, and its calls
    are the three that the theorem names. *)
Lemma settings_and_profile_dispatch_witness :
  exists user w',
    patch_me 1 {[ "username" := VStr "bob" ]} world0 = (Return user, w')
    /\ call_method <$> w_calls w' = [dispatch_user; dispatch_many; dispatch_many].
Proof.
  destruct (patch_me 1 {[ "username" := VStr "bob" ]} world0) as [r w'] eqn:Hrun.
  assert (Hr : returns r = true).
  { apply (f_equal fst) in Hrun. simpl in Hrun. rewrite <- Hrun.
    vm_compute; reflexivity. }
  destruct r as [user|e]; [|discriminate].
  exists user, w'. split; [reflexivity|].
  destruct (settings_and_profile_dispatch 1 {[ "username" := VStr "bob" ]} world0)
    as [_ Hme].
  destruct (Hme user w' Hrun) as [Hcalls _]. rewrite Hcalls. reflexivity.
Defined.

(** C2 as stated fails: the settings update of user 1, who is in guild 10
    and has user 2 as a friend, returns after a single dispatch_user
    call; it makes no dispatch_many call and nothing reaches the session
    of user 2. *)
Lemma settings_update_makes_no_dispatch_many :
  let (r, w') := patch_current_settings 1 {[ "theme" := VStr "light" ]} world0 in
  returns r = true
  /\ call_method <$> w_calls w' = [dispatch_user]
  /\ storage_get_user_guilds 1 (w_db w') = [10]
  /\ storage_get_friend_ids 1 (w_db w') = [2]
  /\ inbox 11 (w_dispatcher w') = [("USER_SETTINGS_UPDATE", 0%N)]
  /\ inbox 21 (w_dispatcher w') = [].
Proof. vm_compute. auto 10. Qed.

Example patch_me_dispatches :
  let (r, w') := patch_me 1 {[ "username" := VStr "bob" ]} world0 in
  returns r = true
  /\ call_method <$> w_calls w' = [dispatch_user; dispatch_many; dispatch_many]
  /\ inbox 11 (w_dispatcher w') = [("USER_UPDATE", 0%N); ("USER_UPDATE", 1%N)]
  /\ inbox 21 (w_dispatcher w') = [("USER_UPDATE", 0%N)].
Proof. vm_compute. auto. Qed.

(** *** Leaving a guild *)

(** Whenever the membership check and the DELETE go through, the handler
    dispatches GUILD_DELETE to the leaving user's sessions, takes the
    user off the guild topic, and then fails in its third dispatcher
    call: dispatch_guild is handed the event name and the payload but no
    guild id. *)
Lemma leave_guild_outcome {db : Type} `{App db} (user_id guild_id : Z)
    (w : world db) (d : db) :
  guild_check user_id guild_id (w_db w) = Return tt ->
  execute (DeleteMember user_id guild_id) (w_db w) = Some d ->
  leave_guild user_id guild_id w
  = (Raise (TypeError "missing required positional argument"),
     World d (w_draws w)
       (unsub_user Guild guild_id user_id
          (publishToUserGuild user_id guild_id "GUILD_DELETE"
             (guild_delete_payload guild_id) (w_dispatcher w)))
       (w_calls w
        ++ [Call dispatch_user_guild
              [VInt user_id; VInt guild_id; VStr "GUILD_DELETE";
               guild_delete_payload guild_id];
            Call unsub [VStr "guild"; VInt guild_id; VInt user_id];
            Call dispatch_guild
              [VStr "GUILD_MEMBER_REMOVE";
               member_remove_payload guild_id (storage_get_user user_id false d)]])).
Proof.
  intros Hcheck Hdelete. unfold leave_guild.
  rewrite bind_run. unfold db_check at 1. rewrite Hcheck.
  rewrite bind_run. unfold db_execute at 1. rewrite Hdelete.
  unfold dispatcher, db_read, mbind, M_bind, bind. simpl.
  by rewrite <- !app_assoc.
Qed.

Lemma leave_guild_never_returns {db : Type} `{App db} (user_id guild_id : Z)
    (w : world db) :
  returns (leave_guild user_id guild_id w).1 = false.
Proof.
  unfold leave_guild. rewrite bind_run. unfold db_check at 1.
  destruct (guild_check user_id guild_id (w_db w)) as [[]|e] eqn:Hcheck;
    [|reflexivity].
  rewrite bind_run. unfold db_execute at 1.
  destruct (execute (DeleteMember user_id guild_id) (w_db w)) as [d|] eqn:Hdel;
    [|reflexivity].
  unfold dispatcher, db_read, mbind, M_bind, bind. reflexivity.
Qed.

(** C1 on a concrete guild: user 1 (session 11) leaves guild 10, where
    user 2 (session 21) stays.  Session 11 gets GUILD_DELETE and is
    unsubscribed, in that order; the GUILD_MEMBER_REMOVE call then raises
    and session 21 receives nothing. *)
Theorem leave_guild_member_remove_undelivered :
  let (r, w') := leave_guild 1 10 world0 in
  r = Raise (TypeError "missing required positional argument")
  /\ call_method <$> w_calls w' = [dispatch_user_guild; unsub; dispatch_guild]
  /\ (call_args <$> last (w_calls w'))
     = Some [VStr "GUILD_MEMBER_REMOVE";
             member_remove_payload 10 (storage_get_user 1 false (w_db w'))]
  /\ inbox 11 (w_dispatcher w') = [("GUILD_DELETE", 0%N)]
  /\ elements (subscribers Guild 10 (w_dispatcher w')) = [21%nat]
  /\ inbox 21 (w_dispatcher w') = [].
Proof. vm_compute. auto 10. Qed.

End UsersFacts.

(** * Further properties *)

(** ** str.split and str.join *)

Module PyStrFacts.
Import Py PyStr.

Lemma split_not_nil (sep : ascii) (s : string) : split sep s <> [].
Proof.
  destruct s as [|c rest]; simpl; [done|].
  destruct (Ascii.eqb c sep); [done|].
  destruct (split sep rest); done.
Qed.

(** Joining the pieces with the separator gives the string back. *)
Lemma join_split (sep : ascii) (s : string) :
  join (String sep "") (split sep s) = s.
Proof.
  induction s as [|c rest IH]; simpl; [done|].
  pose proof (split_not_nil sep rest) as Hne.
  destruct (Ascii.eqb c sep) eqn:Hc.
  - apply Ascii.eqb_eq in Hc as ->.
    destruct (split sep rest) as [|piece pieces]; [done|].
    rewrite <- IH. reflexivity.
  - destruct (split sep rest) as [|piece pieces]; [done|].
    destruct pieces as [|piece' pieces]; rewrite <- IH; reflexivity.
Qed.

Lemma split_no_sep (sep : ascii) (s : string) :
  has_char sep s = false -> split sep s = [s].
Proof.
  unfold has_char. induction s as [|c rest IH]; simpl; [done|].
  rewrite Ascii.eqb_sym. intros [Hc Hrest]%orb_false_iff.
  rewrite Hc, (IH Hrest). reflexivity.
Qed.

Lemma split_app_sep (sep : ascii) (a b : string) :
  has_char sep a = false ->
  split sep (a ++ String sep b) = a :: split sep b.
Proof.
  unfold has_char. induction a as [|c rest IH]; simpl.
  - intros _. by rewrite Ascii.eqb_refl.
  - rewrite Ascii.eqb_sym. intros [Hc Hrest]%orb_false_iff.
    rewrite Hc, (IH Hrest). reflexivity.
Qed.

(** Splitting a join of separator-free pieces gives the pieces back. *)
Lemma split_join (sep : ascii) (pieces : list string) :
  pieces <> [] ->
  Forall (fun piece => has_char sep piece = false) pieces ->
  split sep (join (String sep "") pieces) = pieces.
Proof.
  intros Hne Hfree. induction Hfree as [|piece rest Hpiece Hrest IH]; [done|].
  destruct rest as [|piece' rest].
  - simpl. by apply split_no_sep.
  - change (join (String sep "") (piece :: piece' :: rest))
      with (piece ++ String sep (join (String sep "") (piece' :: rest))).
    rewrite split_app_sep by done. f_equal. by apply IH.
Qed.

Lemma append_cons (x : ascii) (a b : string) :
  String x a ++ b = String x (a ++ b).
Proof. reflexivity. Qed.

Lemma append_empty (b : string) : "" ++ b = b.
Proof. reflexivity. Qed.

Lemma append_assoc (a b c : string) : (a ++ b) ++ c = a ++ (b ++ c).
Proof.
  induction a as [|x a IH]; [reflexivity|].
  rewrite !append_cons. by f_equal.
Qed.

(** A piece that split returns never contains the separator. *)
Lemma split_pieces_free (sep : ascii) (s : string) :
  Forall (fun piece => has_char sep piece = false) (split sep s).
Proof.
  induction s as [|c rest IH]; simpl.
  - by constructor.
  - destruct (Ascii.eqb c sep) eqn:Hc.
    + by constructor.
    + pose proof (split_not_nil sep rest) as Hne.
      destruct (split sep rest) as [|piece pieces]; [done|].
      inversion IH as [|? ? Hpiece Hpieces]; subst.
      constructor; [|done].
      unfold has_char in *. simpl. by rewrite Ascii.eqb_sym, Hc.
Qed.

End PyStrFacts.

(** ** litecord/embed/sanitizer.py, continued *)

Module SanitizerMoreFacts.
Import Py PyStr Sanitizer SanitizerFacts PyStrFacts.

Lemma index_path_app (v : value) (p q : list string) :
  index_path v (p ++ q)
  = match index_path v p with
    | Some sub => index_path sub q
    | None => None
    end.
Proof.
  unfold index_path. rewrite fold_left_app.
  destruct (fold_left index_step p (Some v)); [reflexivity | apply index_gone].
Qed.

(** X1. A path p followed by q exists exactly when p leads to a value in
    which q exists with the calls that are left after p, one call being
    taken per key of p; so a path exists only if each of its prefixes
    does. *)
Theorem path_exists_app :
  forall (frames : nat) (embed : value) (p q : list string),
    (path_exists frames embed (CompList (p ++ q)) = Return true
     <-> exists sub, index_path embed p = Some sub
                     /\ path_exists (frames - length p) sub (CompList q)
                        = Return true)
    /\ (path_exists frames embed (CompList (p ++ q)) = Return true ->
        path_exists frames embed (CompList p) = Return true).
Proof.
  intros frames embed p q. unfold path_exists. simpl.
  assert (Hiff : path_exists_list frames embed (p ++ q) = Return true
                 <-> exists sub, index_path embed p = Some sub
                                 /\ path_exists_list (frames - length p) sub q
                                    = Return true).
  { rewrite path_exists_list_true, index_path_app, length_app. split.
    - intros [Hsome Hlen].
      destruct (index_path embed p) as [sub|]; [|by destruct Hsome].
      exists sub. split; [done|]. apply path_exists_list_true. split; [done | lia].
    - intros (sub & -> & [Hq Hlen]%path_exists_list_true). split; [done | lia]. }
  split; [exact Hiff|].
  intros (sub & Hp & [_ Hlen]%path_exists_list_true)%Hiff.
  apply path_exists_list_true. rewrite Hp. split; [by eexists | lia].
Qed.

Lemma path_exists_app_witness :
  let embed := VDict {[ "footer" := VDict {[ "icon_url" := VStr "http://a/b.png" ]} ]} in
  path_exists 3 embed (CompList (["footer"] ++ ["icon_url"])) = Return true
  /\ path_exists 3 embed (CompList ["footer"]) = Return true
  /\ path_exists 2 embed (CompList (["footer"] ++ ["icon_url"]))
     = Raise RecursionError.
Proof.
  intros embed.
  assert (Hfull : path_exists 3 embed (CompList (["footer"] ++ ["icon_url"]))
                  = Return true)
    by (vm_compute; reflexivity).
  split; [exact Hfull|].
  split; [|vm_compute; reflexivity].
  exact (proj2 (path_exists_app 3 embed ["footer"] ["icon_url"]) Hfull).
Defined.

(** X2. In a sanitized embed the path "type" exists and nothing exists
    below it, both answered within two calls; every path that starts with
    another key has the same outcome in the sanitized embed as in the
    original one, whatever the number of calls allowed. *)
Theorem path_exists_after_sanitize :
  forall (frames : nat) (embed : gmap string value) (key : string)
         (rest : list string),
    path_exists frames (VDict (sanitize_embed embed)) (CompList ["type"])
    = (if (2 <=? frames)%nat then Return true else Raise RecursionError)
    /\ path_exists frames (VDict (sanitize_embed embed))
         (CompList ("type" :: key :: rest))
       = (if (2 <=? frames)%nat then Return false else Raise RecursionError)
    /\ (key <> "type" ->
        path_exists frames (VDict (sanitize_embed embed)) (CompList (key :: rest))
        = path_exists frames (VDict embed) (CompList (key :: rest))).
Proof.
  intros frames embed key rest. unfold path_exists, sanitize_embed. simpl.
  destruct frames as [|[|frames]]; simpl;
    rewrite ?lookup_insert_eq; simpl; repeat split;
    intros Hne; by rewrite lookup_insert_ne.
Qed.

Lemma path_exists_after_sanitize_witness :
  let embed : gmap string value :=
    {[ "type" := VStr "video"; "image" := VDict {[ "url" := VStr "http://a/b.png" ]} ]} in
  path_exists 3 (VDict (sanitize_embed embed)) (CompList ["image"; "url"])
  = path_exists 3 (VDict embed) (CompList ["image"; "url"]).
Proof.
  intros embed.
  apply (proj2 (proj2 (path_exists_after_sanitize 3 embed "image" ["url"]))).
  discriminate.
Defined.

(** X3. The dotted string form and the list form agree on every non-empty
    list of keys that contain no dot, whatever the number of calls
    allowed.  The string form never denotes the empty path: the empty
    string asks for the key "". *)
Theorem path_exists_dotted :
  forall (frames : nat) (embed : value),
    (forall keys : list string,
        keys <> [] ->
        Forall (fun key => has_char "." key = false) keys ->
        path_exists frames embed (CompStr (join "." keys))
        = path_exists frames embed (CompList keys))
    /\ (forall s, components_of (CompStr s) <> [])
    /\ path_exists frames embed (CompStr "")
       = path_exists frames embed (CompList [""]).
Proof.
  intros frames embed. repeat split.
  - intros keys Hne Hfree. unfold path_exists. simpl.
    by rewrite (split_join "." keys).
  - intros s. apply split_not_nil.
Qed.

Lemma path_exists_dotted_witness :
  let embed := VDict {[ "author" := VDict {[ "icon_url" := VStr "http://a/b.png" ]} ]} in
  path_exists 3 embed (CompStr (join "." ["author"; "icon_url"]))
  = path_exists 3 embed (CompList ["author"; "icon_url"])
  /\ path_exists 3 embed (CompStr "author.icon_url") = Return true.
Proof.
  intros embed. split; [|vm_compute; reflexivity].
  apply (proj1 (path_exists_dotted 3 embed) ["author"; "icon_url"]);
    [discriminate | repeat constructor].
Defined.

(** A key that itself contains a dot is out of reach of the string form. *)
Example path_exists_dotted_key :
  let embed := VDict {[ "a.b" := VInt 1 ]} in
  path_exists 3 embed (CompList ["a.b"]) = Return true
  /\ path_exists 3 embed (CompStr "a.b") = Return false.
Proof. vm_compute. auto. Qed.

End SanitizerMoreFacts.

(** ** litecord/images.py, continued *)

Module ImagesMoreFacts.
Import Py PyStr DataUri Base64 Images ImagesFacts PyStrFacts.

Lemma has_char_app (c : ascii) (a b : string) :
  has_char c (a ++ b) = has_char c a || has_char c b.
Proof.
  unfold has_char. induction a as [|x a IH]; [reflexivity|].
  rewrite append_cons. simpl. by rewrite IH, orb_assoc.
Qed.

Lemma length_append (a b : string) :
  String.length (a ++ b) = (String.length a + String.length b)%nat.
Proof.
  induction a as [|x a IH]; [reflexivity|].
  rewrite append_cons. simpl. by rewrite IH.
Qed.

(** Exactly two pieces: one separator, between two separator-free parts. *)
Lemma split_two (sep : ascii) (s a b : string) :
  split sep s = [a; b]
  <-> s = a ++ String sep b
      /\ has_char sep a = false /\ has_char sep b = false.
Proof.
  split.
  - intros Hs. pose proof (join_split sep s) as Hjoin.
    pose proof (split_pieces_free sep s) as Hfree.
    rewrite Hs in Hjoin, Hfree.
    pose proof (Forall_inv Hfree) as Ha.
    pose proof (Forall_inv (Forall_inv_tail Hfree)) as Hb.
    split; [|done]. symmetry. exact Hjoin.
  - intros (-> & Ha & Hb).
    rewrite split_app_sep by done. by rewrite split_no_sep.
Qed.

(** What the try block of parse_data_uri computes. *)
Lemma parse_data_uri_steps (uri : string) :
  parse_data_uri uri
  = match unpack2 (split ";" uri) with
    | Return (header, headered_data) =>
        match unpack2 (split ":" header) with
        | Return (_, given_mime) =>
            match unpack2 (split "," headered_data) with
            | Return (data_type, data) =>
                if String.eqb data_type "base64" then
                  match b64decode data with
                  | Return raw => Return (given_mime, raw)
                  | Raise _ => Raise (ImageError "data URI invalid syntax")
                  end
                else Raise (ImageError "Unknown data header")
            | Raise _ => Raise (ImageError "data URI invalid syntax")
            end
        | Raise _ => Raise (ImageError "data URI invalid syntax")
        end
    | Raise _ => Raise (ImageError "data URI invalid syntax")
    end.
Proof.
  unfold parse_data_uri, to_raw, try_except.
  destruct (unpack2 (split ";" uri)) as [[header hd]|e1] eqn:H1; simpl;
    [|by rewrite (unpack2_raises _ _ H1)].
  destruct (unpack2 (split ":" header)) as [[scheme mime]|e2] eqn:H2; simpl;
    [|by rewrite (unpack2_raises _ _ H2)].
  destruct (unpack2 (split "," hd)) as [[data_type data]|e3] eqn:H3; simpl;
    [|by rewrite (unpack2_raises _ _ H3)].
  destruct (String.eqb data_type "base64"); simpl; [|done].
  destruct (b64decode data) as [raw|e4] eqn:H4; simpl; [done|].
  by rewrite (b64decode_raises _ _ H4).
Qed.

Lemma uri_parts_split (uri scheme mime data_type data : string) :
  uri_parts uri scheme mime data_type data
  <-> exists header headered_data,
        split ";" uri = [header; headered_data]
        /\ split ":" header = [scheme; mime]
        /\ split "," headered_data = [data_type; data].
Proof.
  unfold uri_parts. split.
  - intros (-> & Hs1 & Hs2 & Hm1 & Hm2 & Ht1 & Ht2 & Hd1 & Hd2).
    exists (scheme ++ ":" ++ mime), (data_type ++ "," ++ data).
    repeat split.
    + apply split_two. repeat split.
      * by rewrite !append_assoc.
      * rewrite !has_char_app, Hs2, Hm2. reflexivity.
      * rewrite !has_char_app, Ht2, Hd2. reflexivity.
    + by apply split_two.
    + by apply split_two.
  - intros (header & hd & (-> & Hh & Hhd)%split_two
            & (-> & Hs & Hm)%split_two & (-> & Ht & Hd)%split_two).
    change (String ":" mime) with (":" ++ mime) in Hh.
    change (String "," data) with ("," ++ data) in Hhd.
    rewrite !has_char_app in Hh, Hhd.
    apply orb_false_iff in Hh as [Hs' [_ Hm']%orb_false_iff].
    apply orb_false_iff in Hhd as [Ht' [_ Hd']%orb_false_iff].
    repeat split; try done.
    by rewrite !append_assoc.
Qed.

Lemma parse_data_uri_returns (uri mime : string) (raw : bytes) :
  parse_data_uri uri = Return (mime, raw)
  <-> exists scheme data,
        uri_parts uri scheme mime "base64" data
        /\ b64decode data = Return raw.
Proof.
  rewrite parse_data_uri_steps. split.
  - destruct (unpack2 (split ";" uri)) as [[header hd]|] eqn:H1; [|done].
    destruct (unpack2 (split ":" header)) as [[scheme mime']|] eqn:H2; [|done].
    destruct (unpack2 (split "," hd)) as [[data_type data]|] eqn:H3; [|done].
    destruct (String.eqb data_type "base64") eqn:Hty; [|done].
    destruct (b64decode data) as [raw'|] eqn:H4; [|done].
    intros [= <- <-]. apply String.eqb_eq in Hty as ->.
    apply unpack2_returns in H1, H2, H3.
    exists scheme, data. split; [|done].
    apply uri_parts_split. eauto.
  - intros (scheme & data & (header & hd & H1 & H2 & H3)%uri_parts_split & H4).
    rewrite H1. simpl. rewrite H2. simpl. rewrite H3. simpl. by rewrite H4.
Qed.

(** X4. parse_data_uri accepts exactly the strings scheme:mime;base64,data
    whose parts are free of the separators and whose data decodes; it
    returns the mime part and the decoded data.  The scheme part is not
    looked at. *)
Theorem parse_data_uri_accepts :
  forall (uri mime : string) (raw : bytes),
    parse_data_uri uri = Return (mime, raw)
    <-> exists scheme data,
          uri_parts uri scheme mime "base64" data
          /\ b64decode data = Return raw.
Proof. intros. apply parse_data_uri_returns. Qed.

Lemma parse_data_uri_accepts_witness :
  parse_data_uri "cid:image/png;base64,aGk=" = Return ("image/png", [Byte.x68; Byte.x69])
  /\ exists scheme data,
       uri_parts "cid:image/png;base64,aGk=" scheme "image/png" "base64" data
       /\ b64decode data = Return [Byte.x68; Byte.x69].
Proof.
  split; [reflexivity|].
  apply (proj1 (parse_data_uri_accepts "cid:image/png;base64,aGk=" "image/png"
                  [Byte.x68; Byte.x69])).
  reflexivity.
Defined.

(** X5. The two error messages: "Unknown data header" is raised exactly
    for a string of the form scheme:mime;type,data whose type is not
    base64 (the data is then not looked at); every other failure,
    undecodable base64 included, is "data URI invalid syntax". *)
Theorem parse_data_uri_errors :
  forall (uri : string),
    (parse_data_uri uri = Raise (ImageError "Unknown data header")
     <-> exists scheme mime data_type data,
           uri_parts uri scheme mime data_type data /\ data_type <> "base64")
    /\ (forall e, parse_data_uri uri = Raise e ->
          e = ImageError "Unknown data header"
          \/ e = ImageError "data URI invalid syntax").
Proof.
  intros uri. rewrite parse_data_uri_steps. split; [split|].
  - destruct (unpack2 (split ";" uri)) as [[header hd]|] eqn:H1; [|done].
    destruct (unpack2 (split ":" header)) as [[scheme mime']|] eqn:H2; [|done].
    destruct (unpack2 (split "," hd)) as [[data_type data]|] eqn:H3; [|done].
    destruct (String.eqb data_type "base64") eqn:Hty;
      [by destruct (b64decode data)|].
    intros _. apply String.eqb_neq in Hty.
    apply unpack2_returns in H1, H2, H3.
    exists scheme, mime', data_type, data. split; [|done].
    apply uri_parts_split. eauto.
  - intros (scheme & mime & data_type & data
            & (header & hd & H1 & H2 & H3)%uri_parts_split & Hty).
    rewrite H1. simpl. rewrite H2. simpl. rewrite H3. simpl.
    apply String.eqb_neq in Hty. by rewrite Hty.
  - intros e.
    destruct (unpack2 (split ";" uri)) as [[header hd]|]; [|intros [= <-]; auto].
    destruct (unpack2 (split ":" header)) as [[scheme mime']|]; [|intros [= <-]; auto].
    destruct (unpack2 (split "," hd)) as [[data_type data]|]; [|intros [= <-]; auto].
    destruct (String.eqb data_type "base64"); [|intros [= <-]; auto].
    destruct (b64decode data); [done | intros [= <-]; auto].
Qed.

Lemma parse_data_uri_errors_witness :
  parse_data_uri "data:image/png;hex,6869" = Raise (ImageError "Unknown data header").
Proof.
  apply (proj2 (proj1 (parse_data_uri_errors "data:image/png;hex,6869"))).
  exists "data", "image/png", "hex", "6869".
  split; [|discriminate]. repeat split.
Defined.

(** *** The size of what is decoded *)

Lemma a2b_base64_loop_length (data : string) :
  forall quad_pos leftchar pads out raw,
    a2b_base64_loop data quad_pos leftchar pads out = Return raw ->
    (4 * length raw
     <= 4 * length out + 3 * String.length data + quad_credit quad_pos)%nat.
Proof.
  induction data as [|c rest IH]; intros quad_pos leftchar pads out raw;
    cbn [a2b_base64_loop String.length].
  - destruct quad_pos as [|[|?]]; intros [= <-]. rewrite length_rev. simpl. lia.
  - destruct (Ascii.eqb c "="%char).
    + destruct (2 <=? quad_pos)%nat.
      * destruct (4 <=? quad_pos + S pads)%nat.
        -- intros [= <-]. rewrite length_rev. lia.
        -- intros Hrun. apply IH in Hrun. lia.
      * intros Hrun. apply IH in Hrun. lia.
    + destruct (b64_index c).
      * destruct quad_pos as [|[|[|?]]]; intros Hrun; apply IH in Hrun;
          simpl in *; lia.
      * intros Hrun. apply IH in Hrun. lia.
Qed.

Lemma b64decode_length (data : string) (raw : bytes) :
  b64decode data = Return raw ->
  (4 * length raw <= 3 * String.length data)%nat.
Proof.
  unfold b64decode. destruct (is_ascii_str data); [|done].
  intros Hrun%a2b_base64_loop_length. simpl in Hrun. lia.
Qed.

(** X6. What parse_data_uri returns is at most three quarters as long as
    the data part: four times the number of decoded bytes, plus three
    times the length of the mime type and of the nine characters that
    every accepted URI spends on separators and on the word base64, is at
    most three times the length of the URI. *)
Theorem parse_data_uri_size :
  forall (uri mime : string) (raw : bytes),
    parse_data_uri uri = Return (mime, raw) ->
    (4 * length raw + 3 * (String.length mime + 9) <= 3 * String.length uri)%nat.
Proof.
  intros uri mime raw (scheme & data & (-> & _) & Hdec)%parse_data_uri_returns.
  apply b64decode_length in Hdec.
  rewrite !length_append. simpl. lia.
Qed.

Lemma parse_data_uri_size_witness :
  (4 * length [Byte.x68; Byte.x69] + 3 * (String.length "image/png" + 9)
   <= 3 * String.length "data:image/png;base64,aGk=")%nat.
Proof.
  apply (parse_data_uri_size "data:image/png;base64,aGk=" "image/png"
           [Byte.x68; Byte.x69]).
  reflexivity.
Defined.

End ImagesMoreFacts.

(** ** Base64: encoding and decoding *)

Module Base64Facts.
Import Py PyStr DataUri Base64 Images ImagesFacts PyStrFacts ImagesMoreFacts.

(** *** Checks by enumeration *)

Lemma octets_all (p : N -> bool) :
  forallb p octets = true -> forall n, (n < 256)%N -> p n = true.
Proof.
  intros Hall n Hn. rewrite forallb_forall in Hall. apply Hall.
  unfold octets. apply in_map_iff. exists (N.to_nat n).
  split; [apply N2Nat.id|]. apply in_seq. lia.
Qed.

Lemma sextets_all (p : N -> bool) :
  forallb p sextets = true -> forall n, (n < 64)%N -> p n = true.
Proof.
  intros Hall n Hn. rewrite forallb_forall in Hall. apply Hall.
  unfold sextets. apply in_map_iff. exists (N.to_nat n).
  split; [apply N2Nat.id|]. apply in_seq. lia.
Qed.

Lemma octets_all2 (p : N -> N -> bool) :
  forallb (fun x => forallb (p x) octets) octets = true ->
  forall x y, (x < 256)%N -> (y < 256)%N -> p x y = true.
Proof.
  intros Hall x y Hx Hy.
  apply (octets_all (p x)); [|done].
  by apply (octets_all (fun x => forallb (p x) octets)).
Qed.

Lemma b64_char_index (n : N) :
  (n < 64)%N ->
  b64_index (b64_char n) = Some n /\ Ascii.eqb (b64_char n) "="%char = false.
Proof.
  intros Hn.
  pose proof (sextets_all
    (fun n => bool_decide (b64_index (b64_char n) = Some n)
              && negb (Ascii.eqb (b64_char n) "="%char))) as Hall.
  specialize (Hall ltac:(vm_compute; reflexivity) n Hn).
  apply andb_true_iff in Hall as [H1 H2].
  apply bool_decide_eq_true in H1. apply negb_true_iff in H2. done.
Qed.

Lemma first_byte (x y : N) :
  (x < 256)%N -> (y < 256)%N ->
  (sextet1 x < 64)%N /\ (sextet2 x y < 64)%N
  /\ (N.lor (N.shiftl (sextet1 x) 2) (N.shiftr (sextet2 x y) 4) mod 256 = x)%N
  /\ N.land (sextet2 x y) 15 = N.shiftr y 4.
Proof.
  intros Hx Hy.
  pose proof (octets_all2
    (fun x y => (sextet1 x <? 64)%N && (sextet2 x y <? 64)%N
                && (N.lor (N.shiftl (sextet1 x) 2) (N.shiftr (sextet2 x y) 4)
                      mod 256 =? x)%N
                && (N.land (sextet2 x y) 15 =? N.shiftr y 4)%N)) as Hall.
  specialize (Hall ltac:(vm_compute; reflexivity) x y Hx Hy).
  repeat (apply andb_true_iff in Hall as [Hall ?]).
  repeat split; by (apply N.ltb_lt || apply N.eqb_eq).
Qed.

Lemma second_byte (y z : N) :
  (y < 256)%N -> (z < 256)%N ->
  (sextet3 y z < 64)%N
  /\ (N.lor (N.shiftl (N.shiftr y 4) 4) (N.shiftr (sextet3 y z) 2) mod 256 = y)%N
  /\ N.land (sextet3 y z) 3 = N.shiftr z 6.
Proof.
  intros Hy Hz.
  pose proof (octets_all2
    (fun y z => (sextet3 y z <? 64)%N
                && (N.lor (N.shiftl (N.shiftr y 4) 4) (N.shiftr (sextet3 y z) 2)
                      mod 256 =? y)%N
                && (N.land (sextet3 y z) 3 =? N.shiftr z 6)%N)) as Hall.
  specialize (Hall ltac:(vm_compute; reflexivity) y z Hy Hz).
  repeat (apply andb_true_iff in Hall as [Hall ?]).
  repeat split; by (apply N.ltb_lt || apply N.eqb_eq).
Qed.

Lemma third_byte (z : N) :
  (z < 256)%N ->
  (sextet4 z < 64)%N
  /\ (N.lor (N.shiftl (N.shiftr z 6) 6) (sextet4 z) mod 256 = z)%N.
Proof.
  intros Hz.
  pose proof (octets_all
    (fun z => (sextet4 z <? 64)%N
              && (N.lor (N.shiftl (N.shiftr z 6) 6) (sextet4 z) mod 256 =? z)%N))
    as Hall.
  specialize (Hall ltac:(vm_compute; reflexivity) z Hz).
  apply andb_true_iff in Hall as [H1 H2].
  split; by (apply N.ltb_lt || apply N.eqb_eq).
Qed.

Lemma N_of_byte_lt (b : Byte.byte) : (N_of_byte b < 256)%N.
Proof. apply N_ascii_bounded. Qed.

Lemma byte_of_N_mod (n : N) (b : Byte.byte) :
  (n mod 256 = N_of_byte b)%N -> byte_of_N n = b.
Proof.
  unfold byte_of_N, N_of_byte. intros ->.
  by rewrite ascii_N_embedding, byte_of_ascii_of_byte.
Qed.

(** *** One character, one quad *)

Lemma loop_sextet (n : N) (rest : string) quad_pos leftchar pads out :
  (n < 64)%N ->
  a2b_base64_loop (String (b64_char n) rest) quad_pos leftchar pads out
  = match quad_pos with
    | O => a2b_base64_loop rest 1 n 0 out
    | S O =>
        a2b_base64_loop rest 2 (N.land n 15) 0
          (byte_of_N (N.lor (N.shiftl leftchar 2) (N.shiftr n 4)) :: out)
    | S (S O) =>
        a2b_base64_loop rest 3 (N.land n 3) 0
          (byte_of_N (N.lor (N.shiftl leftchar 4) (N.shiftr n 2)) :: out)
    | _ =>
        a2b_base64_loop rest 0 0%N 0
          (byte_of_N (N.lor (N.shiftl leftchar 6) n) :: out)
    end.
Proof.
  intros [Hidx Hpad]%b64_char_index.
  cbn [a2b_base64_loop]. by rewrite Hpad, Hidx.
Qed.

Lemma loop_two_sextets (x : Byte.byte) (yn : N) (rest : string) leftchar pads out :
  (yn < 256)%N ->
  a2b_base64_loop
    (String (b64_char (sextet1 (N_of_byte x)))
       (String (b64_char (sextet2 (N_of_byte x) yn)) rest))
    0 leftchar pads out
  = a2b_base64_loop rest 2 (N.shiftr yn 4) 0 (x :: out).
Proof.
  intros Hy.
  destruct (first_byte (N_of_byte x) yn (N_of_byte_lt x) Hy)
    as (H1 & H2 & Hbyte & Hleft).
  rewrite loop_sextet by done. rewrite loop_sextet by done.
  by rewrite Hleft, (byte_of_N_mod _ x Hbyte).
Qed.

Lemma loop_third_sextet (y : Byte.byte) (zn : N) (rest : string) out :
  (zn < 256)%N ->
  a2b_base64_loop
    (String (b64_char (sextet3 (N_of_byte y) zn)) rest)
    2 (N.shiftr (N_of_byte y) 4) 0 out
  = a2b_base64_loop rest 3 (N.shiftr zn 6) 0 (y :: out).
Proof.
  intros Hz.
  destruct (second_byte (N_of_byte y) zn (N_of_byte_lt y) Hz)
    as (H3 & Hbyte & Hleft).
  rewrite loop_sextet by done.
  by rewrite Hleft, (byte_of_N_mod _ y Hbyte).
Qed.

Lemma loop_fourth_sextet (z : Byte.byte) (rest : string) out :
  a2b_base64_loop
    (String (b64_char (sextet4 (N_of_byte z))) rest)
    3 (N.shiftr (N_of_byte z) 6) 0 out
  = a2b_base64_loop rest 0 0%N 0 (z :: out).
Proof.
  destruct (third_byte (N_of_byte z) (N_of_byte_lt z)) as (H4 & Hbyte).
  rewrite loop_sextet by done.
  by rewrite (byte_of_N_mod _ z Hbyte).
Qed.

Lemma by_threes {A} (P : list A -> Prop) :
  P [] ->
  (forall x, P [x]) ->
  (forall x y, P [x; y]) ->
  (forall x y z rest, P rest -> P (x :: y :: z :: rest)) ->
  forall l, P l.
Proof.
  intros H0 H1 H2 H3.
  assert (Hall : forall n l, (length l <= n)%nat -> P l).
  { induction n as [|n IH]; intros l Hlen.
    - destruct l; [done | simpl in Hlen; lia].
    - destruct l as [|x [|y [|z rest]]]; [done..|].
      apply H3, IH. simpl in Hlen. lia. }
  intros l. by apply (Hall (length l)).
Qed.

Lemma loop_b64encode (data : bytes) :
  forall leftchar pads out,
    a2b_base64_loop (b64encode data) 0 leftchar pads out
    = Return (rev out ++ data)%list.
Proof.
  induction data as [|x|x y|x y z rest IH] using by_threes;
    intros leftchar pads out; cbn [b64encode].
  - simpl. by rewrite app_nil_r.
  - rewrite loop_two_sextets by done.
    cbn. by rewrite <- ?app_assoc.
  - rewrite loop_two_sextets by apply N_of_byte_lt.
    rewrite loop_third_sextet by done.
    cbn. by rewrite <- ?app_assoc.
  - rewrite loop_two_sextets by apply N_of_byte_lt.
    rewrite loop_third_sextet by apply N_of_byte_lt.
    rewrite loop_fourth_sextet, IH.
    cbn. by rewrite <- ?app_assoc.
Qed.

(** *** The characters of an encoding *)

Lemma b64_char_plain (n : N) :
  (n < 64)%N ->
  (N_of_ascii (b64_char n) <? 128)%N = true
  /\ Ascii.eqb ";" (b64_char n) = false
  /\ Ascii.eqb "," (b64_char n) = false.
Proof.
  intros Hn.
  pose proof (sextets_all
    (fun n => (N_of_ascii (b64_char n) <? 128)%N
              && negb (Ascii.eqb ";" (b64_char n))
              && negb (Ascii.eqb "," (b64_char n)))) as Hall.
  specialize (Hall ltac:(vm_compute; reflexivity) n Hn).
  repeat (apply andb_true_iff in Hall as [Hall ?]).
  repeat split; try done; by apply negb_true_iff.
Qed.

Lemma b64_char_is_plain (n : N) : (n < 64)%N -> plain (b64_char n) = true.
Proof.
  intros Hn. destruct (b64_char_plain n Hn) as (H1 & H2 & H3).
  unfold plain. by rewrite H1, H2, H3.
Qed.

Lemma b64encode_plain (data : bytes) :
  forallb plain (list_ascii_of_string (b64encode data)) = true.
Proof.
  induction data as [|x|x y|x y z rest IH] using by_threes; cbn [b64encode].
  - done.
  - destruct (first_byte (N_of_byte x) 0 (N_of_byte_lt x) ltac:(lia))
      as (H1 & H2 & _).
    simpl. by rewrite !b64_char_is_plain.
  - destruct (first_byte (N_of_byte x) (N_of_byte y) (N_of_byte_lt x) (N_of_byte_lt y))
      as (H1 & H2 & _).
    destruct (second_byte (N_of_byte y) 0 (N_of_byte_lt y) ltac:(lia))
      as (H3 & _).
    simpl. by rewrite !b64_char_is_plain.
  - destruct (first_byte (N_of_byte x) (N_of_byte y) (N_of_byte_lt x) (N_of_byte_lt y))
      as (H1 & H2 & _).
    destruct (second_byte (N_of_byte y) (N_of_byte z) (N_of_byte_lt y) (N_of_byte_lt z))
      as (H3 & _).
    destruct (third_byte (N_of_byte z) (N_of_byte_lt z)) as (H4 & _).
    simpl. by rewrite !b64_char_is_plain, IH.
Qed.

Lemma plain_string (s : string) :
  forallb plain (list_ascii_of_string s) = true ->
  is_ascii_str s = true /\ has_char ";" s = false /\ has_char "," s = false.
Proof.
  unfold is_ascii_str, has_char.
  induction s as [|c rest IH];
    cbn [forallb existsb list_ascii_of_string]; [done|].
  intros [Hc Hrest]%andb_true_iff. destruct (IH Hrest) as (-> & -> & ->).
  unfold plain in Hc.
  apply andb_true_iff in Hc as [[-> ->%negb_true_iff]%andb_true_iff ->%negb_true_iff].
  done.
Qed.

Lemma b64decode_b64encode (data : bytes) :
  b64decode (b64encode data) = Return data.
Proof.
  unfold b64decode.
  destruct (plain_string _ (b64encode_plain data)) as (-> & _).
  apply loop_b64encode.
Qed.

(** X7. A data URI written with standard base64 is read back exactly:
    whatever the scheme and the mime type (as long as they contain neither
    ':' nor ';') and whatever the bytes, parse_data_uri returns the mime
    type and the bytes. *)
Theorem parse_data_uri_round_trip :
  forall (scheme mime : string) (data : bytes),
    has_char ":" scheme = false -> has_char ";" scheme = false ->
    has_char ":" mime = false -> has_char ";" mime = false ->
    parse_data_uri (scheme ++ ":" ++ mime ++ ";base64," ++ b64encode data)
    = Return (mime, data).
Proof.
  intros scheme mime data Hs1 Hs2 Hm1 Hm2.
  apply parse_data_uri_returns.
  exists scheme, (b64encode data). split; [|apply b64decode_b64encode].
  destruct (plain_string _ (b64encode_plain data)) as (_ & Hsemi & Hcomma).
  repeat split; done.
Qed.

Lemma parse_data_uri_round_trip_witness :
  parse_data_uri ("data" ++ ":" ++ "image/png" ++ ";base64,"
                  ++ b64encode [Byte.x89; Byte.x50; Byte.x4e; Byte.x47])
  = Return ("image/png", [Byte.x89; Byte.x50; Byte.x4e; Byte.x47]).
Proof.
  apply (parse_data_uri_round_trip "data" "image/png"
           [Byte.x89; Byte.x50; Byte.x4e; Byte.x47]); reflexivity.
Defined.

Example b64encode_png_magic :
  b64encode [Byte.x89; Byte.x50; Byte.x4e; Byte.x47] = "iVBORw==".
Proof. reflexivity. Qed.

(** *** Characters that the decoder skips *)

Lemma loop_strip (data : string) :
  forall quad_pos leftchar pads out,
    a2b_base64_loop (strip data) quad_pos leftchar pads out
    = a2b_base64_loop data quad_pos leftchar pads out.
Proof.
  induction data as [|c rest IH]; intros quad_pos leftchar pads out; [done|].
  cbn [strip]. unfold significant.
  destruct (Ascii.eqb c "="%char) eqn:Hpad; cbn [orb].
  - cbn [a2b_base64_loop]. rewrite Hpad.
    destruct (2 <=? quad_pos)%nat; [|apply IH].
    destruct (4 <=? quad_pos + S pads)%nat; [done | apply IH].
  - destruct (b64_index c) as [n|] eqn:Hidx.
    + rewrite bool_decide_eq_true_2 by eauto.
      cbn [a2b_base64_loop]. rewrite Hpad, Hidx.
      destruct quad_pos as [|[|[|?]]]; apply IH.
    + rewrite bool_decide_eq_false_2 by (by intros [? ?]).
      cbn [a2b_base64_loop]. rewrite Hpad, Hidx. apply IH.
Qed.

Lemma strip_ascii (data : string) :
  is_ascii_str data = true -> is_ascii_str (strip data) = true.
Proof.
  unfold is_ascii_str. induction data as [|c rest IH];
    cbn [strip forallb list_ascii_of_string]; [done|].
  intros [Hc Hrest]%andb_true_iff.
  destruct (significant c); cbn [forallb list_ascii_of_string];
    [rewrite Hc|]; by apply IH.
Qed.

(** X8. to_raw decodes leniently: in ASCII data, the characters that are
    neither in the base64 alphabet nor '=' (line breaks, blanks, ...) make
    no difference to the outcome. *)
Theorem to_raw_skips_other_characters :
  forall (data : string),
    is_ascii_str data = true ->
    to_raw "base64" (strip data) = to_raw "base64" data.
Proof.
  intros data Hascii. unfold to_raw, b64decode. simpl.
  by rewrite Hascii, (strip_ascii data Hascii), loop_strip.
Qed.

Lemma to_raw_skips_other_characters_witness :
  to_raw "base64" (strip ("aGVs" ++ String "010" "bG8= "))
  = to_raw "base64" ("aGVs" ++ String "010" "bG8= ")
  /\ to_raw "base64" ("aGVs" ++ String "010" "bG8= ")
     = Return (Some [Byte.x68; Byte.x65; Byte.x6c; Byte.x6c; Byte.x6f]).
Proof.
  split; [|reflexivity].
  apply (to_raw_skips_other_characters ("aGVs" ++ String "010" "bG8= ")).
  reflexivity.
Defined.

End Base64Facts.

(** ** litecord/blueprints/users.py, continued *)

Module UsersMoreFacts.
Import Py Dispatcher Users Reroll UsersFacts.
Local Open Scope list_scope.

Section Facts.
Context {db : Type} `{App db}.

(** *** The reroll as a search *)

Lemma try_reroll_loop_first_accepted attempts user_id preferred_username :
  forall w : world db,
    _try_reroll_loop attempts user_id preferred_username w
    = match first_accepted (accepts user_id preferred_username (w_db w))
              (w_draws w) attempts with
      | Some (i, d) =>
          (Return (candidate i), World d (S i) (w_dispatcher w) (w_calls w))
      | None =>
          (Return VNone,
           World (w_db w) (w_draws w + attempts) (w_dispatcher w) (w_calls w))
      end.
Proof.
  induction attempts as [|n IH]; intros w.
  - cbn [_try_reroll_loop first_accepted]. unfold ret.
    rewrite Nat.add_0_r. destruct w; reflexivity.
  - cbn [_try_reroll_loop first_accepted].
    unfold mbind, M_bind, bind, randint.
    fold (candidate (w_draws w)). unfold accepts at 1.
    destruct (truthy preferred_username) eqn:Hpref.
    + unfold db_read. cbn [w_db].
      destruct (truthy (fetchrow_existing_uid _ _ _)); cbn [negb].
      * rewrite IH. cbn [w_db w_draws w_dispatcher w_calls].
        rewrite Nat.add_succ_r. reflexivity.
      * unfold ret. reflexivity.
    + unfold try_, db_execute. cbn [w_db].
      destruct (execute _ (w_db w)) as [d|]; cbn.
      * reflexivity.
      * rewrite IH. cbn [w_db w_draws w_dispatcher w_calls].
        rewrite Nat.add_succ_r. reflexivity.
Qed.

(** X9. _try_reroll is a search through the next ten draws of the random
    source: it returns the first candidate that the database accepts and
    stops drawing there, or None after all ten were refused.  With a
    preferred username a candidate is accepted when the SELECT finds no
    user with that name and discriminator; without one, when the UPDATE of
    the user's discriminator goes through. *)
Theorem try_reroll_first_accepted :
  forall (user_id : Z) (preferred_username : value) (w : world db),
    _try_reroll user_id preferred_username w
    = match first_accepted (accepts user_id preferred_username (w_db w))
              (w_draws w) 10 with
      | Some (i, d) =>
          (Return (candidate i), World d (S i) (w_dispatcher w) (w_calls w))
      | None =>
          (Return VNone,
           World (w_db w) (w_draws w + 10) (w_dispatcher w) (w_calls w))
      end.
Proof. intros. apply try_reroll_loop_first_accepted. Qed.

Lemma first_accepted_reads accept (d : db) :
  (forall i d', accept i = Some d' -> d' = d) ->
  forall count start i d',
    first_accepted accept start count = Some (i, d') -> d' = d.
Proof.
  intros Hacc. induction count as [|n IH]; intros start i d'; simpl; [done|].
  destruct (accept start) as [d0|] eqn:Hstart.
  - intros [= <- <-]. by eapply Hacc.
  - apply IH.
Qed.

(** X10. With a preferred username _try_reroll only reads: whatever it
    returns, the database is as it was. *)
Theorem try_reroll_preferred_reads_only :
  forall (user_id : Z) (preferred_username : value) (w : world db),
    truthy preferred_username = true ->
    w_db (_try_reroll user_id preferred_username w).2 = w_db w.
Proof.
  intros user_id preferred_username w Hpref.
  unfold _try_reroll. rewrite try_reroll_loop_first_accepted.
  destruct (first_accepted _ _ _) as [[i d]|] eqn:Hfirst; [|done].
  simpl. eapply first_accepted_reads; [|exact Hfirst].
  intros j d'. unfold accepts. rewrite Hpref.
  destruct (truthy (fetchrow_existing_uid _ _ _)); intros; by simplify_eq.
Qed.

(** *** The username patch when nothing is in the way *)

(** X11. When check_username_usage refuses, _try_username_patch passes the
    refusal on and executes nothing.  When it agrees and the UPDATE of the
    username goes through, the user keeps the discriminator: the patch
    returns the stored one and draws no random number. *)
Theorem try_username_patch_without_conflict :
  forall (user_id : Z) (new_username : value) (w : world db),
    (forall e,
        check_username_usage new_username (w_db w) = Raise e ->
        _try_username_patch user_id new_username w = (Raise e, w))
    /\ (forall d,
          check_username_usage new_username (w_db w) = Return tt ->
          execute (UpdateUsername new_username user_id) (w_db w) = Some d ->
          _try_username_patch user_id new_username w
          = (Return (fetchval_discriminator user_id d),
             World d (w_draws w) (w_dispatcher w) (w_calls w))).
Proof.
  intros user_id new_username w. split.
  - intros e Hcheck. unfold _try_username_patch.
    rewrite bind_run. unfold db_check. by rewrite Hcheck.
  - intros d Hcheck Hexec. unfold _try_username_patch.
    rewrite bind_run. unfold db_check at 1. rewrite Hcheck.
    unfold try_. rewrite bind_run. unfold db_execute at 1. by rewrite Hexec.
Qed.

(** *** What a profile update returns *)

(** X13. The user object that a profile update returns, which is the
    payload of its dispatch_user call, is a dictionary without the key
    password_hash. *)
Theorem patch_me_hides_password_hash :
  forall (user_id : Z) (j : gmap string value) (w w' : world db) (user : value),
    patch_me user_id j w = (Return user, w') ->
    (exists d, user = VDict d /\ d !! "password_hash" = None)
    /\ Call dispatch_user [VInt user_id; VStr "USER_UPDATE"; user] ∈ w_calls w'.
Proof.
  intros user_id j w w' user Hrun.
  pose proof Hrun as Hcalls. apply patch_me_calls in Hcalls as [Hcalls _].
  split; [|rewrite Hcalls; set_solver].
  clear Hcalls. unfold patch_me in Hrun.
  do 10 (apply bind_returns in Hrun as (? & ? & _ & Hrun)).
  apply bind_returns in Hrun as (popped & w1 & Hpop & Hrun).
  do 6 (apply bind_returns in Hrun as (? & ? & _ & Hrun)).
  unfold ret in Hrun. injection Hrun as <- _.
  unfold lift in Hpop. injection Hpop as Hpop _.
  unfold pop in Hpop.
  match type of Hpop with
  | match ?u with _ => _ end = _ => destruct u as [| | | | | |d]; try discriminate
  end.
  destruct (d !! "password_hash"); [|discriminate].
  injection Hpop as <-. exists (delete "password_hash" d).
  split; [reflexivity | apply lookup_delete_eq].
Qed.

(** *** A body that changes nothing *)

Lemma to_update_other_key (j d : gmap string value) (key field : string) (v : value) :
  field <> key ->
  to_update j (VDict (<[key := v]> d)) field = to_update j (VDict d) field.
Proof.
  intros Hne. unfold to_update. destruct (j !! field) as [x|]; [|done].
  destruct (truthy x); [|done]. simpl. by rewrite lookup_insert_ne.
Qed.

(** The last part of patch_me: three dispatcher calls around three reads. *)
Lemma patch_me_dispatch_phase (user_id : Z) (user : value) (w : world db) :
  (dispatcher dispatch_user [VInt user_id; VStr "USER_UPDATE"; user];;
   public_user ← db_read (storage_get_user user_id false);
   guild_ids ← db_read (storage_get_user_guilds user_id);
   friend_ids ← db_read (storage_get_friend_ids user_id);
   dispatcher dispatch_many
     [VStr "guild"; VList (VInt <$> guild_ids); VStr "USER_UPDATE"; public_user];;
   dispatcher dispatch_many
     [VStr "friend"; VList (VInt <$> friend_ids); VStr "USER_UPDATE"; public_user];;
   ret user) w
  = (Return user,
     World (w_db w) (w_draws w)
       (publishMany Friend (storage_get_friend_ids user_id (w_db w)) "USER_UPDATE"
          (storage_get_user user_id false (w_db w))
          (publishMany Guild (storage_get_user_guilds user_id (w_db w)) "USER_UPDATE"
             (storage_get_user user_id false (w_db w))
             (publishToUser user_id "USER_UPDATE" user (w_dispatcher w))))
       (w_calls w
        ++ [Call dispatch_user [VInt user_id; VStr "USER_UPDATE"; user];
            Call dispatch_many
              [VStr "guild"; VList (VInt <$> storage_get_user_guilds user_id (w_db w));
               VStr "USER_UPDATE"; storage_get_user user_id false (w_db w)];
            Call dispatch_many
              [VStr "friend"; VList (VInt <$> storage_get_friend_ids user_id (w_db w));
               VStr "USER_UPDATE"; storage_get_user user_id false (w_db w)]])).
Proof.
  unfold mbind, M_bind, bind, dispatcher, db_read, ret.
  cbn -[ids_of publishMany publishToUser].
  rewrite !ids_of_ints, <- !app_assoc. reflexivity.
Qed.

(** X14. A profile update whose body changes nothing (each of username,
    discriminator and email is missing, falsy or equal to the stored
    value, and there is no new password) writes nothing to the database
    and draws no random number, and it still makes its three dispatcher
    calls with the unchanged user. *)
Theorem patch_me_without_changes :
  forall (user_id : Z) (j d : gmap string value) (w : world db),
    storage_get_user user_id true (w_db w) = VDict d ->
    to_update j (VDict d) "username" = Return false ->
    to_update j (VDict d) "discriminator" = Return false ->
    to_update j (VDict d) "email" = Return false ->
    Body.falsy_or_absent (j !! "new_password") = true ->
    exists w',
      patch_me user_id j w = (Return (VDict (delete "password_hash" d)), w')
      /\ w_db w' = w_db w
      /\ w_draws w' = w_draws w
      /\ call_method <$> w_calls w'
         = (call_method <$> w_calls w)
           ++ [dispatch_user; dispatch_many; dispatch_many].
Proof.
  intros user_id j d w Hget Hname Hdiscrim Hemail Hpw.
  unfold patch_me.
  rewrite bind_run. unfold db_read at 1. rewrite Hget.
  rewrite bind_run. unfold db_read at 1.
  rewrite bind_run. unfold lift at 1. cbn [setitem].
  rewrite bind_run. unfold lift at 1.
  rewrite to_update_other_key, Hname by done.
  rewrite bind_run. unfold ret at 1.
  rewrite bind_run. unfold lift at 1.
  rewrite to_update_other_key, Hdiscrim by done.
  rewrite bind_run. unfold ret at 1.
  rewrite bind_run. unfold lift at 1.
  rewrite to_update_other_key, Hemail by done.
  rewrite bind_run. unfold ret at 1.
  rewrite bind_run.
  assert (Hnone :
    match j !! "new_password" with
    | Some new_password =>
        if truthy new_password then
          _check_pass j
            (VDict (<["password_hash" := fetchval_password_hash user_id (w_db w)]> d));;
          db_execute (UpdatePasswordHash (hash_data new_password) user_id)
        else ret ()
    | None => ret ()
    end w = (Return (), w)).
  { unfold Body.falsy_or_absent in Hpw.
    destruct (j !! "new_password") as [v|]; [|done].
    apply negb_true_iff in Hpw. by rewrite Hpw. }
  rewrite Hnone.
  rewrite bind_run. unfold lift at 1. unfold pop at 1.
  rewrite lookup_insert_eq, delete_insert_eq.
  rewrite patch_me_dispatch_phase.
  eexists. split; [reflexivity|]. cbn [w_db w_draws w_calls].
  repeat split. by rewrite fmap_app.
Qed.

(** *** Changing the email address *)

(** X15. A profile update that asks for a new email address (and changes
    neither username nor discriminator) writes nothing unless the body
    carries the right password: without a password field it raises
    KeyError, with a falsy password BadRequest 'password required', with a
    password that check_password refuses BadRequest 'password incorrect';
    in all three cases the world is left exactly as it was. *)
Theorem patch_me_email_needs_password :
  forall (user_id : Z) (j d : gmap string value) (w : world db),
    storage_get_user user_id true (w_db w) = VDict d ->
    to_update j (VDict d) "username" = Return false ->
    to_update j (VDict d) "discriminator" = Return false ->
    to_update j (VDict d) "email" = Return true ->
    (j !! "password" = None ->
     patch_me user_id j w = (Raise (KeyError "password"), w))
    /\ (forall password,
          j !! "password" = Some password -> truthy password = false ->
          patch_me user_id j w
          = (Raise (BadRequest "password required"
                      [("password", "password required")]), w))
    /\ (forall password,
          j !! "password" = Some password -> truthy password = true ->
          check_password (fetchval_password_hash user_id (w_db w)) password = false ->
          patch_me user_id j w
          = (Raise (BadRequest "password incorrect"
                      [("password", "password does not match.")]), w)).
Proof.
  intros user_id j d w Hget Hname Hdiscrim Hemail.
  assert (Hprefix : forall e w1,
    _check_pass j
      (VDict (<["password_hash" := fetchval_password_hash user_id (w_db w)]> d)) w
    = (Raise e, w1) ->
    patch_me user_id j w = (Raise e, w1)).
  { intros e w1 Hpass. unfold patch_me.
    rewrite bind_run. unfold db_read at 1. rewrite Hget.
    rewrite bind_run. unfold db_read at 1.
    rewrite bind_run. unfold lift at 1. cbn [setitem].
    rewrite bind_run. unfold lift at 1.
    rewrite to_update_other_key, Hname by done.
    rewrite bind_run. unfold ret at 1.
    rewrite bind_run. unfold lift at 1.
    rewrite to_update_other_key, Hdiscrim by done.
    rewrite bind_run. unfold ret at 1.
    rewrite bind_run. unfold lift at 1.
    rewrite to_update_other_key, Hemail by done.
    rewrite bind_run. rewrite (bind_run (_check_pass _ _)).
    rewrite Hpass. reflexivity. }
  repeat split.
  - intros Hnone. apply Hprefix. unfold _check_pass.
    rewrite bind_run. unfold lift. simpl. by rewrite Hnone.
  - intros password Hsome Hfalsy. apply Hprefix. unfold _check_pass.
    rewrite bind_run. unfold lift at 1. simpl. rewrite Hsome, Hfalsy. reflexivity.
  - intros password Hsome Htruthy Hwrong. apply Hprefix. unfold _check_pass.
    rewrite bind_run. unfold lift at 1. simpl. rewrite Hsome, Htruthy. simpl.
    rewrite bind_run. unfold lift at 1. simpl.
    rewrite lookup_insert_eq, Hwrong. reflexivity.
Qed.

(** *** Whose settings *)

(** X16. The statements of a settings update name no user (the UPDATE has
    no WHERE clause): the database after the update, and whether the
    update returned, are the same whoever the authenticated user is. *)
Theorem patch_current_settings_ignores_user :
  forall (user_id other_id : Z) (j : gmap string value) (w : world db),
    w_db (patch_current_settings user_id j w).2
    = w_db (patch_current_settings other_id j w).2
    /\ returns (patch_current_settings user_id j w).1
       = returns (patch_current_settings other_id j w).1.
Proof.
  intros user_id other_id j w. unfold patch_current_settings.
  rewrite !bind_run.
  destruct (for_each (map_to_list j) _ w) as [[[]|e] w1]; [|done].
  unfold mbind, M_bind, bind, dispatcher, db_read, ret. simpl. done.
Qed.

End Facts.

(** *** On the in-memory database *)

Import TableDB TableDBMore.

(** Alice asks for bob's name: the reroll only reads. *)
Lemma try_reroll_preferred_reads_only_witness :
  w_db (_try_reroll 1 (VStr "bob") world0).2 = w_db world0.
Proof.
  apply (try_reroll_preferred_reads_only 1 (VStr "bob") world0). reflexivity.
Defined.

Example try_reroll_first_free :
  _try_reroll 1 (VStr "bob") world_crowded
  = (Return VNone, World tables_crowded 10 engine0 [])
  /\ (_try_reroll 1 (VStr "bob") world0).1 = Return (VStr "4242")
  /\ (_try_reroll 1 VNone world0).1 = Return (VStr "4242").
Proof. vm_compute. auto. Qed.

Lemma patch_me_hides_password_hash_witness :
  exists user w',
    patch_me 1 {[ "username" := VStr "bob" ]} world0 = (Return user, w')
    /\ (exists d, user = VDict d /\ d !! "password_hash" = None).
Proof.
  destruct (patch_me 1 {[ "username" := VStr "bob" ]} world0) as [r w'] eqn:Hrun.
  assert (Hr : returns r = true).
  { apply (f_equal fst) in Hrun. simpl in Hrun. rewrite <- Hrun.
    vm_compute; reflexivity. }
  destruct r as [user|e]; [|discriminate].
  exists user, w'. split; [reflexivity|].
  exact (proj1 (patch_me_hides_password_hash 1 _ world0 w' user Hrun)).
Defined.

(** Alice sends her own name again. *)
Lemma patch_me_without_changes_witness :
  exists w',
    patch_me 1 {[ "username" := VStr "alice" ]} world0
    = (Return (VDict (delete "password_hash" alice_user)), w')
    /\ w_db w' = w_db world0
    /\ w_draws w' = w_draws world0
    /\ call_method <$> w_calls w'
       = (call_method <$> w_calls world0)
         ++ [dispatch_user; dispatch_many; dispatch_many].
Proof.
  apply (patch_me_without_changes 1 {[ "username" := VStr "alice" ]} alice_user world0);
    vm_compute; reflexivity.
Defined.

(** Alice asks for a new address with a wrong password. *)
Lemma patch_me_email_needs_password_witness :
  patch_me 1 {[ "email" := VStr "a@example.net"; "password" := VStr "guess" ]} world0
  = (Raise (BadRequest "password incorrect"
              [("password", "password does not match.")]), world0).
Proof.
  destruct (patch_me_email_needs_password 1
              {[ "email" := VStr "a@example.net"; "password" := VStr "guess" ]}
              alice_user world0) as (_ & _ & Hwrong);
    [vm_compute; reflexivity..|].
  apply (Hwrong (VStr "guess")); vm_compute; reflexivity.
Defined.

(** With the right password the address is stored. *)
Example patch_me_email_changes :
  let (r, w') :=
    patch_me 1 {[ "email" := VStr "a@example.net"; "password" := VStr "pw" ]} world0 in
  returns r = true
  /\ row_email <$> find_user 1 (w_db w') = Some "a@example.net".
Proof. vm_compute. auto. Qed.

End UsersMoreFacts.

(** ** litecord/gateway/schemas.py, continued *)

Module GatewaySchemasMoreFacts.
Import Py GatewaySchemas GatewaySchemasFacts.

Ltac split_andb :=
  repeat match goal with
         | H : _ && _ = true |- _ => apply andb_true_iff in H as [? ?]
         end.

(** X17. In an identify payload that validation accepts, every optional
    entry that is present has its declared type: "s" is a number (and not
    a boolean), the data field "d" is a mapping, and inside it "compress"
    is a boolean, "large_threshold" a number and "presence" a mapping.  A
    null in any of these places is rejected. *)
Theorem identify_optional_fields :
  forall (allow_unknown : bool) (d : gmap string value),
    validate allow_unknown (VDict d) IDENTIFY_SCHEMA = Return (VDict d) ->
    (forall s, d !! "s" = Some s -> has_type TNumber s = true)
    /\ (forall data, d !! "d" = Some data -> has_type TDict data = true)
    /\ (forall v, payload_field (VDict d) "compress" = Some v ->
          has_type TBoolean v = true)
    /\ (forall v, payload_field (VDict d) "large_threshold" = Some v ->
          has_type TNumber v = true)
    /\ (forall v, payload_field (VDict d) "presence" = Some v ->
          has_type TDict v = true).
Proof.
  intros allow_unknown d Hacc.
  apply validate_accepts in Hacc as (d' & [= <-] & Hv).
  unfold validate_mapping in Hv.
  cbn [validate_rules IDENTIFY_SCHEMA BASE app] in Hv.
  cbn [is_None negb andb rules_required] in Hv.
  split_andb.
  split; [|split].
  - intros s Hs. rewrite Hs in *. by split_andb.
  - intros data Hd. rewrite Hd in *. by split_andb.
  - unfold payload_field.
    destruct (d !! "d") as [data|]; [|by repeat split].
    split_andb. destruct data; try done. split_andb.
    repeat split; intros v Hv; rewrite Hv in *; by split_andb.
Qed.

Lemma identify_optional_fields_witness :
  let d : gmap string value :=
    {[ "op" := VInt 2; "s" := VInt 7;
       "d" := VDict {[ "token" := VStr "abc"; "compress" := VBool false;
                       "large_threshold" := VInt 250 ]} ]} in
  validate false (VDict d) IDENTIFY_SCHEMA = Return (VDict d)
  /\ (forall v, payload_field (VDict d) "compress" = Some v ->
        has_type TBoolean v = true)
  /\ (forall v, payload_field (VDict d) "large_threshold" = Some v ->
        has_type TNumber v = true).
Proof.
  intros d.
  assert (Hacc : validate false (VDict d) IDENTIFY_SCHEMA = Return (VDict d))
    by (vm_compute; reflexivity).
  split; [exact Hacc|].
  destruct (identify_optional_fields false d Hacc) as (_ & _ & Hc & Ht & _).
  split; [exact Hc | exact Ht].
Defined.

(** A boolean is not a number, and null is not a value. *)
Example identify_rejects_boolean_threshold :
  returns (validate true
             (VDict {[ "op" := VInt 2;
                       "d" := VDict {[ "token" := VStr "abc";
                                       "large_threshold" := VBool true ]} ]})
             IDENTIFY_SCHEMA) = false
  /\ returns (validate true
               (VDict {[ "op" := VInt 2; "d" := VNone ]})
               IDENTIFY_SCHEMA) = false.
Proof. vm_compute. auto. Qed.

End GatewaySchemasMoreFacts.

(** ** litecord/blueprints/users.py: the profile routes *)

Module UsersReadFacts.
Import Py Dispatcher Users UsersRead.
Local Open Scope list_scope.

Section Facts.
Context {db : Type} `{App db} `{ProfileQueries db}.

(** X18. get_profile answers 404 with an empty body when the peer is not
    found.  Otherwise it answers 200, and the mutual guilds of its body
    are the fetched guild ids in ascending numeric order, each once per
    fetched row, each with the peer's nickname in that guild. *)
Theorem get_profile_mutual_guilds_sorted :
  forall (user_id peer_id : Z) (d : db),
    (truthy (storage_get_user peer_id false d) = false ->
     get_profile user_id peer_id d = (VStr "", 404))
    /\ (truthy (storage_get_user peer_id false d) = true ->
        exists ids,
          (get_profile user_id peer_id d).2 = 200
          /\ getitem (get_profile user_id peer_id d).1 "mutual_guilds"
             = Return (VList (mutual_guild_entry peer_id d <$> ids))
          /\ Sorted Z.le ids
          /\ ids ≡ₚ fetch_mutual_guilds user_id peer_id d).
Proof.
  intros user_id peer_id d. unfold get_profile. split; intros ->; [done|].
  exists (sorted (fetch_mutual_guilds user_id peer_id d)).
  cbn [negb jsonify fst snd]. repeat split.
  - apply (Sorted_merge_sort Z.le).
  - apply (merge_sort_Permutation Z.le).
Qed.

(** *** Sets as lists of distinct elements *)

Lemma set_add_elem_of (x y : value) (s : list value) :
  y ∈ set_add x s <-> y = x \/ y ∈ s.
Proof.
  unfold set_add. case_bool_decide as Hin.
  - split; [by right | intros [->|?]; done].
  - rewrite elem_of_app, list_elem_of_singleton. tauto.
Qed.

Lemma set_add_NoDup (x : value) (s : list value) :
  NoDup s -> NoDup (set_add x s).
Proof.
  intros Hs. unfold set_add. case_bool_decide as Hin; [done|].
  apply NoDup_app. repeat split; [done| |apply NoDup_singleton].
  intros y Hy ->%list_elem_of_singleton. done.
Qed.

Lemma set_union_spec (t : list value) :
  forall s, NoDup s ->
    NoDup (set_union s t)
    /\ forall id, id ∈ set_union s t <-> id ∈ s \/ id ∈ t.
Proof.
  unfold set_union. induction t as [|x t IH]; intros s Hs; simpl.
  - split; [done|]. intros id. rewrite elem_of_nil. tauto.
  - destruct (IH (set_add x s) (set_add_NoDup x s Hs)) as [Hnd Hin].
    split; [done|]. intros id.
    rewrite Hin, set_add_elem_of, elem_of_cons. tauto.
Qed.

Lemma friend_ids_spec (rels : list value) :
  forall acc s,
    NoDup acc ->
    friend_ids rels acc = Return s ->
    NoDup s /\ forall id, id ∈ s <-> id ∈ acc \/ is_friend_id id rels.
Proof.
  induction rels as [|rel rels IH]; intros acc s Hacc; simpl.
  - intros [= <-]. split; [done|]. intros id. split; [by left|].
    intros [?|(rel & user & Hin & _)]; [done|]. by apply elem_of_nil in Hin.
  - destruct (getitem rel "type") as [type|] eqn:Htype; simpl; [|done].
    case_bool_decide as Hfriend.
    + subst type.
      destruct (getitem rel "user") as [user|] eqn:Huser; simpl; [|done].
      destruct (getitem user "id") as [id0|] eqn:Hid; simpl; [|done].
      intros Hrun.
      apply IH in Hrun as [Hnd Hin]; [|by apply set_add_NoDup].
      split; [done|]. intros id. rewrite Hin, set_add_elem_of.
      split.
      * intros [[->|?]|(rel' & user' & Hrel & Hrest)]; [|by left|].
        -- right. exists rel, user. split; [left|]; done.
        -- right. exists rel', user'. split; [by right | done].
      * intros [?|(rel' & user' & Hrel & Ht & Hu & Hi)]; [by left; right|].
        apply elem_of_cons in Hrel as [->|Hrel].
        -- left; left. congruence.
        -- right. exists rel', user'. done.
    + intros Hrun. apply IH in Hrun as [Hnd Hin]; [|done].
      split; [done|]. intros id. rewrite Hin. split.
      * intros [?|(rel' & user' & Hrel & Hrest)]; [by left|].
        right. exists rel', user'. split; [by right | done].
      * intros [?|(rel' & user' & Hrel & Ht & Hrest)]; [by left|].
        apply elem_of_cons in Hrel as [->|Hrel].
        -- congruence.
        -- right. exists rel', user'. done.
Qed.

Lemma fetch_users_spec (d : db) (ids : list value) :
  forall users,
    fetch_users ids d = Return users ->
    exists ns,
      Forall2 (fun id n => int id = Return n) ids ns
      /\ users = (fun n => storage_get_user n false d) <$> ns.
Proof.
  induction ids as [|id ids IH]; intros users; simpl.
  - intros [= <-]. exists []. split; [constructor | done].
  - destruct (int id) as [n|] eqn:Hn; simpl; [|done].
    destruct (fetch_users ids d) as [users'|] eqn:Hrest; simpl; [|done].
    intros [= <-]. destruct (IH users' eq_refl) as (ns & Hall & ->).
    exists (n :: ns). split; [by constructor | done].
Qed.

(** X19. When the peer exists and get_mutual_friends answers, it answers
    200 with one user object per distinct friend id, and an id is among
    them exactly when it is a friend of the requesting user or a friend of
    the peer: the two friend sets are joined with [|], so a friend of only
    one of the two is listed as well.  (For relationships whose types and
    user ids are None, integers or strings.) *)
Theorem get_mutual_friends_lists_union :
  forall (user_id peer_id : Z) (d : db) (body : value) (status : Z),
    simple_key friend_type = true ->
    forallb simple_relationship (storage_get_relationships user_id d) = true ->
    forallb simple_relationship (storage_get_relationships peer_id d) = true ->
    truthy (storage_get_user peer_id false d) = true ->
    get_mutual_friends user_id peer_id d = Return (body, status) ->
    status = 200
    /\ exists (ids : list value) (ns : list Z),
         body = VList ((fun n => storage_get_user n false d) <$> ns)
         /\ Forall2 (fun id n => int id = Return n) ids ns
         /\ NoDup ids
         /\ forall id,
              id ∈ ids
              <-> is_friend_id id (storage_get_relationships user_id d)
                  \/ is_friend_id id (storage_get_relationships peer_id d).
Proof.
  intros user_id peer_id d body status _ _ _ Hpeer.
  unfold get_mutual_friends. rewrite Hpeer. cbn [negb].
  destruct (friend_ids (storage_get_relationships user_id d) [])
    as [uf|] eqn:Huf; simpl; [|done].
  destruct (friend_ids (storage_get_relationships peer_id d) [])
    as [pf|] eqn:Hpf; simpl; [|done].
  destruct (fetch_users (set_union uf pf) d) as [users|] eqn:Husers;
    simpl; [|done].
  intros [= <- <-]. split; [done|].
  apply friend_ids_spec in Huf as [Hnd_uf Huf]; [|constructor].
  apply friend_ids_spec in Hpf as [Hnd_pf Hpf]; [|constructor].
  apply fetch_users_spec in Husers as (ns & Hall & ->).
  destruct (set_union_spec pf uf Hnd_uf) as [Hnd Hin].
  exists (set_union uf pf), ns. repeat split; try done.
  - intros Hid. apply Hin in Hid as [Hid|Hid].
    + left. apply Huf in Hid as [Hid|Hid]; [by apply elem_of_nil in Hid | done].
    + right. apply Hpf in Hid as [Hid|Hid]; [by apply elem_of_nil in Hid | done].
  - intros [Hid|Hid]; apply Hin.
    + left. apply Huf. by right.
    + right. apply Hpf. by right.
Qed.

End Facts.

End UsersReadFacts.

(** ** litecord/blueprints/users.py: notes *)

Module UsersNotesFacts.
Import Py Body Dispatcher Users UsersNotes UsersFacts.
Local Open Scope list_scope.

Section Facts.
Context {db : Type} `{App db} `{NotesDB db}.

(** X20. put_note stores the note by INSERT, or by UPDATE when the INSERT
    hits the uniqueness constraint, and then makes exactly one dispatcher
    call: USER_NOTE_UPDATE to the author, with the target id and the note
    as strings.  A body without the key note raises before anything is
    stored or dispatched. *)
Theorem put_note_upserts_and_dispatches :
  forall (user_id target_id : Z) (j : value) (w : world db),
    (forall e, getitem j "note" = Raise e ->
               put_note user_id target_id j w = (Raise e, w))
    /\ (forall raw, getitem j "note" = Return raw -> is_scalar raw = true ->
        let note := VStr (str raw) in
        let told d :=
          (Return ("", 204),
           World d (w_draws w)
             (publishToUser user_id "USER_NOTE_UPDATE"
                (note_update_payload target_id note) (w_dispatcher w))
             (w_calls w
              ++ [Call dispatch_user
                    [VInt user_id; VStr "USER_NOTE_UPDATE";
                     note_update_payload target_id note]])) in
        put_note user_id target_id j w
        = match execute_note (InsertNote user_id target_id note) (w_db w) with
          | Some d => told d
          | None =>
              match execute_note (UpdateNote user_id target_id note) (w_db w) with
              | Some d => told d
              | None => (Raise UniqueViolationError, w)
              end
          end).
Proof.
  intros user_id target_id j w. split.
  - intros e Hnote. unfold put_note. rewrite bind_run. unfold lift.
    by rewrite Hnote.
  - intros raw Hnote _ note told. unfold put_note.
    rewrite bind_run. unfold lift at 1. rewrite Hnote.
    rewrite bind_run. unfold try_, db_execute_note. fold note.
    destruct (execute_note (InsertNote user_id target_id note) (w_db w)) as [d|].
    + unfold mbind, M_bind, bind, dispatcher, ret. reflexivity.
    + cbn [is_UniqueViolationError].
      destruct (execute_note (UpdateNote user_id target_id note) (w_db w)) as [d|];
        [|reflexivity].
      unfold mbind, M_bind, bind, dispatcher, ret. reflexivity.
Qed.

End Facts.

Import TableDB TableDBNotes.

(** Alice rewrites her note on bob: the INSERT is refused, the UPDATE
    stores the new text, and alice's sessions are told. *)
Lemma put_note_upserts_and_dispatches_witness :
  let w' := (put_note 1 2 (VDict {[ "note" := VInt 5 ]}) world_noted).2 in
  (put_note 1 2 (VDict {[ "note" := VInt 5 ]}) world_noted).1 = Return ("", 204)
  /\ noted_notes (w_db w') !! (1, 2) = Some (VStr "5")
  /\ w_calls w'
     = [Call dispatch_user
          [VInt 1; VStr "USER_NOTE_UPDATE";
           VDict {[ "id" := VStr "2"; "note" := VStr "5" ]}]].
Proof.
  assert (Hnote : getitem (VDict {[ "note" := VInt 5 ]}) "note" = Return (VInt 5))
    by (vm_compute; reflexivity).
  rewrite (proj2 (put_note_upserts_and_dispatches 1 2
                    (VDict {[ "note" := VInt 5 ]}) world_noted)
             (VInt 5) Hnote eq_refl).
  vm_compute. auto.
Defined.

End UsersNotesFacts.

(** ** The profile routes on the in-memory database *)

Module TableDBReadFacts.
Import Py Dispatcher Users UsersRead TableDB TableDBRead UsersReadFacts.

(** Alice looks at bob: carol, a friend of alice alone, is listed. *)
Lemma get_mutual_friends_lists_union_witness :
  exists body status,
    get_mutual_friends 1 2 tables_friends = Return (body, status)
    /\ status = 200
    /\ exists (ids : list value) (ns : list Z),
         body = VList ((fun n => table_get_user n false tables_friends) <$> ns)
         /\ Forall2 (fun id n => table_int id = Return n) ids ns
         /\ VStr "3" ∈ ids.
Proof.
  destruct (get_mutual_friends 1 2 tables_friends) as [[body status]|e] eqn:Hrun.
  - exists body, status. split; [reflexivity|].
    destruct (get_mutual_friends_lists_union 1 2 tables_friends body status)
      as (Hstatus & ids & ns & Hbody & Hint & _ & Hin);
      [vm_compute; reflexivity.. | exact Hrun |].
    split; [exact Hstatus|].
    exists ids, ns. split; [exact Hbody|]. split; [exact Hint|].
    apply Hin. left.
    exists (table_relationship 3), (VDict {[ "id" := VStr "3" ]}).
    split; [|split; [reflexivity | split; reflexivity]].
    apply list_elem_of_In. vm_compute. auto.
  - exfalso.
    assert (Hr : returns (get_mutual_friends 1 2 tables_friends) = true)
      by (vm_compute; reflexivity).
    by rewrite Hrun in Hr.
Defined.

Example get_profile_sorted :
  getitem (get_profile 1 2 tables_friends).1 "mutual_guilds"
  = Return (VList [VDict {[ "id" := VStr "10"; "nick" := VNone ]};
                   VDict {[ "id" := VStr "30"; "nick" := VNone ]}])
  /\ get_profile 1 9 tables_friends = (VStr "", 404).
Proof. vm_compute. auto. Qed.

End TableDBReadFacts.

(** ** litecord/embed/sanitizer.py: filling an embed in place *)

Module EmbedStoreFacts.
Import Py PyStr Sanitizer Images EmbedStore EmbedStoreLogic.
Local Open Scope list_scope.

Section Facts.
Context {embed_url : Type} `{MediaProxy embed_url}.

Local Abbreviation hval := (hval embed_url).
Local Abbreviation heap := (heap embed_url).
Local Abbreviation H := (H embed_url).

Lemma triple_bind {A B} (P : heap -> Prop) (m : H A) (k : A -> H B)
    (Q : A -> heap -> Prop) (R : B -> heap -> Prop) (E : heap -> Prop) :
  triple P m Q E -> (forall a, triple (Q a) (k a) R E) ->
  triple P (m ≫= k) R E.
Proof.
  intros Hm Hk h HP. specialize (Hm h HP).
  unfold mbind, H_bind, bind. destruct (m h) as [[a|e] h1]; [|done].
  by apply Hk.
Qed.

Lemma triple_ret {A} (P : heap -> Prop) (a : A)
    (Q : A -> heap -> Prop) (E : heap -> Prop) :
  (forall h, P h -> Q a h) -> triple P (ret a) Q E.
Proof. intros HQ h HP. by apply HQ. Qed.

Lemma triple_read {A} (P : heap -> Prop) (f : heap -> outcome A)
    (Q : A -> heap -> Prop) (E : heap -> Prop) :
  (forall h, P h -> match f h with Ok a => Q a h | Fail _ => E h end) ->
  triple P (read f) Q E.
Proof. intros Hf h HP. specialize (Hf h HP). unfold read. by destruct (f h). Qed.

Lemma triple_lift {A} (P : heap -> Prop) (r : outcome A)
    (Q : A -> heap -> Prop) (E : heap -> Prop) :
  (forall h, P h -> match r with Ok a => Q a h | Fail _ => E h end) ->
  triple P (lift r) Q E.
Proof. intros Hr h HP. specialize (Hr h HP). unfold lift. by destruct r. Qed.

Lemma triple_weaken {A} (P P' : heap -> Prop) (m : H A)
    (Q Q' : A -> heap -> Prop) (E E' : heap -> Prop) :
  triple P' m Q' E' -> (forall h, P h -> P' h) ->
  (forall a h, Q' a h -> Q a h) -> (forall h, E' h -> E h) ->
  triple P m Q E.
Proof.
  intros Hm HP HQ HE h Hh. specialize (Hm h (HP h Hh)).
  destruct (m h) as [[a|e] h1]; auto.
Qed.

(** Reading keeps what holds and tells what was read. *)
Lemma triple_read_keeps {A} (P : heap -> Prop) (f : heap -> outcome A) :
  triple P (read f) (fun a h => P h /\ f h = Ok a) P.
Proof. apply triple_read. intros h HP. by destruct (f h). Qed.

Lemma triple_lift_keeps {A} (P : heap -> Prop) (r : outcome A) :
  triple P (lift r) (fun a h => P h /\ r = Ok a) P.
Proof. apply triple_lift. intros h HP. by destruct r. Qed.

Lemma keeps_bind {A B} (P : heap -> Prop) (m : H A) (k : A -> H B) :
  keeps P m -> (forall a, keeps P (k a)) -> keeps P (m ≫= k).
Proof. intros Hm Hk. eapply triple_bind; [exact Hm | exact Hk]. Qed.

Lemma keeps_ret {A} (P : heap -> Prop) (a : A) : keeps P (ret a).
Proof. by apply triple_ret. Qed.

Lemma keeps_read {A} (P : heap -> Prop) (f : heap -> outcome A) :
  keeps P (read f).
Proof. apply triple_read. intros h HP. by destruct (f h). Qed.

Lemma keeps_lift {A} (P : heap -> Prop) (r : outcome A) : keeps P (lift r).
Proof. apply triple_lift. intros h HP. by destruct r. Qed.

Lemma keeps_if {A} (P : heap -> Prop) (b : bool) (m1 m2 : H A) :
  keeps P m1 -> keeps P m2 -> keeps P (if b then m1 else m2).
Proof. by destruct b. Qed.

Lemma keeps_outcome {A} (P : heap -> Prop) (m : H A) h o h' :
  keeps P m -> P h -> m h = (o, h') -> P h'.
Proof.
  intros Hm HP Hrun. specialize (Hm h HP). rewrite Hrun in Hm. by destruct o.
Qed.

(** *** Objects that stay *)

Lemma extends_dom (h h' : heap) (l : loc) :
  extends h h' -> l ∈ dom h -> l ∈ dom h'.
Proof.
  intros Hext Hl. apply elem_of_dom. rewrite (Hext l Hl). by apply elem_of_dom.
Qed.

Lemma extends_deref (h h' : heap) (l : loc) :
  extends h h' -> l ∈ dom h -> deref h' l = deref h l.
Proof.
  intros Hext Hl. unfold deref. rewrite !lookup_total_alt. by rewrite (Hext l Hl).
Qed.

Lemma keeps_md_client_req (P : heap -> Prop) config sess scope u ret_resp :
  json_allocates -> stable P ->
  keeps P (_md_client_req config sess scope u ret_resp).
Proof.
  intros Hjson Hstable. unfold _md_client_req.
  destruct (_mk_cfg_sess config sess) as [config' sess'].
  apply keeps_bind; [apply keeps_lift|]. intros u'.
  apply keeps_bind; [apply keeps_lift|]. intros request_url.
  apply keeps_bind; [apply keeps_lift|]. intros resp.
  destruct (status resp =? 200).
  - destruct ret_resp.
    + apply keeps_bind; [apply keeps_lift|]. intros data. apply keeps_ret.
    + apply keeps_bind; [|intros body; apply keeps_ret].
      intros h HP. destruct (resp_json resp h) as [r h'] eqn:Hrun.
      assert (P h') by (eapply Hstable; [exact HP|]; exact (Hjson _ _ _ _ Hrun)).
      by destruct r.
  - apply keeps_bind; [apply keeps_lift|]. intros body. apply keeps_ret.
Qed.

Lemma keeps_fetch_metadata (P : heap -> Prop) u config sess :
  json_allocates -> stable P -> keeps P (fetch_metadata u config sess).
Proof. apply keeps_md_client_req. Qed.

Lemma deref_insert (h : heap) (l l' : loc) (o : object embed_url) :
  deref (<[l := o]> h) l' = if decide (l = l') then o else deref h l'.
Proof.
  unfold deref. case_decide as Hl.
  - subst. by rewrite lookup_total_insert_eq.
  - by rewrite lookup_total_insert_ne.
Qed.

Lemma path_two (h : heap) (v : hval) (a b : string) :
  path_exists_list h v [a; b]
  = Ok (match sub ← getitem h v a; getitem h sub b with
        | Ok _ => true
        | Fail _ => false
        end).
Proof.
  cbn [path_exists_list].
  assert (Hcaught : forall v key e, getitem h v key = Fail e -> caught e = true).
  { intros v' key e. destruct v'; simpl; try (intros [= <-]; reflexivity).
    destruct (deref h l !! key); [done | intros [= <-]; reflexivity]. }
  destruct (getitem h v a) as [sub|e] eqn:Ha; simpl.
  - destruct (getitem h sub b) as [x|e] eqn:Hb; simpl; [done|].
    by rewrite (Hcaught _ _ _ Hb).
  - by rewrite (Hcaught _ _ _ Ha).
Qed.

(** *** What fill_embed may change *)

Lemma footprint_stable (h0 : heap) (embed : loc) : stable (footprint h0 embed).
Proof.
  intros h h' (Hnew & Hdom & Hkeep & Htop) Hext. repeat split.
  - by eapply extends_dom.
  - intros l Hl. eapply extends_dom; [done|]. by apply Hdom.
  - intros l Hl Hfirst. rewrite (Hext l (Hdom l Hl)). by apply Hkeep.
  - intros key Hkey. rewrite (extends_deref h h') by done. by apply Htop.
Qed.

Lemma footprint_sanitize (h0 : heap) (embed : loc) :
  footprint h0 embed
    (<[fresh (dom h0) := <["type" := HStr "rich"]> (deref h0 embed)]> h0).
Proof.
  pose proof (is_fresh (dom h0)) as Hfresh. repeat split.
  - apply elem_of_dom. rewrite lookup_insert_eq. eauto.
  - intros l Hl. apply elem_of_dom. rewrite lookup_insert_ne by set_solver.
    by apply elem_of_dom.
  - intros l Hl _. rewrite lookup_insert_ne by set_solver. done.
  - intros key _. rewrite deref_insert. by rewrite decide_True.
Qed.

Lemma footprint_setitem (h0 : heap) (embed : loc) (field key : string)
    (target v : hval) :
  field ∈ fields -> key ∈ written ->
  triple (fun h => footprint h0 embed h
                   /\ getitem h (HRef (fresh (dom h0))) field = Ok target)
         (setitem target key v)
         (fun _ => footprint h0 embed) (footprint h0 embed).
Proof.
  intros Hfield Hkey h [(Hnew & Hdom & Hkeep & Htop) Hget].
  destruct target; simpl; try by repeat split.
  assert (Hfirst : first_level h0 embed l).
  { exists field. split; [done|]. simpl in Hget.
    destruct (deref h (fresh (dom h0)) !! field) as [x|] eqn:Hx; [|done].
    injection Hget as ->. rewrite Htop in Hx.
    - rewrite lookup_insert_ne in Hx; [done|].
      intros <-. unfold fields in Hfield. set_solver.
    - unfold fields, written in *. set_solver. }
  repeat split.
  - apply elem_of_dom. destruct (decide (l = fresh (dom h0))) as [->|Hne].
    + rewrite lookup_insert_eq. eauto.
    + rewrite lookup_insert_ne by done. by apply elem_of_dom.
  - intros l' Hl'. apply elem_of_dom. destruct (decide (l = l')) as [->|Hne].
    + rewrite lookup_insert_eq. eauto.
    + rewrite lookup_insert_ne by done. apply elem_of_dom. by apply Hdom.
  - intros l' Hl' Hnot. rewrite lookup_insert_ne; [by apply Hkeep|].
    by intros <-.
  - intros key' Hkey'. rewrite deref_insert. case_decide as Hl.
    + rewrite Hl. rewrite lookup_insert_ne; [by apply Htop|].
      intros <-. done.
    + by apply Htop.
Qed.

Lemma footprint_assign_end (h0 : heap) (embed : loc) (field key : string)
    (v : hval) :
  field ∈ fields -> key ∈ written ->
  keeps (footprint h0 embed)
    (target ← read (fun h => getitem h (HRef (fresh (dom h0))) field);
     setitem target key v).
Proof.
  intros Hfield Hkey. eapply triple_bind; [apply triple_read_keeps|].
  intros target. by eapply footprint_setitem.
Qed.

Lemma footprint_assign_then {B} (h0 : heap) (embed : loc) (field key : string)
    (v : hval) (rest : H B) :
  field ∈ fields -> key ∈ written ->
  keeps (footprint h0 embed) rest ->
  keeps (footprint h0 embed)
    (target ← read (fun h => getitem h (HRef (fresh (dom h0))) field);
     setitem target key v;; rest).
Proof.
  intros Hfield Hkey Hrest. eapply triple_bind; [apply triple_read_keeps|].
  intros target. eapply triple_bind; [by eapply footprint_setitem|].
  intros ?. exact Hrest.
Qed.

Ltac keeps_steps :=
  repeat first
    [ apply keeps_fetch_metadata; [assumption | assumption]
    | apply keeps_ret
    | apply keeps_read
    | apply keeps_lift
    | apply footprint_assign_end; [unfold fields; set_solver | unfold written; set_solver]
    | apply footprint_assign_then; [unfold fields; set_solver | unfold written; set_solver |]
    | apply keeps_if
    | apply keeps_bind; [|intros ?] ].

Lemma triple_pure {A} (P : heap -> Prop) (phi : Prop) (m : H A)
    (Q : A -> heap -> Prop) (E : heap -> Prop) :
  (phi -> triple P m Q E) -> triple (fun h => P h /\ phi) m Q E.
Proof. intros Hm h [HP Hphi]. by apply Hm. Qed.

Lemma triple_run {A} (m : H A) (P : heap -> Prop)
    (Q : A -> heap -> Prop) (E : heap -> Prop) h o h' :
  triple P m Q E -> P h -> m h = (o, h') ->
  match o with Ok a => Q a h' | Fail _ => E h' end.
Proof. intros Hm HP Hrun. specialize (Hm h HP). by rewrite Hrun in Hm. Qed.

(** X21. Whatever fill_embed does, returning or raising, it leaves alone
    every object of the store other than the dictionaries under footer,
    author and image of the embed: the caller's own dictionary keeps its
    entries, its type included.  What it returns is a new dictionary, with
    the entries of the sanitized embed at every key it does not assign. *)
Theorem fill_embed_footprint :
  json_allocates ->
  forall (embed : loc) (h h' : heap) (o : outcome (option loc)),
    fill_embed (Some embed) h = (o, h') ->
    let new := fresh (dom h) in
    (new ∉ dom h)
    /\ (forall r, o = Ok r -> r = Some new)
    /\ (forall l, l ∈ dom h -> ~ first_level h embed l -> h' !! l = h !! l)
    /\ (forall key, key ∉ written ->
          deref h' new !! key = <["type" := HStr "rich"]> (deref h embed) !! key).
Proof.
  intros Hjson embed h h' o Hrun new.
  split; [apply is_fresh|].
  assert (Hall : triple (fun h1 => h1 = h) (fill_embed (Some embed))
                   (fun r h1 => footprint h embed h1 /\ r = Some new)
                   (footprint h embed)).
  { unfold fill_embed.
    eapply triple_bind with (Q := fun a h1 => footprint h embed h1 /\ a = new).
    { intros h1 ->. split; [apply footprint_sanitize | done]. }
    intros a. apply triple_pure. intros ->. cbv zeta. fold new.
    pose proof (footprint_stable h embed) as Hstable.
    do 6 (eapply triple_bind with (Q := fun _ => footprint h embed);
          [keeps_steps | intros ?]).
    by apply triple_ret. }
  pose proof (triple_run _ _ _ _ h o h' Hall eq_refl Hrun) as Hend.
  destruct o as [r|err].
  - destruct Hend as [(_ & _ & Hkeep & Htop) ->].
    split; [by intros r [= <-]|]. by split.
  - destruct Hend as (_ & _ & Hkeep & Htop).
    split; [by intros r [=]|]. by split.
Qed.

(** *** Assignments that the caller sees *)

Lemma shown_stable (embed f : loc) (icon p : hval) : stable (shown embed f icon p).
Proof.
  intros h h' (He & Hf & Hfooter & Hicon & Hp) Hext.
  repeat split; try by eapply extends_dom.
  all: by rewrite (extends_deref h h').
Qed.

Lemma triple_read_know {A} (P E : heap -> Prop) (f : heap -> outcome A) :
  (forall h, P h -> E h) ->
  triple P (read f) (fun a h => P h /\ f h = Ok a) E.
Proof. intros HE. apply triple_read. intros h HP. destruct (f h); auto. Qed.

Lemma triple_lift_know {A} (P E : heap -> Prop) (r : outcome A) :
  (forall h, P h -> E h) ->
  triple P (lift r) (fun a h => P h /\ r = Ok a) E.
Proof. intros HE. apply triple_lift. intros h HP. destruct r; auto. Qed.

Lemma dom_setitem (h : heap) (l l' : loc) (o : object embed_url) :
  l' ∈ dom h -> l' ∈ dom (<[l := o]> h).
Proof. intros Hl. rewrite dom_insert. set_solver. Qed.

Lemma shown_setitem_at (embed f : loc) (icon p : hval) (h : heap) (target : hval)
    (key : string) (v : hval) :
  shown embed f icon p h ->
  key <> "footer" -> key <> "icon_url" ->
  (key = "proxy_icon_url" -> target = HRef f -> v = p) ->
  shown embed f icon p (setitem target key v h).2.
Proof.
  intros (He & Hf & Hfooter & Hicon & Hp) Hk1 Hk2 Hsame.
  destruct target; simpl; try by repeat split.
  repeat split; try by apply dom_setitem.
  - rewrite deref_insert. case_decide as Hl; [|done].
    subst. by rewrite lookup_insert_ne.
  - rewrite deref_insert. case_decide as Hl; [|done].
    subst. by rewrite lookup_insert_ne.
  - rewrite deref_insert. case_decide as Hl; [|done]. subst.
    destruct (decide (key = "proxy_icon_url")) as [->|Hne].
    + rewrite lookup_insert_eq. f_equal. by apply Hsame.
    + by rewrite lookup_insert_ne.
Qed.

Lemma keeps_shown_setitem (embed f : loc) (icon p : hval) (target : hval) (key : string)
    (v : hval) :
  key ∈ ["proxy_url"; "width"; "height"] ->
  keeps (shown embed f icon p) (setitem target key v).
Proof.
  intros Hkey h Hshown.
  pose proof (shown_setitem_at embed f icon p h target key v Hshown) as Hset.
  destruct (setitem target key v h) as [[[]|err] h1]; simpl in Hset;
    apply Hset; set_solver.
Qed.

Lemma keeps_assign_proxy_icon (embed f : loc) (icon p : hval) (new : loc) (field : string) :
  proxify icon None = Ok p ->
  keeps (shown embed f icon p) (assign_proxy_icon new field).
Proof.
  intros Hproxy. unfold assign_proxy_icon.
  eapply triple_bind; [by apply triple_read_know|]. intros icon_url.
  eapply triple_bind; [apply triple_lift_know; by intros h [? _]|]. intros proxied.
  eapply triple_bind; [apply triple_read_know; by intros h [[? _] _]|]. intros sub.
  intros h [[[Hshown Hread] Hprox] Hsub].
  pose proof (shown_setitem_at embed f icon p h sub "proxy_icon_url" proxied Hshown)
    as Hset.
  destruct (setitem sub "proxy_icon_url" proxied h) as [[[]|err] h1];
    simpl in Hset; apply Hset; try done.
  all: intros _ ->; rewrite Hsub in Hread; simpl in Hread;
    destruct Hshown as (_ & _ & _ & Hicon & _); rewrite Hicon in Hread;
    injection Hread as <-; rewrite Hproxy in Hprox; by injection Hprox.
Qed.

Lemma footer_icon_exists (embed f : loc) (icon : hval) (new : loc) (E : heap -> Prop) :
  triple (footer_known embed f icon new)
    (read (fun h => path_exists h (HRef new) (CompStr "footer.icon_url")))
    (fun has h => footer_known embed f icon new h /\ has = true) E.
Proof.
  apply triple_read. intros h Hknown.
  destruct Hknown as (He & Hf & Hfooter & Hicon & Hnew).
  unfold path_exists.
  change (components_of (CompStr "footer.icon_url")) with ["footer"; "icon_url"].
  rewrite path_two. simpl. rewrite Hnew. simpl. rewrite Hicon.
  by repeat split.
Qed.

Lemma first_assign_proxy_icon (embed f : loc) (icon p : hval) (new : loc) (E : heap -> Prop) :
  proxify icon None = Ok p ->
  triple (footer_known embed f icon new) (assign_proxy_icon new "footer")
    (fun _ => shown embed f icon p) E.
Proof.
  intros Hproxy h (He & Hf & Hfooter & Hicon & Hnew).
  unfold assign_proxy_icon, mbind, H_bind, bind, read, lift. simpl.
  rewrite Hnew. simpl. rewrite Hicon, Hproxy. simpl.
  repeat split; try by apply dom_setitem.
  - rewrite deref_insert. case_decide as Hl; [|done].
    subst. by rewrite lookup_insert_ne.
  - rewrite deref_insert. rewrite decide_True by done.
    by rewrite lookup_insert_ne.
  - rewrite deref_insert. rewrite decide_True by done.
    by rewrite lookup_insert_eq.
Qed.

(** X22. fill_embed copies only the top of the embed: when the footer has
    an icon url that proxify accepts, the proxied url is assigned into the
    footer that the caller's embed holds, so the caller sees it as
    embed["footer"]["proxy_icon_url"], also when fill_embed raises later
    on. *)
Theorem fill_embed_writes_through :
  json_allocates ->
  forall (embed f : loc) (h h' : heap) (top fd : object embed_url)
         (icon p : hval) (o : outcome (option loc)),
    h !! embed = Some top -> top !! "footer" = Some (HRef f) ->
    h !! f = Some fd -> fd !! "icon_url" = Some icon ->
    proxify icon None = Ok p ->
    fill_embed (Some embed) h = (o, h') ->
    (footer ← getitem h' (HRef embed) "footer";
     getitem h' footer "proxy_icon_url") = Ok p.
Proof.
  intros Hjson embed f h h' top fd icon p o Hembed Hfooter Hf Hicon Hproxy Hrun.
  pose proof (is_fresh (dom h)) as Hfresh.
  assert (Hall : triple (fun h1 => h1 = h) (fill_embed (Some embed))
                   (fun _ => shown embed f icon p) (shown embed f icon p)).
  { unfold fill_embed.
    eapply triple_bind with (Q := footer_known embed f icon).
    { intros h1 ->. simpl.
      assert (embed ∈ dom h) by (apply elem_of_dom; eauto).
      assert (f ∈ dom h) by (apply elem_of_dom; eauto).
      assert (Htop : deref h embed = top)
        by (unfold deref; by rewrite lookup_total_alt, Hembed).
      assert (Hfd : deref h f = fd)
        by (unfold deref; by rewrite lookup_total_alt, Hf).
      repeat split; try by apply dom_setitem.
      - rewrite deref_insert, decide_False by set_solver. by rewrite Htop.
      - rewrite deref_insert, decide_False by set_solver. by rewrite Hfd.
      - rewrite deref_insert, decide_True by done.
        rewrite lookup_insert_ne by done. by rewrite Htop. }
    intros new. cbv zeta.
    pose proof (shown_stable embed f icon p) as Hstable.
    eapply triple_bind; [apply footer_icon_exists|]. intros has_footer_icon.
    apply triple_pure. intros ->.
    eapply triple_bind with (Q := fun _ => shown embed f icon p);
      [by apply first_assign_proxy_icon|].
    intros [].
    eapply triple_bind with (Q := fun _ => shown embed f icon p);
      [apply keeps_read | intros has_author_icon].
    eapply triple_bind with (Q := fun _ => shown embed f icon p).
    { apply keeps_if; [|apply keeps_ret].
      by apply (keeps_assign_proxy_icon embed f icon p new "author"). }
    intros [].
    eapply triple_bind with (Q := fun _ => shown embed f icon p);
      [apply keeps_read | intros has_image_url].
    eapply triple_bind with (Q := fun _ => shown embed f icon p);
      [|intros ?; by apply triple_ret].
    apply keeps_if; [|apply keeps_ret].
    repeat first
      [ apply keeps_fetch_metadata; [assumption | assumption]
      | apply keeps_ret
      | apply keeps_read
      | apply keeps_lift
      | apply keeps_shown_setitem; set_solver
      | apply keeps_if
      | apply keeps_bind; [|intros ?] ]. }
  pose proof (triple_run _ _ _ _ h o h' Hall eq_refl Hrun) as Hend.
  assert (Hshown : shown embed f icon p h') by (by destruct o).
  destruct Hshown as (_ & _ & Hfooter' & _ & Hp).
  simpl. rewrite Hfooter'. simpl. by rewrite Hp.
Qed.

(** *** The proxied URL *)

(** X23. The url that proxify returns.  Without a media proxy
    (MEDIA_PROXY is None) it is the url of the EmbedURL, IS_SSL is not
    looked at, and a value that is neither a string nor an EmbedURL comes
    back as it is.  With the media proxy at base it is
    proto://base/img/path, where proto is https exactly when IS_SSL is
    true and path is the to_md_path of the EmbedURL; a value that is
    neither a string nor an EmbedURL raises AttributeError, and a
    configuration without IS_SSL KeyError. *)
Theorem proxify_formats :
  forall (base : option string) (is_ssl : option value),
    app_config !! "MEDIA_PROXY"
    = Some (match base with Some text => VStr text | None => VNone end) ->
    app_config !! "IS_SSL" = is_ssl ->
    match base with
    | None =>
        (forall s, proxify (HStr s) None
                   = (e ← EmbedURL (HStr s); Ok (HStr (url e))))
        /\ (forall e, proxify (HUrl e) None = Ok (HStr (url e)))
        /\ (forall v, (forall s, v <> HStr s) -> (forall e, v <> HUrl e) ->
              proxify v None = Ok v)
    | Some text =>
        match is_ssl with
        | None =>
            forall e, proxify (HUrl e) None = Fail (Python (KeyError "IS_SSL"))
        | Some flag =>
            let proxied e :=
              HStr ((if Py.truthy flag then "https" else "http")
                    ++ "://" ++ text ++ "/img/" ++ to_md_path e) in
            (forall s, proxify (HStr s) None
                       = (e ← EmbedURL (HStr s); Ok (proxied e)))
            /\ (forall e, proxify (HUrl e) None = Ok (proxied e))
            /\ (forall v, (forall s, v <> HStr s) -> (forall e, v <> HUrl e) ->
                  proxify v None
                  = Fail (AttributeError
                      ("'" ++ type_name v ++ "' object has no attribute 'to_md_path'")))
        end
    end.
Proof.
  intros base is_ssl Hbase Hssl.
  assert (Hmd : forall scope u,
    make_md_req_url app_config scope u
    = match base with
      | None => Ok (match u with HUrl e => HStr (url e) | _ => u end)
      | Some text =>
          match is_ssl with
          | None => Fail (Python (KeyError "IS_SSL"))
          | Some flag =>
              match attr_to_md_path u with
              | Ok path =>
                  Ok (HStr ((if Py.truthy flag then "https" else "http")
                            ++ "://" ++ text ++ "/" ++ scope ++ "/" ++ path))
              | Fail err => Fail err
              end
          end
      end).
  { intros scope u. unfold make_md_req_url, _md_base. simpl.
    rewrite Hbase. destruct base as [text|]; simpl; [|done].
    rewrite Hssl. by destruct is_ssl. }
  assert (Hs : forall x,
    proxify (HStr x) None
    = match EmbedURL (HStr x) with
      | Ok e => make_md_req_url app_config "img" (HUrl e)
      | Fail err => Fail err
      end).
  { intros x. unfold proxify. simpl. by destruct (EmbedURL (HStr x)). }
  assert (Hother : forall v, (forall s, v <> HStr s) ->
                   proxify v None = make_md_req_url app_config "img" v).
  { intros v Hv. unfold proxify. simpl. destruct v; try done. by destruct (Hv s). }
  destruct base as [text|].
  - destruct is_ssl as [flag|];
      [|intros e; rewrite Hother by done; by rewrite Hmd].
    split; [|split].
    + intros x. rewrite Hs. destruct (EmbedURL (HStr x)); simpl; [by rewrite Hmd | done].
    + intros e. rewrite Hother by done. by rewrite Hmd.
    + intros v Hv He. rewrite Hother by done. rewrite Hmd.
      destruct v; try done. by destruct (He u).
  - split; [|split].
    + intros x. rewrite Hs. destruct (EmbedURL (HStr x)); simpl; [by rewrite Hmd | done].
    + intros e. rewrite Hother by done. by rewrite Hmd.
    + intros v Hv He. rewrite Hother by done. rewrite Hmd.
      destruct v; try done. by destruct (He u).
Qed.

(** *** The raw image *)

Lemma md_client_req_raw (config : option (gmap string value))
    (sess : option session_value) (scope : string) (u : hval) (h h' : heap)
    (v : hval) :
  _md_client_req config sess scope u true h = (Ok (inl v), h') -> v = HNone.
Proof.
  unfold _md_client_req. destruct (_mk_cfg_sess config sess) as [config' sess'].
  unfold mbind, H_bind, bind, lift, ret.
  destruct (match u with HUrl _ => Ok u | _ => HUrl <$> EmbedURL u end)
    as [u'|]; [|done].
  destruct (make_md_req_url config' scope u') as [request_url|]; [|done].
  destruct (get sess' request_url) as [resp|]; [|done].
  destruct (status resp =? 200).
  - by destruct (resp_read resp).
  - destruct (resp_text resp); [|done]. by intros [= <- _].
Qed.

(** X25. fetch_raw_img returns what _md_client_req returns for the scope
    img with ret_resp=True, and leaves the store as that call leaves it:
    the response with its bytes when the status is 200, None otherwise.
    Its own test [if not tup] never changes the answer. *)
Theorem fetch_raw_img_is_client_req :
  forall (u : hval) (config : option (gmap string value))
         (sess : option session_value) (h : heap),
    fetch_raw_img u config sess h = _md_client_req config sess "img" u true h
    /\ (forall v h', fetch_raw_img u config sess h = (Ok (inl v), h') ->
                     v = HNone).
Proof.
  intros u config sess h.
  assert (Hsame : fetch_raw_img u config sess h
                  = _md_client_req config sess "img" u true h).
  { unfold fetch_raw_img, mbind, H_bind, bind at 1.
    destruct (_md_client_req config sess "img" u true h) as [[tup|err] h1] eqn:Hrun;
      [|done].
    destruct tup as [v|pair]; [|reflexivity].
    apply md_client_req_raw in Hrun as ->. reflexivity. }
  split; [exact Hsame|].
  intros v h'. rewrite Hsame. apply md_client_req_raw.
Qed.

End Facts.

(** *** On a small store *)

Import EmbedStoreSample.

Lemma sample_json_allocates : json_allocates (embed_url := string).
Proof.
  intros resp h h' r [= <- <-] l Hl.
  rewrite lookup_insert_ne; [done|].
  intros <-. by apply (is_fresh (dom h)).
Qed.

Lemma fill_embed_writes_through_witness :
  (fill_embed (Some 1%positive) store0).1
  = Fail (Python (ValueError "Invalid URL scheme"))
  /\ (let h' := (fill_embed (Some 1%positive) store0).2 in
      footer ← getitem h' (HRef 1%positive) "footer";
      getitem h' footer "proxy_icon_url")
     = Ok (HStr "https://media.example/img/http://a/b.png").
Proof.
  split; [vm_compute; reflexivity|].
  apply (fill_embed_writes_through sample_json_allocates 1%positive 2%positive store0
           (fill_embed (Some 1%positive) store0).2
           {[ "type" := HStr "video"; "footer" := HRef 2%positive;
              "author" := HRef 3%positive ]}
           {[ "icon_url" := HStr "http://a/b.png" ]}
           (HStr "http://a/b.png")
           (HStr "https://media.example/img/http://a/b.png")
           (fill_embed (Some 1%positive) store0).1);
    vm_compute; reflexivity.
Defined.

Lemma proxify_formats_witness :
  proxify (HStr "http://a/b.png") None
  = Ok (HStr "https://media.example/img/http://a/b.png").
Proof.
  destruct (proxify_formats (Some "media.example") (Some (VBool true)))
    as (Hstring & _ & _); [vm_compute; reflexivity..|].
  rewrite Hstring. reflexivity.
Defined.

(** A call that returns: the caller's dictionary is as it was, the image
    below it has been filled in. *)
Lemma fill_embed_footprint_witness :
  let h' := (fill_embed (Some 1%positive) store1).2 in
  (fill_embed (Some 1%positive) store1).1 = Ok (Some (fresh (dom store1)))
  /\ h' !! 1%positive = store1 !! 1%positive
  /\ h' !! 2%positive
     = Some {[ "url" := HStr "http://a/b.png";
               "proxy_url" := HStr "https://media.example/img/http://a/b.png";
               "width" := HInt 64; "height" := HInt 48 ]}.
Proof.
  intros h'.
  destruct (fill_embed_footprint sample_json_allocates 1%positive store1 h'
              (fill_embed (Some 1%positive) store1).1)
    as (_ & Hnew & Hkeep & _); [apply surjective_pairing|].
  split; [|split].
  - destruct (fill_embed (Some 1%positive) store1).1 as [r|err] eqn:Hrun.
    + f_equal. by apply Hnew.
    + exfalso. revert Hrun. vm_compute. discriminate.
  - apply Hkeep; [vm_compute; reflexivity|].
    intros (field & Hfield & Hlook). unfold fields in Hfield.
    repeat (apply elem_of_cons in Hfield as [->|Hfield];
            [revert Hlook; vm_compute; discriminate|]).
    by apply elem_of_nil in Hfield.
  - vm_compute. reflexivity.
Defined.

End EmbedStoreFacts.

(** ** litecord/blueprints/users.py: direct messages *)

Module UsersDMFacts.
Import Py Dispatcher Users UsersRead UsersDM UsersFacts.

Section Facts.
Context {db : Type} `{App db} `{DMQueries db}.

(** X24. create_dm never fails on a uniqueness violation and makes no
    dispatcher call.  When the INSERT into channels or into dm_channels is
    refused it answers the direct message whose id the SELECT finds, and
    in the second case the row just inserted into channels stays; when
    both go through it answers the new one, whether or not the state row
    was already there. *)
Theorem create_dm_keeps_channel_row :
  forall (snowflake user_id : Z) (recipient_id : value) (w : world db),
    let answer (dm_id : value) (d : db) :=
      (match storage_get_dm dm_id user_id d with
       | Return dm => Return (jsonify dm)
       | Raise e => Raise e
       end,
       World d (w_draws w) (w_dispatcher w) (w_calls w)) in
    create_dm snowflake user_id recipient_id w
    = match execute_dm (InsertChannel snowflake channel_type_dm) (w_db w) with
      | None => answer (fetchval_dm_id user_id recipient_id (w_db w)) (w_db w)
      | Some d1 =>
          match execute_dm (InsertDMChannel snowflake user_id recipient_id) d1 with
          | None => answer (fetchval_dm_id user_id recipient_id d1) d1
          | Some d2 =>
              match execute_dm (InsertDMState user_id snowflake) d2 with
              | Some d3 => answer (VInt snowflake) d3
              | None => answer (VInt snowflake) d2
              end
          end
      end.
Proof.
  intros snowflake user_id recipient_id w answer.
  assert (Hend : forall dm_id w1,
    (dm ← db_call (storage_get_dm dm_id user_id); ret (jsonify dm)) w1
    = (match storage_get_dm dm_id user_id (w_db w1) with
       | Return dm => Return (jsonify dm)
       | Raise e => Raise e
       end, w1)).
  { intros dm_id w1. rewrite bind_run. unfold db_call.
    by destruct (storage_get_dm dm_id user_id (w_db w1)). }
  unfold create_dm. rewrite bind_run. unfold try_ at 1.
  rewrite bind_run. unfold db_execute_dm at 1.
  destruct (execute_dm (InsertChannel _ _) (w_db w)) as [d1|].
  - rewrite bind_run. unfold db_execute_dm at 1. cbn [w_db].
    destruct (execute_dm (InsertDMChannel _ _ _) d1) as [d2|].
    + rewrite bind_run. unfold try_dm_state, try_, db_execute_dm. cbn [w_db].
      destruct (execute_dm (InsertDMState _ _) d2) as [d3|];
        cbn [is_UniqueViolationError]; unfold ret at 1 2; rewrite Hend;
        destruct w; reflexivity.
    + cbn [is_UniqueViolationError]. unfold db_read. rewrite Hend.
      destruct w; reflexivity.
  - cbn [is_UniqueViolationError]. unfold db_read. rewrite Hend.
    destruct w; reflexivity.
Qed.

End Facts.
End UsersDMFacts.
